(** * SimpleTimer: a shallow embedding of the polling timer scheduler

    The embedded program is [src/SimpleTimer.cpp]: a class with seven parallel
    arrays of [MAX_TIMERS] entries and a counter, polled through [run()].

    Conventions of the embedding.
    - [unsigned long] (the tick counter) is a 32-bit integer, as on the AVR
      targets the sketch is written for; it is a [Z] with the wrap-around
      written out ([to_ulong], [ulong_sub], [ulong_add]).
    - [int] and [long] values are [Z].  No signed arithmetic of the program can
      overflow: [numRuns[i]++] runs under [numRuns[i] < maxNumRuns[i]] and
      [numTimers++] under [numTimers < MAX_TIMERS].
    - [timer_callback] is a function pointer: a [Z], with [NULL = 0].
    - Each array is a [list] of length [MAX_TIMERS], read with stdpp's total
      lookup and written with stdpp's insert.  An access outside the array is
      undefined behaviour in C++; the operations return [None] for it.
    - [millis()] is an input: every operation that reads the clock takes the
      value read as an argument.
    - What a callback does is a tree of calls to the public interface of the
      same object ([callback_body]); the environment maps a function pointer
      to its body. *)

From Stdlib Require Import ZArith List Lia Bool ZifyBool.
From stdpp Require Import base list.
Local Open Scope Z_scope.

(** * Definitions *)

(** ** Constants of the class *)

Definition MAX_TIMERS : Z := 10.
Definition RUN_FOREVER : Z := 0.
Definition RUN_ONCE : Z := 1.
Definition DEFCALL_DONTRUN : Z := 0.
Definition DEFCALL_RUNONLY : Z := 1.
Definition DEFCALL_RUNANDDEL : Z := 2.
Definition NULL : Z := 0.

(** The loop bound [i < MAX_TIMERS] as a number of iterations. *)
Definition NSLOTS : nat := Z.to_nat MAX_TIMERS.

(** ** Arithmetic of [unsigned long] *)

Definition ULONG_BITS : Z := 32.
Definition ULONG_MODULUS : Z := 2 ^ ULONG_BITS.

(** Conversion to [unsigned long] (of a [long], or of an exact result). *)
Definition to_ulong (x : Z) : Z := x mod ULONG_MODULUS.
Definition ulong_sub (a b : Z) : Z := to_ulong (a - b).
Definition ulong_add (a b : Z) : Z := to_ulong (a + b).

(** ** The object *)

Record SimpleTimer : Type := mkSimpleTimer {
  prev_millis : list Z;
  callbacks : list Z;
  delays : list Z;
  maxNumRuns : list Z;
  numRuns : list Z;
  enabled : list bool;
  toBeCalled : list Z;
  numTimers : Z
}.

(** Array stores, one per member: [a[i] = v]. *)

Definition set_prev_millis (i : nat) (v : Z) (s : SimpleTimer) : SimpleTimer :=
  mkSimpleTimer (<[i:=v]> (prev_millis s)) (callbacks s) (delays s) (maxNumRuns s)
                (numRuns s) (enabled s) (toBeCalled s) (numTimers s).

Definition set_callbacks (i : nat) (v : Z) (s : SimpleTimer) : SimpleTimer :=
  mkSimpleTimer (prev_millis s) (<[i:=v]> (callbacks s)) (delays s) (maxNumRuns s)
                (numRuns s) (enabled s) (toBeCalled s) (numTimers s).

Definition set_delays (i : nat) (v : Z) (s : SimpleTimer) : SimpleTimer :=
  mkSimpleTimer (prev_millis s) (callbacks s) (<[i:=v]> (delays s)) (maxNumRuns s)
                (numRuns s) (enabled s) (toBeCalled s) (numTimers s).

Definition set_maxNumRuns (i : nat) (v : Z) (s : SimpleTimer) : SimpleTimer :=
  mkSimpleTimer (prev_millis s) (callbacks s) (delays s) (<[i:=v]> (maxNumRuns s))
                (numRuns s) (enabled s) (toBeCalled s) (numTimers s).

Definition set_numRuns (i : nat) (v : Z) (s : SimpleTimer) : SimpleTimer :=
  mkSimpleTimer (prev_millis s) (callbacks s) (delays s) (maxNumRuns s)
                (<[i:=v]> (numRuns s)) (enabled s) (toBeCalled s) (numTimers s).

Definition set_enabled (i : nat) (v : bool) (s : SimpleTimer) : SimpleTimer :=
  mkSimpleTimer (prev_millis s) (callbacks s) (delays s) (maxNumRuns s)
                (numRuns s) (<[i:=v]> (enabled s)) (toBeCalled s) (numTimers s).

Definition set_toBeCalled (i : nat) (v : Z) (s : SimpleTimer) : SimpleTimer :=
  mkSimpleTimer (prev_millis s) (callbacks s) (delays s) (maxNumRuns s)
                (numRuns s) (enabled s) (<[i:=v]> (toBeCalled s)) (numTimers s).

Definition set_numTimers (v : Z) (s : SimpleTimer) : SimpleTimer :=
  mkSimpleTimer (prev_millis s) (callbacks s) (delays s) (maxNumRuns s)
                (numRuns s) (enabled s) (toBeCalled s) v.

(** A [for (i = 0; i < MAX_TIMERS; i++)] loop whose body is [body i]. *)
Definition for_slots (body : nat -> SimpleTimer -> SimpleTimer)
                     (s : SimpleTimer) : SimpleTimer :=
  fold_left (fun acc i => body i acc) (seq 0 NSLOTS) s.

(** ** Constructor

    The loop initialises four of the seven arrays; [delays], [maxNumRuns] and
    [toBeCalled] keep whatever the storage [mem] of the object held. *)

Definition init_slot (current_millis : Z) (i : nat) (s : SimpleTimer) : SimpleTimer :=
  set_numRuns i 0
    (set_prev_millis i current_millis
      (set_callbacks i 0
        (set_enabled i false s))).

Definition SimpleTimer_new (mem : SimpleTimer) (current_millis : Z) : SimpleTimer :=
  set_numTimers 0 (for_slots (init_slot current_millis) mem).

(** ** deleteTimer *)

Definition deleteTimer (timerId : Z) (s : SimpleTimer) : option SimpleTimer :=
  if timerId >=? MAX_TIMERS then Some s
  else if numTimers s =? 0 then Some s
  else if timerId <? 0 then None
  else
    let i := Z.to_nat timerId in
    if negb (callbacks s !!! i =? NULL) then
      Some (set_numTimers (numTimers s - 1)
             (set_numRuns i 0
               (set_delays i 0
                 (set_toBeCalled i DEFCALL_DONTRUN
                   (set_enabled i false
                     (set_callbacks i 0 s))))))
    else Some s.

(** ** findFirstFreeSlot and the registration functions *)

Fixpoint scan_free (cbs : list Z) (idx : list nat) : Z :=
  match idx with
  | [] => -1
  | i :: rest => if cbs !!! i =? 0 then Z.of_nat i else scan_free cbs rest
  end.

Definition findFirstFreeSlot (s : SimpleTimer) : Z :=
  if numTimers s >=? MAX_TIMERS then -1
  else scan_free (callbacks s) (seq 0 NSLOTS).

Definition setTimer (current_millis d f n : Z) (s : SimpleTimer) : SimpleTimer * Z :=
  let freeTimer := findFirstFreeSlot s in
  if freeTimer <? 0 then (s, -1)
  else if f =? NULL then (s, -1)
  else
    let i := Z.to_nat freeTimer in
    (set_numTimers (numTimers s + 1)
       (set_prev_millis i current_millis
         (set_enabled i true
           (set_maxNumRuns i n
             (set_callbacks i f
               (set_delays i d s))))),
     freeTimer).

Definition setInterval (current_millis d f : Z) (s : SimpleTimer) : SimpleTimer * Z :=
  setTimer current_millis d f RUN_FOREVER s.

Definition setTimeout (current_millis d f : Z) (s : SimpleTimer) : SimpleTimer * Z :=
  setTimer current_millis d f RUN_ONCE s.

(** ** The index-addressed control functions *)

Definition restartTimer (current_millis numTimer : Z) (s : SimpleTimer) : option SimpleTimer :=
  if numTimer >=? MAX_TIMERS then Some s
  else if numTimer <? 0 then None
  else Some (set_prev_millis (Z.to_nat numTimer) current_millis s).

Definition isEnabled (numTimer : Z) (s : SimpleTimer) : option bool :=
  if numTimer >=? MAX_TIMERS then Some false
  else if numTimer <? 0 then None
  else Some (enabled s !!! Z.to_nat numTimer).

Definition enable (numTimer : Z) (s : SimpleTimer) : option SimpleTimer :=
  if numTimer >=? MAX_TIMERS then Some s
  else if numTimer <? 0 then None
  else Some (set_enabled (Z.to_nat numTimer) true s).

Definition disable (numTimer : Z) (s : SimpleTimer) : option SimpleTimer :=
  if numTimer >=? MAX_TIMERS then Some s
  else if numTimer <? 0 then None
  else Some (set_enabled (Z.to_nat numTimer) false s).

Definition toggle (numTimer : Z) (s : SimpleTimer) : option SimpleTimer :=
  if numTimer >=? MAX_TIMERS then Some s
  else if numTimer <? 0 then None
  else
    let i := Z.to_nat numTimer in
    Some (set_enabled i (negb (enabled s !!! i)) s).

Definition getNumTimers (s : SimpleTimer) : Z := numTimers s.

Definition getNumAvailableTimers (s : SimpleTimer) : Z := MAX_TIMERS - numTimers s.

(** ** Callbacks

    A callback is code outside the class.  What matters of it here is the
    calls it makes on the timer object, each possibly depending on what the
    earlier ones returned.  [run()] itself is not among them: the scheduler is
    not re-entrant. *)

Inductive api_call : Type :=
| CallSetTimer (current_millis d f n : Z)
| CallSetInterval (current_millis d f : Z)
| CallSetTimeout (current_millis d f : Z)
| CallDeleteTimer (timerId : Z)
| CallRestartTimer (current_millis numTimer : Z)
| CallIsEnabled (numTimer : Z)
| CallEnable (numTimer : Z)
| CallDisable (numTimer : Z)
| CallToggle (numTimer : Z)
| CallGetNumTimers
| CallGetNumAvailableTimers.

Inductive callback_body : Type :=
| Return
| Invoke (c : api_call) (k : Z -> callback_body).

Definition void (r : option SimpleTimer) : option (SimpleTimer * Z) :=
  match r with
  | Some s => Some (s, 0)
  | None => None
  end.

Definition exec_call (c : api_call) (s : SimpleTimer) : option (SimpleTimer * Z) :=
  match c with
  | CallSetTimer t d f n => Some (setTimer t d f n s)
  | CallSetInterval t d f => Some (setInterval t d f s)
  | CallSetTimeout t d f => Some (setTimeout t d f s)
  | CallDeleteTimer i => void (deleteTimer i s)
  | CallRestartTimer t i => void (restartTimer t i s)
  | CallIsEnabled i =>
      match isEnabled i s with
      | Some b => Some (s, if b then 1 else 0)
      | None => None
      end
  | CallEnable i => void (enable i s)
  | CallDisable i => void (disable i s)
  | CallToggle i => void (toggle i s)
  | CallGetNumTimers => Some (s, getNumTimers s)
  | CallGetNumAvailableTimers => Some (s, getNumAvailableTimers s)
  end.

Fixpoint exec_body (b : callback_body) (s : SimpleTimer) : option SimpleTimer :=
  match b with
  | Return => Some s
  | Invoke c k =>
      match exec_call c s with
      | Some (s', r) => exec_body (k r) s'
      | None => None
      end
  end.

(** ** run

    What [run()] itself does to the outside is recorded as a trace: the calls
    through [callbacks[i]] and its own calls of [deleteTimer(i)]. *)

Inductive event : Type :=
| Fired (slot : nat) (f : Z)
| AutoDeleted (slot : nat).

(** "Is it time to process this timer?": the comparison is made in
    [unsigned long], the [long] delay being converted. *)
Definition is_due (current_millis prev d : Z) : bool :=
  ulong_sub current_millis prev >=? to_ulong d.

(** First loop: one iteration. *)
Definition eval_slot (current_millis : Z) (i : nat) (s0 : SimpleTimer) : SimpleTimer :=
  let s := set_toBeCalled i DEFCALL_DONTRUN s0 in
  if negb (callbacks s !!! i =? NULL) then
    if is_due current_millis (prev_millis s !!! i) (delays s !!! i) then
      let s1 := set_prev_millis i (ulong_add (prev_millis s !!! i) (delays s !!! i)) s in
      if (enabled s1 !!! i : bool) then
        if maxNumRuns s1 !!! i =? RUN_FOREVER then
          set_toBeCalled i DEFCALL_RUNONLY s1
        else if numRuns s1 !!! i <? maxNumRuns s1 !!! i then
          let s2 := set_toBeCalled i DEFCALL_RUNONLY s1 in
          let s3 := set_numRuns i (numRuns s2 !!! i + 1) s2 in
          if numRuns s3 !!! i >=? maxNumRuns s3 !!! i then
            set_toBeCalled i DEFCALL_RUNANDDEL s3
          else s3
        else s1
      else s1
    else s
  else s.

Definition evaluate (current_millis : Z) (s : SimpleTimer) : SimpleTimer :=
  for_slots (eval_slot current_millis) s.

Section Run.

Variable env : Z -> callback_body.

(** The call through [callbacks[i]]; through a null pointer it is undefined. *)
Definition call_callback (i : nat) (s : SimpleTimer) : option SimpleTimer :=
  let f : Z := callbacks s !!! i in
  if f =? NULL then None else exec_body (env f) s.

(** Second loop: one iteration (the [switch]). *)
Definition act_slot (i : nat) (s : SimpleTimer) : option (SimpleTimer * list event) :=
  let a : Z := toBeCalled s !!! i in
  if a =? DEFCALL_DONTRUN then Some (s, [])
  else if a =? DEFCALL_RUNONLY then
    match call_callback i s with
    | Some s1 => Some (s1, [Fired i (callbacks s !!! i)])
    | None => None
    end
  else if a =? DEFCALL_RUNANDDEL then
    match call_callback i s with
    | Some s1 =>
        match deleteTimer (Z.of_nat i) s1 with
        | Some s2 => Some (s2, [Fired i (callbacks s !!! i); AutoDeleted i])
        | None => None
        end
    | None => None
    end
  else Some (s, []).

Fixpoint act (idx : list nat) (s : SimpleTimer) : option (SimpleTimer * list event) :=
  match idx with
  | [] => Some (s, [])
  | i :: rest =>
      match act_slot i s with
      | Some (s1, ev) =>
          match act rest s1 with
          | Some (s2, tr) => Some (s2, ev ++ tr)
          | None => None
          end
      | None => None
      end
  end.

Definition run (current_millis : Z) (s : SimpleTimer) : option (SimpleTimer * list event) :=
  act (seq 0 NSLOTS) (evaluate current_millis s).

(** [run()] once per element of [ticks], in order; the traces concatenated. *)
Fixpoint run_all (ticks : list Z) (s : SimpleTimer) : option (SimpleTimer * list event) :=
  match ticks with
  | [] => Some (s, [])
  | t :: rest =>
      match run t s with
      | Some (s1, tr1) =>
          match run_all rest s1 with
          | Some (s2, tr2) => Some (s2, tr1 ++ tr2)
          | None => None
          end
      | None => None
      end
  end.

End Run.

(** Number of calls through [callbacks[i]] recorded in a trace. *)
Fixpoint fires (i : nat) (tr : list event) : nat :=
  match tr with
  | [] => 0%nat
  | Fired j _ :: rest => ((if Nat.eqb j i then 1 else 0) + fires i rest)%nat
  | AutoDeleted _ :: rest => fires i rest
  end.

(** ** Predicates on callbacks *)

(** The index a call addresses is not negative (no access below the arrays). *)
Definition call_in_bounds (c : api_call) : Prop :=
  match c with
  | CallDeleteTimer j | CallRestartTimer _ j | CallIsEnabled j
  | CallEnable j | CallDisable j | CallToggle j => 0 <= j
  | _ => True
  end.

(** The call is not [deleteTimer(i)]. *)
Definition call_spares (i : nat) (c : api_call) : Prop :=
  match c with
  | CallDeleteTimer j => j <> Z.of_nat i
  | _ => True
  end.

(** The call does not write to slot [i] through its index. *)
Definition call_avoids (i : nat) (c : api_call) : Prop :=
  match c with
  | CallDeleteTimer j | CallRestartTimer _ j
  | CallEnable j | CallDisable j | CallToggle j => j <> Z.of_nat i
  | _ => True
  end.

(** The call registers no timer. *)
Definition call_no_register (c : api_call) : Prop :=
  match c with
  | CallSetTimer _ _ _ _ | CallSetInterval _ _ _ | CallSetTimeout _ _ _ => False
  | _ => True
  end.

(** Every call a body can make, whatever the earlier calls returned. *)
Fixpoint body_all (P : api_call -> Prop) (b : callback_body) : Prop :=
  match b with
  | Return => True
  | Invoke c k => P c /\ forall r, body_all P (k r)
  end.

(** ** State predicates *)

(** The arrays have the size their declaration gives them. *)
Definition wf (s : SimpleTimer) : Prop :=
  length (prev_millis s) = NSLOTS /\
  length (callbacks s) = NSLOTS /\
  length (delays s) = NSLOTS /\
  length (maxNumRuns s) = NSLOTS /\
  length (numRuns s) = NSLOTS /\
  length (enabled s) = NSLOTS /\
  length (toBeCalled s) = NSLOTS.

(** Number of slots whose callback is present. *)
Fixpoint in_use_count (cbs : list Z) : nat :=
  match cbs with
  | [] => 0%nat
  | f :: rest => ((if (f =? NULL)%Z then 0 else 1) + in_use_count rest)%nat
  end.

(** The invariant of the data model: [numTimers] counts the slots in use and
    does not exceed the capacity. *)
Definition counted (s : SimpleTimer) : Prop :=
  numTimers s = Z.of_nat (in_use_count (callbacks s)) /\
  numTimers s <= MAX_TIMERS.

(** The invariant on well-formed storage. *)
Definition Inv (s : SimpleTimer) : Prop := wf s /\ counted s.

(** A free slot has no runs recorded. *)
Definition free_clean (s : SimpleTimer) : Prop :=
  forall i : nat, (i < NSLOTS)%nat ->
    callbacks s !!! i = NULL -> numRuns s !!! i = 0.

(** A slot with a pending deferred call holds a callback. *)
Definition armed_ok (s : SimpleTimer) : Prop :=
  forall i : nat, (i < NSLOTS)%nat ->
    toBeCalled s !!! i <> DEFCALL_DONTRUN -> callbacks s !!! i <> NULL.

(** The members of one slot, side by side. *)
Record slot : Type := mkSlot {
  sl_prev : Z;
  sl_cb : Z;
  sl_delay : Z;
  sl_max : Z;
  sl_runs : Z;
  sl_en : bool;
  sl_tbc : Z
}.

(** Slot [i] of the object. *)
Definition view (s : SimpleTimer) (i : nat) : slot :=
  mkSlot (prev_millis s !!! i) (callbacks s !!! i) (delays s !!! i)
         (maxNumRuns s !!! i) (numRuns s !!! i) (enabled s !!! i)
         (toBeCalled s !!! i).

(** What one iteration of the first loop of [run()] does to its own slot. *)
Definition step_slot (current_millis : Z) (v : slot) : slot :=
  if sl_cb v =? NULL then
    mkSlot (sl_prev v) (sl_cb v) (sl_delay v) (sl_max v) (sl_runs v) (sl_en v) DEFCALL_DONTRUN
  else if is_due current_millis (sl_prev v) (sl_delay v) then
    let p := ulong_add (sl_prev v) (sl_delay v) in
    if sl_en v then
      if sl_max v =? RUN_FOREVER then
        mkSlot p (sl_cb v) (sl_delay v) (sl_max v) (sl_runs v) (sl_en v) DEFCALL_RUNONLY
      else if sl_runs v <? sl_max v then
        mkSlot p (sl_cb v) (sl_delay v) (sl_max v) (sl_runs v + 1) (sl_en v)
               (if sl_runs v + 1 >=? sl_max v then DEFCALL_RUNANDDEL else DEFCALL_RUNONLY)
      else
        mkSlot p (sl_cb v) (sl_delay v) (sl_max v) (sl_runs v) (sl_en v) DEFCALL_DONTRUN
    else
      mkSlot p (sl_cb v) (sl_delay v) (sl_max v) (sl_runs v) (sl_en v) DEFCALL_DONTRUN
  else
    mkSlot (sl_prev v) (sl_cb v) (sl_delay v) (sl_max v) (sl_runs v) (sl_en v) DEFCALL_DONTRUN.

(** ** Notions used in the statements and proofs *)

(** The stores of a successful [setTimer] that chose slot [i]. *)
Definition registered (i : nat) (t d f n : Z) (s : SimpleTimer) : SimpleTimer :=
  set_numTimers (numTimers s + 1)
    (set_prev_millis i t
      (set_enabled i true
        (set_maxNumRuns i n
          (set_callbacks i f
            (set_delays i d s))))).

(** The stores of [deleteTimer] on slot [i] in use. *)
Definition cleared (i : nat) (s : SimpleTimer) : SimpleTimer :=
  set_numTimers (numTimers s - 1)
    (set_numRuns i 0
      (set_delays i 0
        (set_toBeCalled i DEFCALL_DONTRUN
          (set_enabled i false
            (set_callbacks i 0 s))))).

(** Every call of the interface leaves the object as it is or performs one of
    four store sequences.  [effect reg D W s s']: [s'] is [s] after at most
    one of them; a registration only if [reg], a deletion only of a slot in
    [D], a store to [prev_millis] or [enabled] only at a slot in [W]. *)
Inductive effect (reg : Prop) (D W : nat -> Prop) (s : SimpleTimer) : SimpleTimer -> Prop :=
| eff_none : effect reg D W s s
| eff_register i t d f n :
    reg -> (i < NSLOTS)%nat -> callbacks s !!! i = NULL -> f <> NULL ->
    numTimers s < MAX_TIMERS ->
    effect reg D W s (registered i t d f n s)
| eff_clear i :
    D i -> (i < NSLOTS)%nat -> callbacks s !!! i <> NULL -> numTimers s <> 0 ->
    effect reg D W s (cleared i s)
| eff_restart i t :
    W i -> (i < NSLOTS)%nat -> effect reg D W s (set_prev_millis i t s)
| eff_enable i b :
    W i -> (i < NSLOTS)%nat -> effect reg D W s (set_enabled i b s).

(** Number of calls of [deleteTimer(i)] by [run()] recorded in a trace. *)
Fixpoint deletions (i : nat) (tr : list event) : nat :=
  match tr with
  | [] => 0%nat
  | AutoDeleted j :: rest => ((if Nat.eqb j i then 1 else 0) + deletions i rest)%nat
  | Fired _ _ :: rest => deletions i rest
  end.

(** Well-formed storage in which free slots have no runs recorded. *)
Definition Clean (s : SimpleTimer) : Prop := wf s /\ free_clean s.

(** The states of an object from its construction on, through any calls of
    the interface and any polls, whatever the callbacks. *)
Inductive reachable : SimpleTimer -> Prop :=
| reach_new mem t : wf mem -> reachable (SimpleTimer_new mem t)
| reach_call c s s' r :
    reachable s -> exec_call c s = Some (s', r) -> reachable s'
| reach_run env t s s' tr :
    reachable s -> run env t s = Some (s', tr) -> reachable s'.

(** The first [m] slots are in use and the others are free. *)
Definition prefix_used (m : nat) (s : SimpleTimer) : Prop :=
  forall j, (j < NSLOTS)%nat ->
    ((j < m)%nat -> callbacks s !!! j <> NULL) /\
    ((m <= j)%nat -> callbacks s !!! j = NULL).

(** A list of registrations [(tick, d, f, n)], made in order. *)
Fixpoint register_all (regs : list (Z * Z * Z * Z)) (s : SimpleTimer)
  : SimpleTimer * list Z :=
  match regs with
  | [] => (s, [])
  | (t, d, f, n) :: rest =>
      let (s1, r) := setTimer t d f n s in
      let (s2, rs) := register_all rest s1 in
      (s2, r :: rs)
  end.

(** [s'] is [s] but for [enabled[i]], which is [b]. *)
Definition only_enabled_written (s s' : SimpleTimer) (i : nat) (b : bool) : Prop :=
  enabled s' = <[i:=b]> (enabled s) /\
  prev_millis s' = prev_millis s /\ callbacks s' = callbacks s /\
  delays s' = delays s /\ maxNumRuns s' = maxNumRuns s /\
  numRuns s' = numRuns s /\ toBeCalled s' = toBeCalled s /\
  numTimers s' = numTimers s.

(** [s'] is [s] but for [prev_millis[i]], which is [t]. *)
Definition only_baseline_written (s s' : SimpleTimer) (i : nat) (t : Z) : Prop :=
  prev_millis s' = <[i:=t]> (prev_millis s) /\
  enabled s' = enabled s /\ callbacks s' = callbacks s /\
  delays s' = delays s /\ maxNumRuns s' = maxNumRuns s /\
  numRuns s' = numRuns s /\ toBeCalled s' = toBeCalled s /\
  numTimers s' = numTimers s.

(** What the second loop relies on. *)
Definition Base (s : SimpleTimer) : Prop := wf s /\ counted s /\ armed_ok s.

(** The members of a slot in use that only a deletion of it could change. *)
Definition kept (s : SimpleTimer) (i : nat) : Z * Z * Z * Z * Z :=
  (callbacks s !!! i, toBeCalled s !!! i, delays s !!! i,
   maxNumRuns s !!! i, numRuns s !!! i).

(** The events of one iteration of the second loop, by the deferred call. *)
Definition slot_events (a : Z) (i : nat) (f : Z) : list event :=
  if a =? DEFCALL_RUNONLY then [Fired i f]
  else if a =? DEFCALL_RUNANDDEL then [Fired i f; AutoDeleted i]
  else [].

(** What [run()] never changes of a timer with a negative run limit. *)
Definition stuck (i : nat) (f n : Z) (s : SimpleTimer) : Prop :=
  Inv s /\ callbacks s !!! i = f /\ maxNumRuns s !!! i = n /\ numRuns s !!! i = 0.

(** Number of polls of [ticks] that find due a timer of baseline [pm] and
    delay [d], the baseline advancing by one delay at each such poll. *)
Fixpoint due_count (pm d : Z) (ticks : list Z) : nat :=
  match ticks with
  | [] => 0%nat
  | t :: rest =>
      if is_due t pm d then S (due_count (ulong_add pm d) d rest)
      else due_count pm d rest
  end.

(** Callbacks that neither address slot [i] nor register timers. *)
Definition call_quiet (i : nat) (c : api_call) : Prop :=
  call_in_bounds c /\ call_avoids i c /\ call_no_register c.

(** The timer [f] of delay [p] and run limit [n] is registered in slot [i],
    enabled, with [r] runs made and baseline [pm]. *)
Definition live (i : nat) (f n p r pm : Z) (s : SimpleTimer) : Prop :=
  Inv s /\ 0 <= r < n /\
  view s i = mkSlot pm f p n r true (toBeCalled s !!! i).

(** Slot [i] is free. *)
Definition dead (i : nat) (s : SimpleTimer) : Prop :=
  Inv s /\ callbacks s !!! i = NULL.

(** The polls are made at ticks that do not decrease, from [from] on. *)
Fixpoint ascending (from : Z) (ticks : list Z) : Prop :=
  match ticks with
  | [] => True
  | t :: rest => from <= t /\ ascending t rest
  end.

(** Number of polls made at tick [bound] or later. *)
Fixpoint late_count (bound : Z) (ticks : list Z) : nat :=
  match ticks with
  | [] => 0%nat
  | t :: rest => ((if (bound <=? t)%Z then 1 else 0) + late_count bound rest)%nat
  end.

(** ** Concrete objects for the examples *)

(** The storage of an object of static storage duration, zero-initialised
    before its constructor runs (the timers of the sketch are globals). *)
Definition blank : SimpleTimer :=
  mkSimpleTimer (replicate NSLOTS 0) (replicate NSLOTS 0) (replicate NSLOTS 0)
                (replicate NSLOTS 0) (replicate NSLOTS 0) (replicate NSLOTS false)
                (replicate NSLOTS 0) 0.

(** A fresh object, constructed at tick 0. *)
Definition fresh : SimpleTimer := SimpleTimer_new blank 0.

(** Callbacks that make no call on the timer, like those of the sketch. *)
Definition passive (f : Z) : callback_body := Return.

(** Ten registrations, then an eleventh. *)
Definition ten_timers : list (Z * Z * Z * Z) :=
  map (fun k => (0, 100 * k, k, 0)) [1; 2; 3; 4; 5; 6; 7; 8; 9; 10].

(** A callback that deletes slot 1. *)
Definition deleter (f : Z) : callback_body :=
  if f =? 11 then Invoke (CallDeleteTimer 1) (fun _ => Return) else Return.

(** Two timers, both due at tick 1000. *)
Definition two_due : SimpleTimer :=
  fst (setTimer 0 500 12 0 (fst (setTimer 0 1000 11 0 fresh))).

(** A callback that disables, restarts and toggles slot 1, and registers a
    timer, but does not delete slot 1. *)
Definition meddler (f : Z) : callback_body :=
  if f =? 11 then
    Invoke (CallDisable 1) (fun _ =>
    Invoke (CallRestartTimer 1000 1) (fun _ =>
    Invoke (CallSetTimer 1000 5 13 1) (fun _ => Return)))
  else Return.

(** A timer of period 100 registered at tick 0 to run forever, polled for the
    first time at tick 350. *)
Definition late_poll : SimpleTimer := fst (setTimer 0 100 21 0 fresh).

(** A timer of period 100 registered at tick 40 and disabled at once. *)
Definition disabled_timer : SimpleTimer :=
  set_enabled 0 false (fst (setTimer 40 100 21 0 fresh)).

(** A timer of period 10 registered at tick 0 for two runs. *)
Definition two_runs : SimpleTimer := fst (setTimer 0 10 21 2 fresh).

(** ** Notions for the further properties *)

(** Number of slots whose callback is absent. *)
Fixpoint free_count (cbs : list Z) : nat :=
  match cbs with
  | [] => 0%nat
  | f :: rest => ((if (f =? NULL)%Z then 1 else 0) + free_count rest)%nat
  end.

(** The timer [f] of delay [p] is registered in slot [i] to run forever,
    enabled, with baseline [pm]. *)
Definition perpetual (i : nat) (f p pm : Z) (s : SimpleTimer) : Prop :=
  Inv s /\
  view s i = mkSlot pm f p RUN_FOREVER (numRuns s !!! i) true (toBeCalled s !!! i).

(** Calls in range that register nothing. *)
Definition call_tame (c : api_call) : Prop :=
  call_in_bounds c /\ call_no_register c.

(** A callback that deletes the timer of slot 0, its own in the example. *)
Definition self_deleter (f : Z) : callback_body :=
  if f =? 11 then Invoke (CallDeleteTimer 0) (fun _ => Return) else Return.

(** What the second loop relies on, for a free slot [i]. *)
Definition vacant (i : nat) (s : SimpleTimer) : Prop :=
  Base s /\ callbacks s !!! i = NULL.

(** ** The sketch *)

(** Constants of the Arduino core ([Arduino.h]), which the sketch uses. *)
Definition LOW : Z := 0.

Definition HIGH : Z := 1.

Definition OUTPUT : Z := 1.

(** The core's functions take pin, mode and value as [uint8_t]. *)
Definition to_uint8 (x : Z) : Z := x mod 256.

Definition led_red : Z := 7.

Definition led_yellow : Z := 6.

Definition led_green : Z := 5.

(** What the sketch does to the pins, in order. *)
Inductive pin_event : Type :=
| PinMode (pin mode : Z)
| DigitalWrite (pin val : Z).

(** The global variables of the sketch other than the timers, with the
    record of the pin operations made so far (oldest first). *)
Record world : Type := mkWorld {
  state_red : Z;
  state_green : Z;
  wiring : list pin_event
}.

Definition pinMode (pin mode : Z) (w : world) : world :=
  mkWorld (state_red w) (state_green w)
          (wiring w ++ [PinMode (to_uint8 pin) (to_uint8 mode)]).

Definition digitalWrite (pin val : Z) (w : world) : world :=
  mkWorld (state_red w) (state_green w)
          (wiring w ++ [DigitalWrite (to_uint8 pin) (to_uint8 val)]).

(** The operator [!] on an [int]. *)
Definition lnot (x : Z) : Z := if x =? 0 then 1 else 0.

Definition toggle_red (w : world) : world :=
  let w1 := mkWorld (lnot (state_red w)) (state_green w) (wiring w) in
  digitalWrite led_red (state_red w1) w1.

Definition turn_on (w : world) : world := digitalWrite led_yellow HIGH w.

Definition toggle_green (w : world) : world :=
  let w1 := mkWorld (state_red w) (lnot (state_green w)) (wiring w) in
  digitalWrite led_green (state_green w1) w1.

(** The addresses of the three functions: distinct and not null. *)
Definition fn_toggle_red : Z := 1.

Definition fn_turn_on : Z := 2.

Definition fn_toggle_green : Z := 3.

(** A call through a function pointer. *)
Definition call_function (f : Z) (w : world) : world :=
  if f =? fn_toggle_red then toggle_red w
  else if f =? fn_turn_on then turn_on w
  else if f =? fn_toggle_green then toggle_green w
  else w.

(** The three functions make no call on a timer: for [run()] they are
    [passive], and what they do to the globals follows from the calls that
    [run()] made, in their order. *)
Fixpoint play (tr : list event) (w : world) : world :=
  match tr with
  | [] => w
  | Fired _ f :: rest => play rest (call_function f w)
  | AutoDeleted _ :: rest => play rest w
  end.

Record sketch : Type := mkSketch {
  globals : world;
  timer1 : SimpleTimer;
  timer2 : SimpleTimer;
  timer3 : SimpleTimer
}.

(** The globals before [setup()]: the objects are zero-initialised, then
    constructed, each constructor reading the clock. *)
Definition power_on (b1 b2 b3 : Z) : sketch :=
  mkSketch (mkWorld LOW LOW [])
           (SimpleTimer_new blank b1) (SimpleTimer_new blank b2)
           (SimpleTimer_new blank b3).

(** [setup()]; each registration reads the clock. *)
Definition setup (c1 c2 c3 : Z) (st : sketch) : sketch :=
  let w1 := pinMode led_red OUTPUT (globals st) in
  let w2 := pinMode led_yellow OUTPUT w1 in
  let w3 := pinMode led_green OUTPUT w2 in
  let t1 := fst (setInterval c1 1000 fn_toggle_red (timer1 st)) in
  let t2 := fst (setTimeout c2 5000 fn_turn_on (timer2 st)) in
  let t3 := fst (setTimer c3 1000 fn_toggle_green 5 (timer3 st)) in
  mkSketch w3 t1 t2 t3.

(** One [run()] of a timer of the sketch, at clock reading [now]. *)
Definition run_timer (now : Z) (t : SimpleTimer) (w : world) : option (SimpleTimer * world) :=
  match run passive now t with
  | Some (t', tr) => Some (t', play tr w)
  | None => None
  end.

(** [loop()]; each [run()] reads the clock. *)
Definition loop (c : Z * Z * Z) (st : sketch) : option sketch :=
  let '(c1, c2, c3) := c in
  match run_timer c1 (timer1 st) (globals st) with
  | Some (t1, w1) =>
      match run_timer c2 (timer2 st) w1 with
      | Some (t2, w2) =>
          match run_timer c3 (timer3 st) w2 with
          | Some (t3, w3) => Some (mkSketch w3 t1 t2 t3)
          | None => None
          end
      | None => None
      end
  | None => None
  end.

(** [loop()] called again and again. *)
Fixpoint loops (cs : list (Z * Z * Z)) (st : sketch) : option sketch :=
  match cs with
  | [] => Some st
  | c :: rest =>
      match loop c st with
      | Some st' => loops rest st'
      | None => None
      end
  end.

(** The clock readings of one timer. *)
Definition tick1 (c : Z * Z * Z) : Z := fst (fst c).

Definition tick2 (c : Z * Z * Z) : Z := snd (fst c).

Definition tick3 (c : Z * Z * Z) : Z := snd c.

(** The values written to a pin, in order. *)
Fixpoint written (pin : Z) (log : list pin_event) : list Z :=
  match log with
  | [] => []
  | DigitalWrite p v :: rest =>
      if p =? pin then v :: written pin rest else written pin rest
  | PinMode _ _ :: rest => written pin rest
  end.

(** [n] values, each the negation of the one before, after [v]. *)
Fixpoint blink (n : nat) (v : Z) : list Z :=
  match n with
  | O => []
  | S m => lnot v :: blink m (lnot v)
  end.

(** Number of calls of the function at address [g] recorded in a trace. *)
Fixpoint calls (g : Z) (tr : list event) : nat :=
  match tr with
  | [] => 0%nat
  | Fired _ f :: rest => ((if (f =? g)%Z then 1 else 0) + calls g rest)%nat
  | AutoDeleted _ :: rest => calls g rest
  end.

(** Only slot 0 of the object may be in use. *)
Definition solo (s : SimpleTimer) : Prop :=
  forall j, (0 < j < NSLOTS)%nat -> callbacks s !!! j = NULL.

(** ** Further objects *)

(** The object with the array [toBeCalled] replaced. *)
Definition with_toBeCalled (marks : list Z) (s : SimpleTimer) : SimpleTimer :=
  mkSimpleTimer (prev_millis s) (callbacks s) (delays s) (maxNumRuns s)
                (numRuns s) (enabled s) marks (numTimers s).

(** A timer of period 100 registered at tick 40 to run forever, polled for
    the first time at tick 390. *)
Definition overdue_timer : SimpleTimer := fst (setTimer 40 100 21 0 fresh).

(** * Proofs *)

(** ** Tactics for array stores *)

Ltac setters :=
  cbn [prev_millis callbacks delays maxNumRuns numRuns enabled toBeCalled
       numTimers set_prev_millis set_callbacks set_delays set_maxNumRuns
       set_numRuns set_enabled set_toBeCalled set_numTimers] in *.

Ltac lookups :=
  repeat first
    [ rewrite list_lookup_total_insert_eq by (rewrite ?length_insert; lia)
    | rewrite list_lookup_total_insert_ne by lia ].

Ltac wf_split H :=
  let a := fresh "Lpm" in let b := fresh "Lcb" in let c := fresh "Ldl" in
  let d := fresh "Lmx" in let e := fresh "Lnr" in let f := fresh "Len" in
  let g := fresh "Ltb" in
  destruct H as (a & b & c & d & e & f & g).

Ltac wf_solve :=
  unfold wf in *; setters; rewrite ?length_insert; intuition lia.

(** ** Array stores *)

Lemma NSLOTS_MAX : Z.of_nat NSLOTS = MAX_TIMERS.
Proof. reflexivity. Qed.

Lemma view_eval_slot_same now i s :
  wf s -> (i < NSLOTS)%nat ->
  view (eval_slot now i s) i = step_slot now (view s i).
Proof.
  intros Hwf Hi. wf_split Hwf.
  unfold eval_slot, step_slot, view. setters. cbn [sl_prev sl_cb sl_delay sl_max sl_runs sl_en sl_tbc].
  destruct (callbacks s !!! i =? NULL) eqn:Ecb; cbn [negb]; setters; lookups; [reflexivity|].
  destruct (is_due now (prev_millis s !!! i) (delays s !!! i)) eqn:Edue;
    setters; lookups; [|reflexivity].
  destruct (enabled s !!! i) eqn:Een; setters; lookups; [|congruence].
  destruct (maxNumRuns s !!! i =? RUN_FOREVER) eqn:Emx; setters; lookups; [congruence|].
  destruct (numRuns s !!! i <? maxNumRuns s !!! i) eqn:Elt; setters; lookups; [|congruence].
  destruct (numRuns s !!! i + 1 >=? maxNumRuns s !!! i) eqn:Ege; setters; lookups; congruence.
Qed.

Lemma view_eval_slot_other now i j s :
  i <> j -> view (eval_slot now i s) j = view s j.
Proof.
  intros Hij. unfold eval_slot, view.
  repeat match goal with
         | |- context [if ?b then _ else _] => destruct b
         end; setters; lookups; reflexivity.
Qed.

Lemma wf_eval_slot now i s : wf s -> wf (eval_slot now i s).
Proof.
  intros Hwf. unfold eval_slot.
  repeat match goal with
         | |- context [if ?b then _ else _] => destruct b
         end; wf_solve.
Qed.

(** The first loop writes to [toBeCalled], [prev_millis] and [numRuns] only. *)
Lemma eval_slot_static now i s :
  callbacks (eval_slot now i s) = callbacks s /\
  delays (eval_slot now i s) = delays s /\
  maxNumRuns (eval_slot now i s) = maxNumRuns s /\
  enabled (eval_slot now i s) = enabled s /\
  numTimers (eval_slot now i s) = numTimers s.
Proof.
  unfold eval_slot.
  repeat match goal with
         | |- context [if ?b then _ else _] => destruct b
         end; setters; auto.
Qed.

(** ** Loops over the slots *)

Section ForSlots.

Variable body : nat -> SimpleTimer -> SimpleTimer.
Variable g : nat -> slot -> slot.
Hypothesis body_wf : forall i s, wf s -> wf (body i s).
Hypothesis body_same :
  forall i s, wf s -> (i < NSLOTS)%nat -> view (body i s) i = g i (view s i).
Hypothesis body_other :
  forall i j s, i <> j -> view (body i s) j = view s j.

Lemma fold_slots_view n : forall a s,
  wf s -> (a + n <= NSLOTS)%nat ->
  let s' := fold_left (fun acc i => body i acc) (seq a n) s in
  wf s' /\
  (forall j, (a <= j < a + n)%nat -> view s' j = g j (view s j)) /\
  (forall j, (j < a \/ a + n <= j)%nat -> view s' j = view s j).
Proof.
  induction n as [|n IH]; intros a s Hwf Hle; cbn [seq fold_left].
  - split; [exact Hwf|]. split; [intros j Hj; lia | reflexivity].
  - destruct (IH (S a) (body a s)) as (Hwf' & Hin & Hout);
      [apply body_wf; exact Hwf | lia |].
    split; [exact Hwf'|]. split.
    + intros j Hj. destruct (Nat.eq_dec j a) as [->|Hne].
      * rewrite Hout by lia. apply body_same; [exact Hwf | lia].
      * rewrite Hin by lia. rewrite body_other by lia. reflexivity.
    + intros j Hj. rewrite Hout by lia. apply body_other. lia.
Qed.

Lemma for_slots_wf s : wf s -> wf (for_slots body s).
Proof.
  intros Hwf. unfold for_slots.
  apply (fold_slots_view NSLOTS 0 s Hwf). lia.
Qed.

Lemma for_slots_view s j :
  wf s -> (j < NSLOTS)%nat -> view (for_slots body s) j = g j (view s j).
Proof.
  intros Hwf Hj. unfold for_slots.
  apply (fold_slots_view NSLOTS 0 s Hwf); lia.
Qed.

End ForSlots.

(** A member the body of a loop leaves alone is left alone by the loop. *)
Lemma for_slots_static {A : Type} (F : SimpleTimer -> A) body :
  (forall i s, F (body i s) = F s) ->
  forall s, F (for_slots body s) = F s.
Proof.
  intros Hb s. unfold for_slots. generalize (seq 0 NSLOTS) as l. intros l.
  revert s. induction l as [|i l IH]; intros s; cbn [fold_left]; [reflexivity|].
  rewrite IH. apply Hb.
Qed.

(** ** The first loop of [run()] *)

Lemma wf_evaluate now s : wf s -> wf (evaluate now s).
Proof.
  intros Hwf. unfold evaluate.
  apply for_slots_wf with (g := fun _ => step_slot now); auto.
  - intros. apply wf_eval_slot; assumption.
  - intros. apply view_eval_slot_same; assumption.
  - intros. apply view_eval_slot_other; assumption.
Qed.

Lemma view_evaluate now s j :
  wf s -> (j < NSLOTS)%nat -> view (evaluate now s) j = step_slot now (view s j).
Proof.
  intros Hwf Hj. unfold evaluate.
  apply for_slots_view with (g := fun _ => step_slot now); auto.
  - intros. apply wf_eval_slot; assumption.
  - intros. apply view_eval_slot_same; assumption.
  - intros. apply view_eval_slot_other; assumption.
Qed.

Lemma callbacks_evaluate now s : callbacks (evaluate now s) = callbacks s.
Proof. apply for_slots_static. intros. apply eval_slot_static. Qed.

Lemma delays_evaluate now s : delays (evaluate now s) = delays s.
Proof. apply for_slots_static. intros. apply eval_slot_static. Qed.

Lemma maxNumRuns_evaluate now s : maxNumRuns (evaluate now s) = maxNumRuns s.
Proof. apply for_slots_static. intros. apply eval_slot_static. Qed.

Lemma enabled_evaluate now s : enabled (evaluate now s) = enabled s.
Proof. apply for_slots_static. intros. apply eval_slot_static. Qed.

Lemma numTimers_evaluate now s : numTimers (evaluate now s) = numTimers s.
Proof. apply for_slots_static. intros. apply eval_slot_static. Qed.

(** Projections of [view], for rewriting. *)
Lemma view_prev s i : sl_prev (view s i) = prev_millis s !!! i.
Proof. reflexivity. Qed.
Lemma view_cb s i : sl_cb (view s i) = callbacks s !!! i.
Proof. reflexivity. Qed.
Lemma view_delay s i : sl_delay (view s i) = delays s !!! i.
Proof. reflexivity. Qed.
Lemma view_max s i : sl_max (view s i) = maxNumRuns s !!! i.
Proof. reflexivity. Qed.
Lemma view_runs s i : sl_runs (view s i) = numRuns s !!! i.
Proof. reflexivity. Qed.
Lemma view_en s i : sl_en (view s i) = enabled s !!! i.
Proof. reflexivity. Qed.
Lemma view_tbc s i : sl_tbc (view s i) = toBeCalled s !!! i.
Proof. reflexivity. Qed.

(** ** Counting the slots in use *)

Lemma in_use_count_insert (l : list Z) (i : nat) (v : Z) :
  (i < length l)%nat ->
  Z.of_nat (in_use_count (<[i:=v]> l)) =
  Z.of_nat (in_use_count l) - (if l !!! i =? NULL then 0 else 1)
                            + (if v =? NULL then 0 else 1).
Proof.
  revert i. induction l as [|a l IH]; intros i Hi; cbn [length] in Hi; [lia|].
  destruct i as [|i].
  - cbn. destruct (a =? NULL), (v =? NULL); lia.
  - change (<[S i:=v]> (a :: l)) with (a :: <[i:=v]> l).
    change ((a :: l) !!! S i) with (l !!! i).
    cbn [in_use_count]. rewrite !Nat2Z.inj_add, IH by lia. lia.
Qed.

Lemma in_use_count_le (l : list Z) : (in_use_count l <= length l)%nat.
Proof.
  induction l as [|a l IH]; cbn [in_use_count length]; [lia|].
  destruct (a =? NULL); lia.
Qed.

Lemma in_use_count_full (l : list Z) :
  in_use_count l = length l ->
  forall i, (i < length l)%nat -> l !!! i <> NULL.
Proof.
  induction l as [|a l IH]; cbn [in_use_count length]; intros Hc i Hi; [lia|].
  pose proof (in_use_count_le l) as Hle.
  destruct (a =? NULL) eqn:Ea; [lia|].
  destruct i as [|i].
  - cbn. apply Z.eqb_neq. exact Ea.
  - change ((a :: l) !!! S i) with (l !!! i). apply IH; lia.
Qed.

Lemma in_use_count_all (l : list Z) :
  (forall i, (i < length l)%nat -> l !!! i <> NULL) ->
  in_use_count l = length l.
Proof.
  induction l as [|a l IH]; cbn [in_use_count length]; intros H; [reflexivity|].
  assert (Ha : a <> NULL) by (apply (H 0%nat); lia).
  apply Z.eqb_neq in Ha. rewrite Ha, IH; [reflexivity|].
  intros i Hi. apply (H (S i)). lia.
Qed.

Lemma in_use_count_none (l : list Z) :
  (forall i, (i < length l)%nat -> l !!! i = NULL) ->
  in_use_count l = 0%nat.
Proof.
  induction l as [|a l IH]; cbn [in_use_count length]; intros H; [reflexivity|].
  assert (Ha : a = NULL) by (apply (H 0%nat); lia).
  rewrite Ha, IH; [reflexivity|].
  intros i Hi. apply (H (S i)). lia.
Qed.

Lemma in_use_count_pos (l : list Z) (i : nat) :
  (i < length l)%nat -> l !!! i <> NULL -> (0 < in_use_count l)%nat.
Proof.
  revert i. induction l as [|a l IH]; intros i Hi Hne; cbn [length] in Hi; [lia|].
  cbn [in_use_count]. destruct i as [|i].
  - cbn in Hne. apply Z.eqb_neq in Hne. rewrite Hne. lia.
  - change ((a :: l) !!! S i) with (l !!! i) in Hne.
    specialize (IH i ltac:(lia) Hne). lia.
Qed.

(** ** findFirstFreeSlot *)

Lemma scan_free_spec (cbs : list Z) n : forall a,
  (scan_free cbs (seq a n) = -1 /\
   forall j, (a <= j < a + n)%nat -> cbs !!! j <> NULL) \/
  (exists i, scan_free cbs (seq a n) = Z.of_nat i /\ (a <= i < a + n)%nat /\
             cbs !!! i = NULL /\
             forall j, (a <= j < i)%nat -> cbs !!! j <> NULL).
Proof.
  induction n as [|n IH]; intros a; cbn [seq scan_free].
  - left. split; [reflexivity|]. intros j Hj. lia.
  - destruct (cbs !!! a =? 0) eqn:Ea.
    + right. exists a. apply Z.eqb_eq in Ea.
      split; [reflexivity|]. split; [lia|]. split; [exact Ea|]. intros j Hj. lia.
    + apply Z.eqb_neq in Ea.
      destruct (IH (S a)) as [[Hr Hall]|(i & Hr & Hi & Hz & Hlow)].
      * left. split; [exact Hr|]. intros j Hj.
        destruct (Nat.eq_dec j a) as [->|Hne]; [exact Ea | apply Hall; lia].
      * right. exists i.
        split; [exact Hr|]. split; [lia|]. split; [exact Hz|]. intros j Hj.
        destruct (Nat.eq_dec j a) as [->|Hne]; [exact Ea | apply Hlow; lia].
Qed.

(** The two outcomes of [findFirstFreeSlot]. *)
Lemma findFirstFreeSlot_spec s :
  (findFirstFreeSlot s = -1 /\
   (MAX_TIMERS <= numTimers s \/
    forall j, (j < NSLOTS)%nat -> callbacks s !!! j <> NULL)) \/
  (exists i, findFirstFreeSlot s = Z.of_nat i /\ (i < NSLOTS)%nat /\
             numTimers s < MAX_TIMERS /\
             callbacks s !!! i = NULL /\
             forall j, (j < i)%nat -> callbacks s !!! j <> NULL).
Proof.
  unfold findFirstFreeSlot.
  destruct (numTimers s >=? MAX_TIMERS) eqn:Hn.
  - left. split; [reflexivity|]. left. lia.
  - destruct (scan_free_spec (callbacks s) NSLOTS 0%nat)
      as [[Hr Hall]|(i & Hr & Hi & Hz & Hlow)].
    + left. split; [exact Hr|]. right. intros j Hj. apply Hall. lia.
    + right. exists i.
      split; [exact Hr|]. split; [lia|]. split; [lia|]. split; [exact Hz|].
      intros j Hj. apply Hlow. lia.
Qed.

(** The two outcomes of [setTimer]. *)
Lemma setTimer_spec t d f n s :
  setTimer t d f n s = (s, -1) \/
  (exists i, (i < NSLOTS)%nat /\ numTimers s < MAX_TIMERS /\ f <> NULL /\
             callbacks s !!! i = NULL /\
             (forall j, (j < i)%nat -> callbacks s !!! j <> NULL) /\
             setTimer t d f n s =
             (set_numTimers (numTimers s + 1)
                (set_prev_millis i t
                  (set_enabled i true
                    (set_maxNumRuns i n
                      (set_callbacks i f
                        (set_delays i d s))))),
              Z.of_nat i)).
Proof.
  unfold setTimer.
  destruct (findFirstFreeSlot_spec s) as [[Hr _]|(i & Hr & Hi & Hn & Hz & Hlow)];
    rewrite Hr.
  - left. reflexivity.
  - destruct (Z.of_nat i <? 0) eqn:Hneg; [lia|].
    destruct (f =? NULL) eqn:Hf; [left; reflexivity|].
    right. exists i. rewrite Nat2Z.id. apply Z.eqb_neq in Hf.
    split; [exact Hi|]. split; [exact Hn|]. split; [exact Hf|].
    split; [exact Hz|]. split; [exact Hlow|]. reflexivity.
Qed.

Lemma effect_mono (reg reg' : Prop) (D D' W W' : nat -> Prop) s s' :
  (reg -> reg') -> (forall i, D i -> D' i) -> (forall i, W i -> W' i) ->
  effect reg D W s s' -> effect reg' D' W' s s'.
Proof.
  intros Hr HD HW H. destruct H.
  - apply eff_none.
  - apply eff_register; auto.
  - apply eff_clear; auto.
  - apply eff_restart; auto.
  - apply eff_enable; auto.
Qed.

Lemma setTimer_effect t d f n s s' r :
  setTimer t d f n s = (s', r) ->
  effect True (fun _ => False) (fun _ => False) s s'.
Proof.
  intros H.
  destruct (setTimer_spec t d f n s) as [E|(i & Hi & Hn & Hf & Hz & _ & E)];
    rewrite E in H; inversion H; subst.
  - apply eff_none.
  - apply eff_register; auto.
Qed.

Lemma deleteTimer_effect j s s' :
  deleteTimer j s = Some s' ->
  effect False (fun i => j = Z.of_nat i) (fun _ => False) s s'.
Proof.
  unfold deleteTimer. intros H.
  destruct (j >=? MAX_TIMERS) eqn:E1; [inversion H; apply eff_none|].
  destruct (numTimers s =? 0) eqn:E2; [inversion H; apply eff_none|].
  destruct (j <? 0) eqn:E3; [discriminate|].
  destruct (callbacks s !!! Z.to_nat j =? NULL) eqn:E4; cbn [negb] in H;
    inversion H; subst; [apply eff_none|].
  apply (eff_clear False (fun i => j = Z.of_nat i) (fun _ => False) s (Z.to_nat j)).
  - lia.
  - unfold NSLOTS. lia.
  - apply Z.eqb_neq. exact E4.
  - lia.
Qed.

(** The stores of a call, with the slots it can reach. *)
Lemma exec_call_effect c s s' r :
  exec_call c s = Some (s', r) ->
  effect (~ call_no_register c)
         (fun i => ~ call_spares i c)
         (fun i => ~ call_avoids i c) s s'.
Proof.
  destruct c; cbn [exec_call void call_no_register call_spares call_avoids]; intros H.
  - inversion H as [E]. eapply effect_mono; [| | |eapply setTimer_effect; exact E];
      tauto.
  - inversion H as [E]. eapply effect_mono; [| | |eapply setTimer_effect; exact E];
      tauto.
  - inversion H as [E]. eapply effect_mono; [| | |eapply setTimer_effect; exact E];
      tauto.
  - destruct (deleteTimer timerId s) as [s1|] eqn:E; [|discriminate].
    inversion H; subst.
    eapply effect_mono; [| | |eapply deleteTimer_effect; exact E]; cbn; tauto.
  - unfold restartTimer in H.
    destruct (numTimer >=? MAX_TIMERS) eqn:E1; [inversion H; apply eff_none|].
    destruct (numTimer <? 0) eqn:E2; [discriminate|]. inversion H; subst.
    apply eff_restart; [lia | unfold NSLOTS; lia].
  - destruct (isEnabled numTimer s); [|discriminate]. inversion H; apply eff_none.
  - unfold enable in H.
    destruct (numTimer >=? MAX_TIMERS) eqn:E1; [inversion H; apply eff_none|].
    destruct (numTimer <? 0) eqn:E2; [discriminate|]. inversion H; subst.
    apply eff_enable; [lia | unfold NSLOTS; lia].
  - unfold disable in H.
    destruct (numTimer >=? MAX_TIMERS) eqn:E1; [inversion H; apply eff_none|].
    destruct (numTimer <? 0) eqn:E2; [discriminate|]. inversion H; subst.
    apply eff_enable; [lia | unfold NSLOTS; lia].
  - unfold toggle in H.
    destruct (numTimer >=? MAX_TIMERS) eqn:E1; [inversion H; apply eff_none|].
    destruct (numTimer <? 0) eqn:E2; [discriminate|]. inversion H; subst.
    apply eff_enable; [lia | unfold NSLOTS; lia].
  - inversion H; apply eff_none.
  - inversion H; apply eff_none.
Qed.

(** A call whose index is not negative has defined behaviour. *)
Lemma exec_call_defined c s :
  call_in_bounds c -> exists s' r, exec_call c s = Some (s', r).
Proof.
  destruct c; cbn [exec_call call_in_bounds void]; intros H; eauto.
  - destruct (setTimer current_millis d f n s); eauto.
  - destruct (setInterval current_millis d f s); eauto.
  - destruct (setTimeout current_millis d f s); eauto.
  - unfold deleteTimer.
    destruct (timerId >=? MAX_TIMERS); eauto.
    destruct (numTimers s =? 0); eauto.
    destruct (timerId <? 0) eqn:E; [lia|].
    destruct (negb _); eauto.
  - unfold restartTimer. destruct (numTimer >=? MAX_TIMERS); eauto.
    destruct (numTimer <? 0) eqn:E; [lia|]. eauto.
  - unfold isEnabled. destruct (numTimer >=? MAX_TIMERS); eauto.
    destruct (numTimer <? 0) eqn:E; [lia|]. eauto.
  - unfold enable. destruct (numTimer >=? MAX_TIMERS); eauto.
    destruct (numTimer <? 0) eqn:E; [lia|]. eauto.
  - unfold disable. destruct (numTimer >=? MAX_TIMERS); eauto.
    destruct (numTimer <? 0) eqn:E; [lia|]. eauto.
  - unfold toggle. destruct (numTimer >=? MAX_TIMERS); eauto.
    destruct (numTimer <? 0) eqn:E; [lia|]. eauto.
Qed.

(** ** Predicates kept by every store *)

Lemma wf_effect reg D W s s' : effect reg D W s s' -> wf s -> wf s'.
Proof. intros H Hwf. destruct H; unfold registered, cleared; wf_solve. Qed.

Lemma counted_effect reg D W s s' :
  effect reg D W s s' -> wf s -> counted s -> counted s'.
Proof.
  intros H Hwf [Hc Hle]. wf_split Hwf. unfold counted.
  destruct H as [|i t d f n _ Hi Hz Hf Hn|i _ Hi Hnz Hn0| |];
    unfold registered, cleared; setters; auto.
  - rewrite in_use_count_insert by lia. rewrite Hz.
    apply Z.eqb_neq in Hf. rewrite Hf. cbn. lia.
  - rewrite in_use_count_insert by lia. apply Z.eqb_neq in Hnz. rewrite Hnz.
    cbn. lia.
Qed.

Lemma Inv_effect reg D W s s' : effect reg D W s s' -> Inv s -> Inv s'.
Proof.
  intros H [Hwf Hc]. split; [eapply wf_effect | eapply counted_effect]; eauto.
Qed.

Lemma free_clean_effect reg D W s s' :
  effect reg D W s s' -> wf s -> free_clean s -> free_clean s'.
Proof.
  intros H Hwf Hfc. wf_split Hwf. unfold free_clean in *.
  destruct H as [|i t d f n _ Hi Hz Hf Hn|i _ Hi Hnz Hn0| |];
    unfold registered, cleared; setters; auto; intros j Hj.
  - destruct (Nat.eq_dec i j) as [->|Hne]; lookups; auto.
  - destruct (Nat.eq_dec i j) as [->|Hne]; lookups; auto.
Qed.

Lemma armed_ok_effect reg D W s s' :
  effect reg D W s s' -> wf s -> armed_ok s -> armed_ok s'.
Proof.
  intros H Hwf Ha. wf_split Hwf. unfold armed_ok in *.
  destruct H as [|i t d f n _ Hi Hz Hf Hn|i _ Hi Hnz Hn0| |];
    unfold registered, cleared; setters; auto; intros j Hj.
  - destruct (Nat.eq_dec i j) as [->|Hne]; lookups; auto.
  - destruct (Nat.eq_dec i j) as [->|Hne]; lookups; auto.
Qed.

(** A slot no store is addressed to keeps all its members.  A registration
    cannot pick a slot that is in use. *)
Lemma view_effect (reg : Prop) (D W : nat -> Prop) s s' i :
  effect reg D W s s' ->
  (forall j, D j -> j <> i) -> (forall j, W j -> j <> i) ->
  (reg -> callbacks s !!! i <> NULL) ->
  view s' i = view s i.
Proof.
  intros H HD HW Hreg. unfold view.
  destruct H as [|j t d f n Hr Hj Hz Hf Hn|j Hd Hj Hnz Hn0|j t Hw Hj|j b Hw Hj];
    unfold registered, cleared; setters; auto.
  - assert (j <> i) by (intros ->; apply (Hreg Hr); exact Hz).
    lookups. reflexivity.
  - specialize (HD j Hd). lookups. reflexivity.
  - specialize (HW j Hw). lookups. reflexivity.
  - specialize (HW j Hw). lookups. reflexivity.
Qed.

(** ** Traces *)

Lemma fires_app i tr1 tr2 : fires i (tr1 ++ tr2) = (fires i tr1 + fires i tr2)%nat.
Proof.
  induction tr1 as [|[j f|j] tr1 IH]; cbn [fires app]; [reflexivity| |exact IH].
  rewrite IH. lia.
Qed.

Lemma deletions_app i tr1 tr2 :
  deletions i (tr1 ++ tr2) = (deletions i tr1 + deletions i tr2)%nat.
Proof.
  induction tr1 as [|[j f|j] tr1 IH]; cbn [deletions app]; [reflexivity|exact IH|].
  rewrite IH. lia.
Qed.

Lemma seq_split_at (i : nat) :
  (i < NSLOTS)%nat ->
  seq 0 NSLOTS = seq 0 i ++ i :: seq (S i) (NSLOTS - S i).
Proof.
  intros Hi. replace NSLOTS with (i + S (NSLOTS - S i))%nat at 1 by lia.
  rewrite seq_app. reflexivity.
Qed.

(** ** The second loop of [run()] *)

Section Act.

Variable env : Z -> callback_body.

Lemma act_app idx1 : forall idx2 s,
  act env (idx1 ++ idx2) s =
  match act env idx1 s with
  | Some (s1, tr1) =>
      match act env idx2 s1 with
      | Some (s2, tr2) => Some (s2, tr1 ++ tr2)
      | None => None
      end
  | None => None
  end.
Proof.
  induction idx1 as [|i idx1 IH]; intros idx2 s; cbn [act app].
  - destruct (act env idx2 s) as [[s2 tr2]|]; reflexivity.
  - destruct (act_slot env i s) as [[s1 ev]|]; [|reflexivity].
    rewrite IH. destruct (act env idx1 s1) as [[s2 tr1]|]; [|reflexivity].
    destruct (act env idx2 s2) as [[s3 tr2]|]; [|reflexivity].
    rewrite app_assoc. reflexivity.
Qed.

(** The three shapes of one iteration. *)
Lemma act_slot_cases i s s' ev :
  act_slot env i s = Some (s', ev) ->
  (ev = [] /\ s' = s /\
   toBeCalled s !!! i <> DEFCALL_RUNONLY /\
   toBeCalled s !!! i <> DEFCALL_RUNANDDEL) \/
  (ev = [Fired i (callbacks s !!! i)] /\
   toBeCalled s !!! i = DEFCALL_RUNONLY /\
   call_callback env i s = Some s') \/
  (ev = [Fired i (callbacks s !!! i); AutoDeleted i] /\
   toBeCalled s !!! i = DEFCALL_RUNANDDEL /\
   exists s1, call_callback env i s = Some s1 /\
              deleteTimer (Z.of_nat i) s1 = Some s').
Proof.
  unfold act_slot. unfold DEFCALL_DONTRUN, DEFCALL_RUNONLY, DEFCALL_RUNANDDEL.
  intros H.
  destruct (toBeCalled s !!! i =? 0) eqn:E0.
  { inversion H; subst. left. apply Z.eqb_eq in E0. rewrite E0.
    split; [reflexivity|]. split; [reflexivity|]. split; discriminate. }
  destruct (toBeCalled s !!! i =? 1) eqn:E1.
  { destruct (call_callback env i s) as [s1|] eqn:Ec; [|discriminate].
    inversion H; subst. right. left. apply Z.eqb_eq in E1. auto. }
  destruct (toBeCalled s !!! i =? 2) eqn:E2.
  { destruct (call_callback env i s) as [s1|] eqn:Ec; [|discriminate].
    destruct (deleteTimer (Z.of_nat i) s1) as [s2|] eqn:Ed; [|discriminate].
    inversion H; subst. right. right. apply Z.eqb_eq in E2.
    split; [reflexivity|]. split; [exact E2|]. exists s1. auto. }
  inversion H; subst. left. apply Z.eqb_neq in E1, E2. auto.
Qed.

Lemma act_slot_idle i s :
  toBeCalled s !!! i = DEFCALL_DONTRUN -> act_slot env i s = Some (s, []).
Proof. intros H. unfold act_slot. rewrite H. reflexivity. Qed.

(** A slot that is not visited is neither called nor deleted by the loop. *)
Lemma act_trace_outside i idx : forall s s' tr,
  act env idx s = Some (s', tr) -> ~ In i idx ->
  fires i tr = 0%nat /\ deletions i tr = 0%nat.
Proof.
  induction idx as [|j idx IH]; intros s s' tr H Hni; cbn [act] in H.
  - inversion H; subst. split; reflexivity.
  - destruct (act_slot env j s) as [[s1 ev]|] eqn:Es; [|discriminate].
    destruct (act env idx s1) as [[s2 tr2]|] eqn:Ea; [|discriminate].
    inversion H; subst.
    destruct (IH _ _ _ Ea) as [Hf Hd]; [intros Hin; apply Hni; right; exact Hin|].
    assert (Hji : Nat.eqb j i = false)
      by (apply Nat.eqb_neq; intros ->; apply Hni; left; reflexivity).
    rewrite fires_app, deletions_app, Hf, Hd.
    destruct (act_slot_cases _ _ _ _ Es)
      as [(-> & _)|[(-> & _)|(-> & _)]]; cbn [fires deletions]; rewrite ?Hji;
      split; reflexivity.
Qed.

Variable P : api_call -> Prop.
Variable Q : SimpleTimer -> Prop.
Variable R : nat -> Prop.

Hypothesis env_P : forall f, body_all P (env f).
Hypothesis call_Q :
  forall c s s' r, P c -> Q s -> exec_call c s = Some (s', r) -> Q s'.
Hypothesis del_Q :
  forall j s0 s s', R j -> Q s0 -> toBeCalled s0 !!! j = DEFCALL_RUNANDDEL ->
    Q s -> deleteTimer (Z.of_nat j) s = Some s' -> Q s'.

Lemma exec_body_keeps b : body_all P b ->
  forall s s', Q s -> exec_body b s = Some s' -> Q s'.
Proof.
  induction b as [|c k IH]; cbn [body_all exec_body]; intros Hb s s' HQ H.
  - inversion H; subst. exact HQ.
  - destruct Hb as [Hc Hk].
    destruct (exec_call c s) as [[s1 r]|] eqn:E; [|discriminate].
    eapply IH; [apply Hk | | exact H]. eapply call_Q; eauto.
Qed.

Lemma call_callback_keeps i s s' :
  Q s -> call_callback env i s = Some s' -> Q s'.
Proof.
  unfold call_callback. intros HQ H.
  destruct (callbacks s !!! i =? NULL); [discriminate|].
  eapply exec_body_keeps; [apply env_P | exact HQ | exact H].
Qed.

Lemma act_slot_keeps i s s' ev :
  R i -> Q s -> act_slot env i s = Some (s', ev) -> Q s'.
Proof.
  intros HR HQ H.
  destruct (act_slot_cases _ _ _ _ H)
    as [(_ & -> & _)|[(_ & _ & Hc)|(_ & Ht & s1 & Hc & Hd)]].
  - exact HQ.
  - eapply call_callback_keeps; eauto.
  - eapply del_Q; [exact HR | exact HQ | exact Ht | | exact Hd].
    eapply call_callback_keeps; eauto.
Qed.

Lemma act_keeps idx : forall s s' tr,
  Forall R idx -> Q s -> act env idx s = Some (s', tr) -> Q s'.
Proof.
  induction idx as [|i idx IH]; intros s s' tr HR HQ H; cbn [act] in H.
  - inversion H; subst. exact HQ.
  - destruct (act_slot env i s) as [[s1 ev]|] eqn:Es; [|discriminate].
    destruct (act env idx s1) as [[s2 tr2]|] eqn:Ea; [|discriminate].
    inversion H; subst. inversion HR; subst.
    eapply IH; [eassumption | | exact Ea].
    eapply act_slot_keeps; eauto.
Qed.

(** *** Defined behaviour *)

Hypothesis P_bounds : forall c, P c -> call_in_bounds c.
Hypothesis Q_armed : forall s, Q s -> armed_ok s.
Hypothesis R_bound : forall j, R j -> (j < NSLOTS)%nat.

Lemma exec_body_defined b : body_all P b ->
  forall s, exists s', exec_body b s = Some s'.
Proof.
  induction b as [|c k IH]; cbn [body_all exec_body]; intros Hb s.
  - eauto.
  - destruct Hb as [Hc Hk].
    destruct (exec_call_defined c s (P_bounds c Hc)) as (s1 & r & E).
    rewrite E. apply IH. apply Hk.
Qed.

Lemma call_callback_defined i s :
  callbacks s !!! i <> NULL -> exists s', call_callback env i s = Some s'.
Proof.
  intros Hne. unfold call_callback. apply Z.eqb_neq in Hne. rewrite Hne.
  apply exec_body_defined. apply env_P.
Qed.

Lemma act_slot_defined i s :
  R i -> Q s -> exists s' ev, act_slot env i s = Some (s', ev).
Proof.
  intros HR HQ. unfold act_slot.
  destruct (toBeCalled s !!! i =? DEFCALL_DONTRUN) eqn:E0; [eauto|].
  assert (Hcb : callbacks s !!! i <> NULL).
  { apply (Q_armed s HQ i (R_bound i HR)). apply Z.eqb_neq. exact E0. }
  destruct (call_callback_defined i s Hcb) as (s1 & Ec). rewrite Ec.
  destruct (toBeCalled s !!! i =? DEFCALL_RUNONLY); [eauto|].
  destruct (toBeCalled s !!! i =? DEFCALL_RUNANDDEL); [|eauto].
  destruct (exec_call_defined (CallDeleteTimer (Z.of_nat i)) s1) as (s2 & r & Ed);
    [cbn; lia|].
  cbn [exec_call void] in Ed.
  destruct (deleteTimer (Z.of_nat i) s1) as [s3|]; [eauto|discriminate].
Qed.

Lemma act_defined idx : forall s,
  Forall R idx -> Q s ->
  exists s' tr, act env idx s = Some (s', tr) /\ Q s'.
Proof.
  induction idx as [|i idx IH]; intros s HR HQ; cbn [act].
  - eauto.
  - inversion HR; subst.
    destruct (act_slot_defined i s) as (s1 & ev & Es); auto. rewrite Es.
    destruct (IH s1) as (s2 & tr & Ea & HQ2); auto.
    { eapply act_slot_keeps; eauto. }
    rewrite Ea. eauto.
Qed.

End Act.

(** ** Invariants across the interface *)

Lemma body_all_True b : body_all (fun _ => True) b.
Proof. induction b as [|c k IH]; cbn [body_all]; auto. Qed.

Lemma body_all_impl (P P' : api_call -> Prop) b :
  (forall c, P c -> P' c) -> body_all P b -> body_all P' b.
Proof.
  intros HP. induction b as [|c k IH]; cbn [body_all]; [auto|].
  intros [Hc Hk]. split; [auto|]. intros r. apply IH, Hk.
Qed.

Lemma step_slot_armed now v :
  sl_tbc (step_slot now v) <> DEFCALL_DONTRUN -> sl_cb v <> NULL.
Proof.
  unfold step_slot. destruct (sl_cb v =? NULL) eqn:E.
  - cbn. congruence.
  - intros _. apply Z.eqb_neq. exact E.
Qed.

Lemma step_slot_free now v :
  sl_cb v = NULL ->
  step_slot now v =
  mkSlot (sl_prev v) (sl_cb v) (sl_delay v) (sl_max v) (sl_runs v) (sl_en v)
         DEFCALL_DONTRUN.
Proof. intros H. unfold step_slot. rewrite H. reflexivity. Qed.

Lemma counted_evaluate now s : counted s -> counted (evaluate now s).
Proof.
  unfold counted. rewrite callbacks_evaluate, numTimers_evaluate. auto.
Qed.

Lemma Inv_evaluate now s : Inv s -> Inv (evaluate now s).
Proof.
  intros [Hwf Hc]. split; [apply wf_evaluate | apply counted_evaluate]; auto.
Qed.

Lemma armed_ok_evaluate now s : wf s -> armed_ok (evaluate now s).
Proof.
  intros Hwf i Hi Ht. rewrite callbacks_evaluate.
  rewrite <- view_tbc, view_evaluate in Ht by assumption.
  apply step_slot_armed in Ht. exact Ht.
Qed.

Lemma free_clean_evaluate now s : wf s -> free_clean s -> free_clean (evaluate now s).
Proof.
  intros Hwf Hfc i Hi Hz. rewrite callbacks_evaluate in Hz.
  rewrite <- view_runs, view_evaluate by assumption.
  rewrite step_slot_free by exact Hz. cbn. apply Hfc; assumption.
Qed.

Lemma Inv_call c s s' r : Inv s -> exec_call c s = Some (s', r) -> Inv s'.
Proof. intros HI H. eapply Inv_effect; [eapply exec_call_effect; exact H | exact HI]. Qed.

Lemma Inv_delete j s s' : Inv s -> deleteTimer j s = Some s' -> Inv s'.
Proof. intros HI H. eapply Inv_effect; [eapply deleteTimer_effect; exact H | exact HI]. Qed.

Lemma Inv_act env idx s s' tr : Inv s -> act env idx s = Some (s', tr) -> Inv s'.
Proof.
  intros HI H.
  eapply (act_keeps env (fun _ => True) Inv (fun _ => True)); [| | | |exact HI|exact H].
  - intros f. apply body_all_True.
  - intros c s0 s1 r _ H0 E. eapply Inv_call; eauto.
  - intros j s0 s1 s2 _ _ _ H1 E. eapply Inv_delete; eauto.
  - apply Forall_forall. auto.
Qed.

(** [run] is unfolded by rewriting with the following equations, so that no
    proof compares it with its body by computing the loops. *)
Lemma run_unfold env :
  run env = fun now s => act env (seq 0 NSLOTS) (evaluate now s).
Proof. reflexivity. Qed.

Lemma run_eq env now s :
  run env now s = act env (seq 0 NSLOTS) (evaluate now s).
Proof. rewrite run_unfold. reflexivity. Qed.

Lemma Inv_run env now s s' tr : Inv s -> run env now s = Some (s', tr) -> Inv s'.
Proof.
  intros HI H. rewrite run_eq in H.
  eapply Inv_act; [|exact H]. apply Inv_evaluate. exact HI.
Qed.

Lemma Clean_effect reg D W s s' : effect reg D W s s' -> Clean s -> Clean s'.
Proof.
  intros H [Hwf Hc]. split; [eapply wf_effect | eapply free_clean_effect]; eauto.
Qed.

Lemma Clean_run env now s s' tr : Clean s -> run env now s = Some (s', tr) -> Clean s'.
Proof.
  intros [Hwf Hc] H. rewrite run_eq in H.
  eapply (act_keeps env (fun _ => True) Clean (fun _ => True)); [| | | | |exact H].
  - intros f. apply body_all_True.
  - intros c s0 s1 r _ H0 E. eapply Clean_effect; [eapply exec_call_effect; exact E|exact H0].
  - intros j s0 s1 s2 _ _ _ H1 E.
    eapply Clean_effect; [eapply deleteTimer_effect; exact E|exact H1].
  - apply Forall_forall. auto.
  - split; [apply wf_evaluate | apply free_clean_evaluate]; auto.
Qed.

(** ** The constructor *)

Lemma view_init_slot_same t i s :
  wf s -> (i < NSLOTS)%nat ->
  view (init_slot t i s) i =
  (fun v => mkSlot t 0 (sl_delay v) (sl_max v) 0 false (sl_tbc v)) (view s i).
Proof.
  intros Hwf Hi. wf_split Hwf. unfold init_slot, view. setters. lookups. reflexivity.
Qed.

Lemma view_init_slot_other t i j s :
  i <> j -> view (init_slot t i s) j = view s j.
Proof. intros Hij. unfold init_slot, view. setters. lookups. reflexivity. Qed.

Lemma wf_init_slot t i s : wf s -> wf (init_slot t i s).
Proof. intros Hwf. unfold init_slot. wf_solve. Qed.

Lemma view_set_numTimers v s j : view (set_numTimers v s) j = view s j.
Proof. reflexivity. Qed.

Lemma new_unfold :
  SimpleTimer_new = fun mem t => set_numTimers 0 (for_slots (init_slot t) mem).
Proof. reflexivity. Qed.

Lemma numTimers_new mem t : numTimers (SimpleTimer_new mem t) = 0.
Proof. rewrite new_unfold. reflexivity. Qed.

Lemma view_new mem t j :
  wf mem -> (j < NSLOTS)%nat ->
  view (SimpleTimer_new mem t) j =
  mkSlot t 0 (delays mem !!! j) (maxNumRuns mem !!! j) 0 false (toBeCalled mem !!! j).
Proof.
  intros Hwf Hj. rewrite new_unfold, view_set_numTimers.
  rewrite for_slots_view
    with (g := fun _ v => mkSlot t 0 (sl_delay v) (sl_max v) 0 false (sl_tbc v));
    auto.
  - intros. apply wf_init_slot; assumption.
  - intros. apply view_init_slot_same; assumption.
  - intros. apply view_init_slot_other; assumption.
Qed.

Lemma wf_new mem t : wf mem -> wf (SimpleTimer_new mem t).
Proof.
  intros Hwf. rewrite new_unfold.
  assert (H : wf (for_slots (init_slot t) mem)).
  { apply for_slots_wf
      with (g := fun _ v => mkSlot t 0 (sl_delay v) (sl_max v) 0 false (sl_tbc v));
      auto.
    - intros. apply wf_init_slot; assumption.
    - intros. apply view_init_slot_same; assumption.
    - intros. apply view_init_slot_other; assumption. }
  revert H. generalize (for_slots (init_slot t) mem). intros s H. wf_solve.
Qed.

Lemma Inv_new mem t : wf mem -> Inv (SimpleTimer_new mem t).
Proof.
  intros Hwf. pose proof (wf_new mem t Hwf) as Hwf'.
  split; [exact Hwf'|]. unfold counted.
  rewrite numTimers_new. rewrite in_use_count_none.
  - split; [reflexivity | unfold MAX_TIMERS; lia].
  - intros i Hi. destruct Hwf' as (_ & Lcb & _). rewrite Lcb in Hi.
    rewrite <- view_cb, view_new by assumption. reflexivity.
Qed.

Lemma free_clean_new mem t : wf mem -> free_clean (SimpleTimer_new mem t).
Proof.
  intros Hwf i Hi _. rewrite <- view_runs, view_new by assumption. reflexivity.
Qed.

Lemma reachable_Inv s : reachable s -> Inv s.
Proof.
  induction 1.
  - apply Inv_new; assumption.
  - eapply Inv_call; eauto.
  - eapply Inv_run; eauto.
Qed.

Lemma reachable_Clean s : reachable s -> Clean s.
Proof.
  induction 1.
  - split; [apply wf_new | apply free_clean_new]; assumption.
  - eapply Clean_effect; [eapply exec_call_effect|]; eauto.
  - eapply Clean_run; eauto.
Qed.

(** ** Registration *)

Lemma Inv_numTimers_full s :
  Inv s -> MAX_TIMERS <= numTimers s ->
  forall j, (j < NSLOTS)%nat -> callbacks s !!! j <> NULL.
Proof.
  intros [Hwf [Hc Hle]] Hge j Hj. wf_split Hwf.
  apply in_use_count_full; [|lia].
  pose proof (in_use_count_le (callbacks s)) as Hb.
  rewrite <- NSLOTS_MAX in Hge. lia.
Qed.

Lemma Inv_all_in_use s :
  Inv s -> (forall j, (j < NSLOTS)%nat -> callbacks s !!! j <> NULL) ->
  numTimers s = MAX_TIMERS.
Proof.
  intros [Hwf [Hc Hle]] Hall. wf_split Hwf.
  rewrite Hc, in_use_count_all, Lcb; [apply NSLOTS_MAX|].
  intros i Hi. apply Hall. lia.
Qed.

Lemma setTimer_succeeds t d f n s j :
  Inv s -> (j < NSLOTS)%nat -> callbacks s !!! j = NULL -> f <> NULL ->
  exists i, (i <= j)%nat /\ callbacks s !!! i = NULL /\
            (forall k, (k < i)%nat -> callbacks s !!! k <> NULL) /\
            setTimer t d f n s = (registered i t d f n s, Z.of_nat i).
Proof.
  intros HI Hj Hz Hf. unfold setTimer.
  destruct (findFirstFreeSlot_spec s) as [[_ Hfull]|(i & Hr & Hi & Hn & Hzi & Hlow)].
  - exfalso. destruct Hfull as [Hge|Hall].
    + apply (Inv_numTimers_full s HI Hge j Hj Hz).
    + apply (Hall j Hj Hz).
  - rewrite Hr. destruct (Z.of_nat i <? 0) eqn:Hneg; [lia|].
    apply Z.eqb_neq in Hf. rewrite Hf. rewrite Nat2Z.id.
    exists i. split; [|split; [exact Hzi|split; [exact Hlow|reflexivity]]].
    destruct (le_lt_dec i j) as [Hle|Hlt]; [exact Hle|].
    exfalso. apply (Hlow j Hlt Hz).
Qed.

Lemma setTimer_full t d f n s :
  (forall j, (j < NSLOTS)%nat -> callbacks s !!! j <> NULL) ->
  setTimer t d f n s = (s, -1).
Proof.
  intros Hall.
  destruct (setTimer_spec t d f n s) as [E|(i & Hi & _ & _ & Hz & _)];
    [exact E|].
  exfalso. apply (Hall i Hi Hz).
Qed.

(** A successful [setTimer] in terms of its result. *)
Lemma setTimer_success t d f n s s' idx :
  setTimer t d f n s = (s', idx) -> 0 <= idx ->
  exists i, idx = Z.of_nat i /\ (i < NSLOTS)%nat /\ f <> NULL /\
            numTimers s < MAX_TIMERS /\ callbacks s !!! i = NULL /\
            (forall j, (j < i)%nat -> callbacks s !!! j <> NULL) /\
            s' = registered i t d f n s.
Proof.
  intros H Hidx.
  destruct (setTimer_spec t d f n s) as [E|(i & Hi & Hn & Hf & Hz & Hlow & E)];
    rewrite E in H; inversion H; subst; [lia|].
  exists i. split; [reflexivity|]. split; [exact Hi|]. split; [exact Hf|].
  split; [exact Hn|]. split; [exact Hz|]. split; [exact Hlow|reflexivity].
Qed.

Lemma view_registered i t d f n s :
  wf s -> (i < NSLOTS)%nat ->
  view (registered i t d f n s) i =
  mkSlot t f d n (numRuns s !!! i) true (toBeCalled s !!! i).
Proof.
  intros Hwf Hi. wf_split Hwf. unfold registered, view. setters. lookups.
  reflexivity.
Qed.

Lemma view_cleared i s :
  wf s -> (i < NSLOTS)%nat ->
  view (cleared i s) i =
  mkSlot (prev_millis s !!! i) 0 0 (maxNumRuns s !!! i) 0 false DEFCALL_DONTRUN.
Proof.
  intros Hwf Hi. wf_split Hwf. unfold cleared, view. setters. lookups.
  reflexivity.
Qed.

Lemma view_cleared_other i j s : i <> j -> view (cleared i s) j = view s j.
Proof. intros Hij. unfold cleared, view. setters. lookups. reflexivity. Qed.

Lemma view_registered_other i j t d f n s :
  i <> j -> view (registered i t d f n s) j = view s j.
Proof. intros Hij. unfold registered, view. setters. lookups. reflexivity. Qed.

Lemma numTimers_registered i t d f n s :
  numTimers (registered i t d f n s) = numTimers s + 1.
Proof. reflexivity. Qed.

Lemma numTimers_cleared i s : numTimers (cleared i s) = numTimers s - 1.
Proof. reflexivity. Qed.

(** [deleteTimer] on a slot in use. *)
Lemma deleteTimer_in_use i s :
  Inv s -> (i < NSLOTS)%nat -> callbacks s !!! i <> NULL ->
  deleteTimer (Z.of_nat i) s = Some (cleared i s).
Proof.
  intros [Hwf [Hc Hle]] Hi Hnz. wf_split Hwf. unfold deleteTimer.
  pose proof NSLOTS_MAX as HN.
  destruct (Z.of_nat i >=? MAX_TIMERS) eqn:E1; [lia|].
  assert (Hpos : (0 < in_use_count (callbacks s))%nat)
    by (apply (in_use_count_pos _ i); [lia|exact Hnz]).
  destruct (numTimers s =? 0) eqn:E2; [lia|].
  destruct (Z.of_nat i <? 0) eqn:E3; [lia|].
  rewrite Nat2Z.id. apply Z.eqb_neq in Hnz. rewrite Hnz. reflexivity.
Qed.

(** [deleteTimer] on a free slot. *)
Lemma deleteTimer_free i s :
  callbacks s !!! i = NULL -> deleteTimer (Z.of_nat i) s = Some s.
Proof.
  intros Hz. unfold deleteTimer.
  destruct (Z.of_nat i >=? MAX_TIMERS); [reflexivity|].
  destruct (numTimers s =? 0); [reflexivity|].
  destruct (Z.of_nat i <? 0) eqn:E3; [lia|].
  rewrite Nat2Z.id, Hz. reflexivity.
Qed.

Lemma register_all_prefix regs : forall m s,
  Inv s -> prefix_used m s -> (m + length regs <= NSLOTS)%nat ->
  Forall (fun reg => snd (fst reg) <> NULL) regs ->
  exists s', register_all regs s = (s', map Z.of_nat (seq m (length regs))) /\
             Inv s' /\ prefix_used (m + length regs) s'.
Proof.
  induction regs as [|[[[t d] f] n] regs IH]; intros m s HI Hp Hlen Hnz;
    cbn [register_all length seq map].
  - exists s. rewrite Nat.add_0_r. auto.
  - cbn [length] in Hlen. inversion Hnz as [|x l Hf Hrest]; subst. cbn in Hf.
    destruct (setTimer_succeeds t d f n s m HI) as (i & Hle & Hz & Hlow & E);
      [lia | apply (Hp m); lia | exact Hf |].
    assert (i = m).
    { destruct (Nat.eq_dec i m) as [|Hne]; [assumption|].
      exfalso. apply (proj1 (Hp i ltac:(lia)) ltac:(lia)). exact Hz. }
    subst i. rewrite E.
    assert (HI1 : Inv (registered m t d f n s)).
    { eapply Inv_effect; [|exact HI].
      apply (eff_register True (fun _ => True) (fun _ => True)); auto; try lia.
      destruct HI as [Hwf [Hc Hb]]. wf_split Hwf.
      pose proof (in_use_count_le (callbacks s)).
      destruct (Z_lt_dec (numTimers s) MAX_TIMERS) as [|Hge]; [assumption|].
      exfalso. apply (Inv_numTimers_full s) with (j := m);
        [split; [unfold wf; auto 10|split; assumption] | lia | lia | exact Hz]. }
    assert (Hp1 : prefix_used (S m) (registered m t d f n s)).
    { intros j Hj. destruct HI as [Hwf _].
      destruct (Nat.eq_dec m j) as [->|Hne].
      - rewrite <- view_cb, view_registered by assumption. cbn.
        split; [intros _; exact Hf | lia].
      - rewrite <- view_cb, view_registered_other by assumption. rewrite view_cb.
        destruct (Hp j Hj) as [Ha Hb]. split; intros; [apply Ha|apply Hb]; lia. }
    destruct (IH (S m) _ HI1 Hp1 ltac:(lia) Hrest) as (s' & E' & HI' & Hp').
    rewrite E'. exists s'. split; [reflexivity|]. split; [exact HI'|].
    replace (m + S (length regs))%nat with (S m + length regs)%nat by lia.
    exact Hp'.
Qed.

Lemma prefix_used_new mem t : wf mem -> prefix_used 0 (SimpleTimer_new mem t).
Proof.
  intros Hwf j Hj. split; [lia|]. intros _.
  rewrite <- view_cb, view_new by assumption. reflexivity.
Qed.

Lemma wf_blank : wf blank.
Proof. vm_compute. repeat split. Qed.

Lemma reachable_fresh : reachable fresh.
Proof. apply reach_new. exact wf_blank. Qed.

(** * The data-model invariant *)

(** C5. The invariant is not kept by every call of the interface.
    [deleteTimer] compares its index with [MAX_TIMERS] only: on an object
    that holds one timer, [deleteTimer(MAX_TIMERS)] returns at that guard and
    leaves the object as it is, but [deleteTimer(-1)] passes it and goes on to
    read [callbacks[-1]], outside the array.  The call has no defined result,
    so that no state in which [numTimers] counts the slots in use follows
    from it. *)
Theorem deleteTimer_below_range_unguarded :
  let s := fst (setTimer 0 1000 1 0 fresh) in
  Inv s /\ numTimers s = 1 /\ callbacks s !!! 0%nat = 1 /\
  exec_call (CallDeleteTimer MAX_TIMERS) s = Some (s, 0) /\
  exec_call (CallDeleteTimer (-1)) s = None /\
  ~ (forall c x, Inv x -> exists x' r, exec_call c x = Some (x', r) /\ Inv x').
Proof.
  cbv zeta.
  assert (HI : Inv (fst (setTimer 0 1000 1 0 fresh)))
    by (vm_compute; repeat split; discriminate).
  assert (Hnone : exec_call (CallDeleteTimer (-1)) (fst (setTimer 0 1000 1 0 fresh)) = None)
    by (vm_compute; reflexivity).
  split; [exact HI|]. split; [vm_compute; reflexivity|].
  split; [vm_compute; reflexivity|]. split; [vm_compute; reflexivity|].
  split; [exact Hnone|].
  intros Hall.
  destruct (Hall (CallDeleteTimer (-1)) _ HI) as (x' & r & E & _).
  rewrite Hnone in E. discriminate.
Qed.

(** * Registration *)

(** C9. A successful [setTimer] (result not negative) on a reachable object
    leaves the chosen slot with the given delay, callback and run limit,
    enabled, with no runs recorded and the current tick as baseline; it
    increments [numTimers]; the result is the index of that slot, which was
    free. *)
Theorem setTimer_success_fields t d f n s s' idx :
  reachable s -> setTimer t d f n s = (s', idx) -> 0 <= idx ->
  let i := Z.to_nat idx in
  0 <= idx < MAX_TIMERS /\
  callbacks s !!! i = NULL /\
  delays s' !!! i = d /\
  callbacks s' !!! i = f /\
  maxNumRuns s' !!! i = n /\
  enabled s' !!! i = true /\
  numRuns s' !!! i = 0 /\
  prev_millis s' !!! i = t /\
  numTimers s' = numTimers s + 1.
Proof.
  intros Hr H Hidx i.
  destruct (reachable_Clean s Hr) as [Hwf Hfc].
  destruct (setTimer_success _ _ _ _ _ _ _ H Hidx)
    as (k & -> & Hk & Hf & Hn & Hz & _ & ->).
  subst i. rewrite Nat2Z.id.
  pose proof (view_registered k t d f n s Hwf Hk) as Hv.
  pose proof NSLOTS_MAX as HN.
  split; [lia|]. split; [exact Hz|].
  rewrite <- view_delay, <- view_cb, <- view_max, <- view_en, <- view_runs,
          <- view_prev, Hv.
  cbn [sl_prev sl_cb sl_delay sl_max sl_runs sl_en].
  repeat (split; [reflexivity|]).
  split; [apply Hfc; assumption|]. split; reflexivity.
Qed.

Lemma setTimer_success_fields_witness :
  let s' := fst (setTimer 7 1000 1 5 fresh) in
  delays s' !!! 0%nat = 1000 /\ callbacks s' !!! 0%nat = 1 /\
  maxNumRuns s' !!! 0%nat = 5 /\ enabled s' !!! 0%nat = true /\
  numRuns s' !!! 0%nat = 0 /\ prev_millis s' !!! 0%nat = 7 /\
  numTimers s' = 1.
Proof.
  pose proof (setTimer_success_fields 7 1000 1 5 fresh
                (fst (setTimer 7 1000 1 5 fresh)) 0 reachable_fresh) as H.
  specialize (H ltac:(vm_compute; reflexivity) ltac:(lia)).
  cbv zeta in H. change (Z.to_nat 0) with 0%nat in H.
  destruct H as (_ & _ & H1 & H2 & H3 & H4 & H5 & H6 & H7).
  cbv zeta. repeat (split; [assumption|]). rewrite H7. vm_compute. reflexivity.
Defined.

(** C6. [setTimer] returns the lowest-indexed free slot; from a fresh object
    [MAX_TIMERS] registrations with a callback take the slots [0 .. MAX_TIMERS-1]
    in order, and the next one returns [-1] and changes nothing, as does any
    registration while all slots are in use; then deleting a timer frees its
    slot and no other, and the next registration returns that index. *)
Theorem registration_capacity :
  (forall t d f n s s' idx,
     setTimer t d f n s = (s', idx) -> 0 <= idx ->
     0 <= idx < MAX_TIMERS /\
     callbacks s !!! Z.to_nat idx = NULL /\
     forall j, (j < Z.to_nat idx)%nat -> callbacks s !!! j <> NULL) /\
  (forall t d f n s j,
     Inv s -> (j < NSLOTS)%nat -> callbacks s !!! j = NULL -> f <> NULL ->
     0 <= snd (setTimer t d f n s) <= Z.of_nat j) /\
  (forall mem t0 regs t d f n,
     wf mem -> length regs = NSLOTS ->
     Forall (fun reg => snd (fst reg) <> NULL) regs ->
     exists s, register_all regs (SimpleTimer_new mem t0) =
                 (s, map Z.of_nat (seq 0 NSLOTS)) /\
               numTimers s = MAX_TIMERS /\
               getNumAvailableTimers s = 0 /\
               setTimer t d f n s = (s, -1)) /\
  (forall t d f n s,
     (forall j, (j < NSLOTS)%nat -> callbacks s !!! j <> NULL) ->
     setTimer t d f n s = (s, -1)) /\
  (forall s i,
     Inv s -> (forall j, (j < NSLOTS)%nat -> callbacks s !!! j <> NULL) ->
     (i < NSLOTS)%nat ->
     exists s1, deleteTimer (Z.of_nat i) s = Some s1 /\
                numTimers s1 = MAX_TIMERS - 1 /\
                getNumAvailableTimers s1 = 1 /\
                callbacks s1 !!! i = NULL /\
                (forall j, j <> i -> callbacks s1 !!! j = callbacks s !!! j) /\
                forall t d f n, f <> NULL ->
                  snd (setTimer t d f n s1) = Z.of_nat i).
Proof.
  split; [|split; [|split; [|split]]].
  - intros t d f n s s' idx H Hidx.
    destruct (setTimer_success _ _ _ _ _ _ _ H Hidx)
      as (k & -> & Hk & _ & _ & Hz & Hlow & _).
    rewrite Nat2Z.id. pose proof NSLOTS_MAX. split; [lia|]. split; assumption.
  - intros t d f n s j HI Hj Hz Hf.
    destruct (setTimer_succeeds t d f n s j HI Hj Hz Hf) as (k & Hle & _ & _ & E).
    rewrite E. cbn [snd]. lia.
  - intros mem t0 regs t d f n Hwf Hlen Hnz.
    destruct (register_all_prefix regs 0 (SimpleTimer_new mem t0))
      as (s & E & HI & Hp); auto.
    + apply Inv_new; assumption.
    + apply prefix_used_new; assumption.
    + lia.
    + rewrite Hlen in E, Hp. cbn [Nat.add] in Hp.
      assert (Hall : forall j, (j < NSLOTS)%nat -> callbacks s !!! j <> NULL).
      { intros j Hj. apply (Hp j Hj). exact Hj. }
      exists s. split; [exact E|].
      pose proof (Inv_all_in_use s HI Hall) as Hn.
      split; [exact Hn|]. split; [unfold getNumAvailableTimers; lia|].
      apply setTimer_full. exact Hall.
  - intros t d f n s Hall. apply setTimer_full. exact Hall.
  - intros s i HI Hall Hi.
    pose proof (Inv_all_in_use s HI Hall) as Hn.
    exists (cleared i s).
    split; [apply deleteTimer_in_use; auto|].
    rewrite numTimers_cleared.
    split; [lia|].
    split; [unfold getNumAvailableTimers; rewrite numTimers_cleared; lia|].
    assert (Hwf : wf s) by apply HI.
    assert (Hz : callbacks (cleared i s) !!! i = NULL)
      by (rewrite <- view_cb, view_cleared by assumption; reflexivity).
    split; [exact Hz|].
    assert (Hoth : forall j, j <> i ->
                     callbacks (cleared i s) !!! j = callbacks s !!! j).
    { intros j Hj. rewrite <- !view_cb, view_cleared_other by congruence.
      reflexivity. }
    split; [exact Hoth|].
    intros t d f n Hf.
    assert (HI' : Inv (cleared i s)).
    { eapply Inv_delete; [exact HI|]. apply deleteTimer_in_use; auto. }
    destruct (setTimer_succeeds t d f n (cleared i s) i HI' Hi Hz Hf)
      as (k & Hle & Hzk & _ & E).
    rewrite E. cbn [snd].
    destruct (Nat.eq_dec k i) as [->|Hne]; [reflexivity|].
    exfalso. rewrite Hoth in Hzk by exact Hne. apply (Hall k); [lia|exact Hzk].
Qed.

Lemma registration_capacity_witness :
  (exists s, register_all ten_timers fresh = (s, map Z.of_nat (seq 0 NSLOTS)) /\
             setTimer 0 100 11 0 s = (s, -1)) /\
  (let full := fst (register_all ten_timers fresh) in
   exists s1, deleteTimer 3 full = Some s1 /\ snd (setTimer 0 100 11 0 s1) = 3).
Proof.
  destruct registration_capacity as (_ & _ & Hfill & _ & Hdel).
  split.
  - destruct (Hfill blank 0 ten_timers 0 100 11 0) as (s & E & _ & _ & Ef).
    + vm_compute. repeat split.
    + reflexivity.
    + vm_compute. repeat constructor; discriminate.
    + exists s. split; [exact E | exact Ef].
  - cbv zeta.
    destruct (Hdel (fst (register_all ten_timers fresh)) 3%nat)
      as (s1 & Ed & _ & _ & _ & _ & Er).
    + vm_compute. repeat split; discriminate.
    + intros j Hj. do 10 (destruct j as [|j]; [vm_compute; discriminate|]).
      exfalso. unfold NSLOTS, MAX_TIMERS in Hj. cbn in Hj. lia.
    + vm_compute. lia.
    + exists s1. split; [exact Ed|]. apply Er. discriminate.
Defined.

(** * Control calls on indices that hold no timer *)

(** C7, the claim as stated fails: on a fresh object slot 0 is free and in
    range, and [enable(0)] is not a no-op, it sets [enabled[0]]. *)
Lemma enable_free_slot_changes_state :
  0 <= 0 < MAX_TIMERS /\ callbacks fresh !!! 0%nat = NULL /\
  enable 0 fresh <> Some fresh.
Proof.
  split; [unfold MAX_TIMERS; lia|]. split; [vm_compute; reflexivity|].
  intros H. vm_compute in H. congruence.
Qed.

(** Below the arrays there is no guard: with a timer registered,
    [deleteTimer(-1)] reads [callbacks[-1]]. *)
Lemma deleteTimer_negative_index_undefined :
  deleteTimer (-1) (fst (setTimer 0 1000 1 0 fresh)) = None.
Proof. vm_compute. reflexivity. Qed.

(** C7, amended. With an index of [MAX_TIMERS] or more every control call
    leaves the object as it is and [isEnabled] answers false.  On a free slot
    in range [deleteTimer] leaves the object as it is, while [restartTimer]
    writes the slot's baseline and [enable], [disable] and [toggle] write its
    enabled flag, and nothing else: the slot stays free and [numTimers]
    unchanged.  With an index that is not negative every call is defined. *)
Theorem control_calls_without_timer :
  (forall s t idx, MAX_TIMERS <= idx ->
     deleteTimer idx s = Some s /\ restartTimer t idx s = Some s /\
     enable idx s = Some s /\ disable idx s = Some s /\
     toggle idx s = Some s /\ isEnabled idx s = Some false) /\
  (forall s t idx, 0 <= idx < MAX_TIMERS ->
     callbacks s !!! Z.to_nat idx = NULL ->
     deleteTimer idx s = Some s /\
     (exists s', restartTimer t idx s = Some s' /\
                 only_baseline_written s s' (Z.to_nat idx) t) /\
     (exists s', enable idx s = Some s' /\
                 only_enabled_written s s' (Z.to_nat idx) true) /\
     (exists s', disable idx s = Some s' /\
                 only_enabled_written s s' (Z.to_nat idx) false) /\
     (exists s', toggle idx s = Some s' /\
                 only_enabled_written s s' (Z.to_nat idx)
                   (negb (enabled s !!! Z.to_nat idx)))) /\
  (forall s t idx, 0 <= idx ->
     (exists s', deleteTimer idx s = Some s') /\
     (exists s', restartTimer t idx s = Some s') /\
     (exists s', enable idx s = Some s') /\
     (exists s', disable idx s = Some s') /\
     (exists s', toggle idx s = Some s') /\
     (exists b, isEnabled idx s = Some b)).
Proof.
  split; [|split].
  - intros s t idx H.
    unfold deleteTimer, restartTimer, enable, disable, toggle, isEnabled.
    assert (E : (idx >=? MAX_TIMERS) = true) by lia. rewrite E.
    repeat split; reflexivity.
  - intros s t idx H Hz.
    unfold deleteTimer, restartTimer, enable, disable, toggle.
    assert (E1 : (idx >=? MAX_TIMERS) = false) by lia.
    assert (E2 : (idx <? 0) = false) by lia.
    rewrite E1, E2, Hz. cbn [negb Z.eqb NULL].
    split; [destruct (numTimers s =? 0); reflexivity|].
    split; [eexists; split; [reflexivity|]; repeat split|].
    split; [eexists; split; [reflexivity|]; repeat split|].
    split; [eexists; split; [reflexivity|]; repeat split|].
    eexists; split; [reflexivity|]; repeat split.
  - intros s t idx H.
    pose proof (exec_call_defined (CallDeleteTimer idx) s H) as (s1 & r1 & H1).
    pose proof (exec_call_defined (CallRestartTimer t idx) s H) as (s2 & r2 & H2).
    pose proof (exec_call_defined (CallEnable idx) s H) as (s3 & r3 & H3).
    pose proof (exec_call_defined (CallDisable idx) s H) as (s4 & r4 & H4).
    pose proof (exec_call_defined (CallToggle idx) s H) as (s5 & r5 & H5).
    pose proof (exec_call_defined (CallIsEnabled idx) s H) as (s6 & r6 & H6).
    cbn [exec_call void] in *.
    destruct (deleteTimer idx s); [|discriminate].
    destruct (restartTimer t idx s); [|discriminate].
    destruct (enable idx s); [|discriminate].
    destruct (disable idx s); [|discriminate].
    destruct (toggle idx s); [|discriminate].
    destruct (isEnabled idx s); [|discriminate].
    repeat split; eauto.
Qed.

Lemma control_calls_without_timer_witness :
  deleteTimer 10 fresh = Some fresh /\ isEnabled 12 fresh = Some false /\
  deleteTimer 4 fresh = Some fresh /\
  (exists s', toggle 4 fresh = Some s' /\ only_enabled_written fresh s' 4 true) /\
  (exists s', restartTimer 99 4 fresh = Some s').
Proof.
  destruct control_calls_without_timer as (Hhigh & Hfree & Hdef).
  destruct (Hhigh fresh 0 10 ltac:(unfold MAX_TIMERS; lia)) as (H1 & _).
  destruct (Hhigh fresh 0 12 ltac:(unfold MAX_TIMERS; lia)) as (_ & _ & _ & _ & _ & H2).
  destruct (Hfree fresh 0 4 ltac:(unfold MAX_TIMERS; lia) ltac:(vm_compute; reflexivity))
    as (H3 & _ & _ & _ & H4).
  destruct (Hdef fresh 99 4 ltac:(lia)) as (_ & H5 & _).
  repeat (split; [assumption|]). exact H5.
Defined.

(** * Elapsed time across a wrap of the tick counter *)

(** C4, the claim as stated fails: a true elapsed time of exactly one full
    period of the counter does not exceed that period, yet the computed
    elapsed time is 0: a timer of period 1000 registered at true time [T0] is
    not found due, and not called, by the poll at true time [T1]. *)
Lemma elapsed_one_full_wrap_is_lost :
  let T0 := 0 in
  let T1 := ULONG_MODULUS in
  T1 - T0 <= ULONG_MODULUS /\
  ulong_sub (to_ulong T1) (to_ulong T0) = 0 /\
  ulong_sub (to_ulong T1) (to_ulong T0) <> T1 - T0 /\
  1000 <= T1 - T0 /\
  is_due (to_ulong T1) (to_ulong T0) 1000 = false /\
  exists s', run passive (to_ulong T1)
                 (fst (setTimer (to_ulong T0) 1000 21 0 fresh)) = Some (s', []).
Proof.
  vm_compute. repeat (split; [congruence|]). eexists. reflexivity.
Qed.

Lemma ulong_sub_true_elapsed T0 T1 :
  0 <= T1 - T0 < ULONG_MODULUS ->
  ulong_sub (to_ulong T1) (to_ulong T0) = T1 - T0.
Proof.
  intros H. unfold ulong_sub, to_ulong.
  rewrite <- Zminus_mod. apply Z.mod_small. exact H.
Qed.

(** C4, amended. [T0] and [T1] are the true times (unbounded) of the baseline
    and of the poll.  If the true elapsed time [T1 - T0] is less than one full
    period of the counter, the elapsed time [run()] computes from the wrapped
    counter values is exactly [T1 - T0], wherever the counter wrapped in
    between; the slot is found due exactly when [T1 - T0] reaches its delay,
    and its baseline then stands for the true time [T0 + d]. *)
Theorem elapsed_wraparound_safe T0 T1 :
  0 <= T1 - T0 < ULONG_MODULUS ->
  ulong_sub (to_ulong T1) (to_ulong T0) = T1 - T0 /\
  forall d, 0 <= d < ULONG_MODULUS ->
    is_due (to_ulong T1) (to_ulong T0) d = (d <=? T1 - T0) /\
    forall s i, wf s -> (i < NSLOTS)%nat -> callbacks s !!! i <> NULL ->
      prev_millis s !!! i = to_ulong T0 -> delays s !!! i = d ->
      prev_millis (evaluate (to_ulong T1) s) !!! i =
      (if d <=? T1 - T0 then to_ulong (T0 + d) else to_ulong T0).
Proof.
  intros H. pose proof (ulong_sub_true_elapsed T0 T1 H) as He.
  split; [exact He|]. intros d Hd.
  assert (Hdue : is_due (to_ulong T1) (to_ulong T0) d = (d <=? T1 - T0)).
  { unfold is_due. rewrite He. unfold to_ulong. rewrite (Z.mod_small d) by exact Hd.
    lia. }
  split; [exact Hdue|].
  intros s i Hwf Hi Hcb Hpm Hdl.
  rewrite <- view_prev, view_evaluate by assumption.
  unfold step_slot. rewrite view_cb, view_prev, view_delay, Hpm, Hdl.
  apply Z.eqb_neq in Hcb. rewrite Hcb, Hdue.
  destruct (d <=? T1 - T0); [|reflexivity].
  assert (Ha : ulong_add (to_ulong T0) d = to_ulong (T0 + d)).
  { unfold ulong_add, to_ulong. rewrite Zplus_mod_idemp_l. reflexivity. }
  destruct (sl_en (view s i)); [|exact Ha].
  destruct (sl_max (view s i) =? RUN_FOREVER); [exact Ha|].
  destruct (sl_runs (view s i) <? sl_max (view s i)); exact Ha.
Qed.

(** A poll 200 ticks after a baseline set 100 ticks before the counter wraps. *)
Lemma elapsed_wraparound_safe_witness :
  ulong_sub 100 (ULONG_MODULUS - 100) = 200 /\
  is_due 100 (ULONG_MODULUS - 100) 150 = true.
Proof.
  destruct (elapsed_wraparound_safe (ULONG_MODULUS - 100) (ULONG_MODULUS + 100))
    as (H1 & H2); [vm_compute; split; congruence|].
  destruct (H2 150 ltac:(vm_compute; split; congruence)) as (H3 & _).
  split.
  - etransitivity; [|etransitivity; [exact H1|]]; vm_compute; reflexivity.
  - etransitivity; [|etransitivity; [exact H3|]]; vm_compute; reflexivity.
Defined.

(** ** One pass of [run()], seen from one slot *)

Lemma Base_Inv s : Base s -> Inv s.
Proof. intros (Hwf & Hc & _). split; assumption. Qed.

Lemma Base_effect reg D W s s' : effect reg D W s s' -> Base s -> Base s'.
Proof.
  intros H (Hwf & Hc & Ha). split; [|split].
  - eapply wf_effect; eauto.
  - eapply counted_effect; eauto.
  - eapply armed_ok_effect; eauto.
Qed.

Lemma Base_call c s s' r : Base s -> exec_call c s = Some (s', r) -> Base s'.
Proof. intros HB H. eapply Base_effect; [eapply exec_call_effect; exact H|exact HB]. Qed.

Lemma Base_delete j s s' : Base s -> deleteTimer j s = Some s' -> Base s'.
Proof. intros HB H. eapply Base_effect; [eapply deleteTimer_effect; exact H|exact HB]. Qed.

Lemma Base_evaluate now s : Inv s -> Base (evaluate now s).
Proof.
  intros [Hwf Hc]. split; [|split].
  - apply wf_evaluate; assumption.
  - apply counted_evaluate; assumption.
  - apply armed_ok_evaluate; assumption.
Qed.

(** The deferred call of a slot is only ever withdrawn by a store. *)
Lemma idle_effect reg D W s s' i :
  effect reg D W s s' ->
  toBeCalled s !!! i = DEFCALL_DONTRUN -> toBeCalled s' !!! i = DEFCALL_DONTRUN.
Proof.
  intros H Hz.
  destruct H as [|j t d f n _ Hj _ _ _|j _ Hj _ _|j t _ Hj|j b _ Hj];
    unfold registered, cleared; setters; auto.
  destruct (Nat.eq_dec j i) as [->|Hne]; [|lookups; exact Hz].
  destruct (Nat.lt_ge_cases i (length (toBeCalled s))) as [Hlt|Hge].
  - lookups. reflexivity.
  - rewrite list_insert_ge by lia. exact Hz.
Qed.

Lemma kept_effect (reg : Prop) (D W : nat -> Prop) s s' i :
  effect reg D W s s' ->
  (forall j, D j -> j <> i) -> callbacks s !!! i <> NULL ->
  kept s' i = kept s i.
Proof.
  intros H HD Hcb. unfold kept.
  destruct H as [|j t d f n _ Hj Hz _ _|j Hd Hj _ _|j t _ Hj|j b _ Hj];
    unfold registered, cleared; setters; auto.
  - assert (j <> i) by congruence. lookups. reflexivity.
  - specialize (HD j Hd). lookups. reflexivity.
Qed.

Lemma kept_call c s s' r i :
  exec_call c s = Some (s', r) -> call_spares i c ->
  callbacks s !!! i <> NULL -> kept s' i = kept s i.
Proof.
  intros H Hs Hcb.
  eapply kept_effect; [eapply exec_call_effect; exact H| |exact Hcb].
  intros j Hj ->. apply Hj. exact Hs.
Qed.

Lemma kept_delete j s s' i :
  deleteTimer (Z.of_nat j) s = Some s' -> j <> i ->
  callbacks s !!! i <> NULL -> kept s' i = kept s i.
Proof.
  intros H Hne Hcb.
  eapply kept_effect; [eapply deleteTimer_effect; exact H| |exact Hcb].
  intros k Hk ->. apply Hne. lia.
Qed.

Lemma view_call c s s' r i :
  exec_call c s = Some (s', r) -> call_avoids i c ->
  (callbacks s !!! i <> NULL \/ call_no_register c) ->
  view s' i = view s i.
Proof.
  intros H Ha Hor.
  eapply view_effect; [eapply exec_call_effect; exact H| | |].
  - intros j Hj ->. apply Hj. destruct c; cbn in *; auto.
  - intros j Hj ->. apply Hj. exact Ha.
  - intros Hreg. destruct Hor as [Hcb|Hnr]; [exact Hcb|]. exfalso. auto.
Qed.

Lemma view_delete j s s' i :
  deleteTimer (Z.of_nat j) s = Some s' -> j <> i -> view s' i = view s i.
Proof.
  intros H Hne.
  eapply view_effect; [eapply deleteTimer_effect; exact H| | |].
  - intros k Hk ->. apply Hne. lia.
  - intros k [].
  - intros [].
Qed.

Lemma Forall_seq_other i a n :
  (i < a \/ a + n <= i)%nat -> (a + n <= NSLOTS)%nat ->
  Forall (fun j => j <> i /\ (j < NSLOTS)%nat) (seq a n).
Proof.
  intros Hi Hn. apply Forall_forall. intros j Hj. apply elem_of_seq in Hj. lia.
Qed.

Lemma not_In_seq i a n : (i < a \/ a + n <= i)%nat -> ~ In i (seq a n).
Proof. intros Hi Hj. apply in_seq in Hj. lia. Qed.

(** [run()] as the second loop before slot [i], at slot [i] and after it. *)
Lemma run_split env now s i :
  (i < NSLOTS)%nat ->
  run env now s =
  match act env (seq 0 i) (evaluate now s) with
  | Some (s1, t1) =>
      match act_slot env i s1 with
      | Some (s2, ev) =>
          match act env (seq (S i) (NSLOTS - S i)) s2 with
          | Some (s3, t3) => Some (s3, t1 ++ ev ++ t3)
          | None => None
          end
      | None => None
      end
  | None => None
  end.
Proof.
  intros Hi. rewrite run_eq. rewrite (seq_split_at i Hi) at 1.
  rewrite act_app.
  destruct (act env (seq 0 i) (evaluate now s)) as [[s1 t1]|]; [|reflexivity].
  cbn [act].
  destruct (act_slot env i s1) as [[s2 ev]|]; [|reflexivity].
  destruct (act env (seq (S i) (NSLOTS - S i)) s2) as [[s3 t3]|]; reflexivity.
Qed.

Section Around.

Variable env : Z -> callback_body.
Variable P : api_call -> Prop.
Variable Q : SimpleTimer -> Prop.
Variable i : nat.

Hypothesis env_P : forall f, body_all P (env f).
Hypothesis call_Q :
  forall c s s' r, P c -> Q s -> exec_call c s = Some (s', r) -> Q s'.
Hypothesis del_Q :
  forall j s s', j <> i -> Q s -> deleteTimer (Z.of_nat j) s = Some s' -> Q s'.

(** The loop over slots other than [i] keeps [Q] and records nothing of [i]. *)
Lemma act_elsewhere_keeps a n s s' tr :
  (i < a \/ a + n <= i)%nat ->
  Q s -> act env (seq a n) s = Some (s', tr) ->
  Q s' /\ fires i tr = 0%nat /\ deletions i tr = 0%nat.
Proof.
  intros Hi HQ H. split.
  - eapply (act_keeps env P Q (fun j => j <> i)); [exact env_P|exact call_Q| | |exact HQ|exact H].
    + intros j s0 s1 s2 Hj _ _ H1 Hd. eapply del_Q; eauto.
    + apply Forall_forall. intros j Hj. apply elem_of_seq in Hj. lia.
  - eapply act_trace_outside; [exact H|]. apply not_In_seq. exact Hi.
Qed.

Hypothesis P_bounds : forall c, P c -> call_in_bounds c.
Hypothesis Q_Base : forall s, Q s -> Base s.

Lemma act_elsewhere a n s :
  (i < a \/ a + n <= i)%nat -> (a + n <= NSLOTS)%nat -> Q s ->
  exists s' tr, act env (seq a n) s = Some (s', tr) /\
                Q s' /\ fires i tr = 0%nat /\ deletions i tr = 0%nat.
Proof.
  intros Hi Hn HQ.
  destruct (act_defined env P Q (fun j => j <> i /\ (j < NSLOTS)%nat))
    with (idx := seq a n) (s := s) as (s' & tr & E & HQ'); auto.
  - intros j s0 s1 s2 [Hj _] _ _ H1 Hd. eapply del_Q; eauto.
  - intros s0 H0. apply Q_Base in H0. apply H0.
  - intros j [_ Hj]. exact Hj.
  - apply Forall_seq_other; assumption.
  - exists s', tr. split; [exact E|]. split; [exact HQ'|].
    eapply act_trace_outside; [exact E|]. apply not_In_seq. exact Hi.
Qed.

End Around.

(** The deferred call the first loop leaves for a slot is one of the three
    constants. *)
Lemma step_slot_tbc_range now v :
  sl_tbc (step_slot now v) = DEFCALL_DONTRUN \/
  sl_tbc (step_slot now v) = DEFCALL_RUNONLY \/
  sl_tbc (step_slot now v) = DEFCALL_RUNANDDEL.
Proof.
  unfold step_slot.
  repeat match goal with
         | |- context [if ?b then _ else _] => destruct b
         end; cbn [sl_tbc]; auto.
Qed.

Lemma toBeCalled_evaluate_range now s i :
  wf s -> (i < NSLOTS)%nat ->
  toBeCalled (evaluate now s) !!! i = DEFCALL_DONTRUN \/
  toBeCalled (evaluate now s) !!! i = DEFCALL_RUNONLY \/
  toBeCalled (evaluate now s) !!! i = DEFCALL_RUNANDDEL.
Proof.
  intros Hwf Hi. rewrite <- view_tbc, view_evaluate by assumption.
  apply step_slot_tbc_range.
Qed.

(** [run()] has defined behaviour when the callbacks stay above index 0. *)
Lemma run_defined env now s :
  Inv s -> (forall f, body_all call_in_bounds (env f)) ->
  exists s' tr, run env now s = Some (s', tr) /\ Inv s'.
Proof.
  intros HI Henv. rewrite run_eq.
  destruct (act_defined env call_in_bounds Base (fun j => (j < NSLOTS)%nat))
    with (idx := seq 0 NSLOTS) (s := evaluate now s) as (s' & tr & E & HB); auto.
  - intros c s0 s1 r _ H0 H. eapply Base_call; eauto.
  - intros j s0 s1 s2 _ _ _ H1 H. eapply Base_delete; eauto.
  - intros s0 H0. apply H0.
  - apply Forall_forall. intros j Hj. apply elem_of_seq in Hj. lia.
  - apply Base_evaluate. exact HI.
  - exists s', tr. split; [exact E|]. apply Base_Inv. exact HB.
Qed.

(** A slot for which the first loop decided [DEFCALL_DONTRUN] is not called
    and not deleted in that pass, whatever the callbacks do. *)
Lemma run_idle_slot env now s i s' tr :
  (i < NSLOTS)%nat ->
  toBeCalled (evaluate now s) !!! i = DEFCALL_DONTRUN ->
  run env now s = Some (s', tr) ->
  fires i tr = 0%nat /\ deletions i tr = 0%nat.
Proof.
  intros Hi Hz H. rewrite (run_split env now s i Hi) in H.
  set (Q := fun s0 : SimpleTimer => toBeCalled s0 !!! i = DEFCALL_DONTRUN).
  assert (HcallQ : forall c s0 s1 r, True -> Q s0 ->
                     exec_call c s0 = Some (s1, r) -> Q s1).
  { intros c s0 s1 r _ H0 E. eapply idle_effect; [eapply exec_call_effect; exact E|exact H0]. }
  assert (HdelQ : forall j s0 s1, j <> i -> Q s0 ->
                    deleteTimer (Z.of_nat j) s0 = Some s1 -> Q s1).
  { intros j s0 s1 _ H0 E. eapply idle_effect; [eapply deleteTimer_effect; exact E|exact H0]. }
  destruct (act env (seq 0 i) (evaluate now s)) as [[s1 t1]|] eqn:E1; [|discriminate].
  assert (Hbefore : (i < 0 \/ 0 + i <= i)%nat) by lia.
  assert (Hafter : (i < S i \/ S i + (NSLOTS - S i) <= i)%nat) by lia.
  destruct (act_elsewhere_keeps env (fun _ => True) Q i
              (fun f => body_all_True (env f)) HcallQ HdelQ 0 i _ _ _
              Hbefore Hz E1) as (HQ1 & Hf1 & Hd1).
  rewrite (act_slot_idle env i s1 HQ1) in H.
  destruct (act env (seq (S i) (NSLOTS - S i)) s1) as [[s3 t3]|] eqn:E3; [|discriminate].
  destruct (act_elsewhere_keeps env (fun _ => True) Q i
              (fun f => body_all_True (env f)) HcallQ HdelQ _ _ _ _ _
              Hafter HQ1 E3) as (HQ3 & Hf3 & Hd3).
  inversion H; subst.
  rewrite !fires_app, !deletions_app, Hf1, Hf3, Hd1, Hd3. split; reflexivity.
Qed.

Lemma kept_eq x y i :
  kept x i = kept y i ->
  callbacks x !!! i = callbacks y !!! i /\
  toBeCalled x !!! i = toBeCalled y !!! i /\
  delays x !!! i = delays y !!! i /\
  maxNumRuns x !!! i = maxNumRuns y !!! i /\
  numRuns x !!! i = numRuns y !!! i.
Proof. unfold kept. intros H. injection H. auto. Qed.

(** A slot for which the first loop decided a call gets it, if no callback
    deletes the slot before. *)
Lemma run_armed_slot env now s i :
  Inv s -> (i < NSLOTS)%nat ->
  (forall f, body_all (fun c => call_in_bounds c /\ call_spares i c) (env f)) ->
  toBeCalled (evaluate now s) !!! i <> DEFCALL_DONTRUN ->
  callbacks s !!! i <> NULL /\
  exists s' t1 t3,
    run env now s =
      Some (s', t1 ++ slot_events (toBeCalled (evaluate now s) !!! i) i
                                  (callbacks s !!! i) ++ t3) /\
    fires i t1 = 0%nat /\ deletions i t1 = 0%nat /\
    fires i t3 = 0%nat /\ deletions i t3 = 0%nat /\ Inv s'.
Proof.
  intros HI Hi Henv Ha.
  pose proof (Base_evaluate now s HI) as HB0.
  assert (Hcb0 : callbacks (evaluate now s) !!! i <> NULL)
    by (apply HB0; assumption).
  pose proof Hcb0 as Hcb. rewrite callbacks_evaluate in Hcb.
  split; [exact Hcb|].
  rewrite (run_split env now s i Hi).
  pose proof (toBeCalled_evaluate_range now s i (proj1 HI) Hi) as Hrange.
  pose proof (callbacks_evaluate now s) as Hcbs.
  revert HB0 Hcb0 Ha Hrange Hcbs.
  generalize (evaluate now s). intros s0 HB0 Hcb0 Ha Hrange Hcbs.
  set (P := fun c => call_in_bounds c /\ call_spares i c) in *.
  set (Q := fun x : SimpleTimer => Base x /\ kept x i = kept s0 i).
  assert (Qcb : forall x, Q x -> callbacks x !!! i <> NULL).
  { intros x [_ Hk]. apply kept_eq in Hk. destruct Hk as (E & _).
    rewrite E. exact Hcb0. }
  assert (HcallQ : forall c x y r, P c -> Q x -> exec_call c x = Some (y, r) -> Q y).
  { intros c x y r [_ Hs] Hx E. split; [eapply Base_call; [apply Hx|exact E]|].
    rewrite (kept_call c x y r i E Hs (Qcb x Hx)). apply Hx. }
  assert (HdelQ : forall j x y, j <> i -> Q x ->
                    deleteTimer (Z.of_nat j) x = Some y -> Q y).
  { intros j x y Hj Hx E. split; [eapply Base_delete; [apply Hx|exact E]|].
    rewrite (kept_delete j x y i E Hj (Qcb x Hx)). apply Hx. }
  assert (Pb : forall c, P c -> call_in_bounds c) by (intros c [Hc _]; exact Hc).
  assert (QB : forall x, Q x -> Base x) by (intros x [Hx _]; exact Hx).
  destruct (act_elsewhere env P Q i Henv HcallQ HdelQ Pb QB 0 i s0)
    as (s1 & t1 & E1 & HQ1 & Hf1 & Hd1); [lia|lia|split; [exact HB0|reflexivity]|].
  rewrite E1.
  (* the iteration for slot [i] *)
  assert (Ht1 : toBeCalled s1 !!! i = toBeCalled s0 !!! i).
  { destruct HQ1 as [_ Hk]. apply kept_eq in Hk. apply Hk. }
  assert (Hc1 : callbacks s1 !!! i = callbacks s !!! i).
  { destruct HQ1 as [_ Hk]. apply kept_eq in Hk. destruct Hk as (E & _).
    rewrite E, Hcbs. reflexivity. }
  destruct (call_callback_defined env P Henv Pb i s1 (Qcb s1 HQ1)) as (s2 & Ec).
  pose proof (call_callback_keeps env P Q Henv HcallQ i s1 s2 HQ1 Ec) as HQ2.
  assert (HcallB : forall c x y r, P c -> Base x -> exec_call c x = Some (y, r) -> Base y).
  { intros c x y r _ Hx E. eapply Base_call; eauto. }
  assert (HdelB : forall j x y, j <> i -> Base x ->
                    deleteTimer (Z.of_nat j) x = Some y -> Base y).
  { intros j x y _ Hx E. eapply Base_delete; eauto. }
  assert (Hsuffix : forall x, Base x ->
            exists s3 t3, act env (seq (S i) (NSLOTS - S i)) x = Some (s3, t3) /\
                          fires i t3 = 0%nat /\ deletions i t3 = 0%nat /\ Inv s3).
  { intros x Hx.
    destruct (act_elsewhere env P Base i Henv HcallB HdelB Pb (fun y H => H)
                (S i) (NSLOTS - S i) x)
      as (s3 & t3 & E3 & HB3 & Hf3 & Hd3); [lia|lia|exact Hx|].
    exists s3, t3. split; [exact E3|]. split; [exact Hf3|]. split; [exact Hd3|].
    apply Base_Inv. exact HB3. }
  destruct Hrange as [Hr|[Hr|Hr]]; [contradiction| |].
  - (* DEFCALL_RUNONLY *)
    unfold act_slot. rewrite Ht1, Hr, Ec, Hc1.
    cbn [Z.eqb DEFCALL_RUNONLY DEFCALL_DONTRUN Pos.eqb].
    destruct (Hsuffix s2 (QB s2 HQ2)) as (s3 & t3 & E3 & Hf3 & Hd3 & HI3).
    rewrite E3. exists s3, t1, t3. unfold slot_events.
    cbn [Z.eqb DEFCALL_RUNONLY Pos.eqb]. auto 10.
  - (* DEFCALL_RUNANDDEL *)
    unfold act_slot. rewrite Ht1, Hr, Ec, Hc1.
    cbn [Z.eqb DEFCALL_RUNONLY DEFCALL_DONTRUN DEFCALL_RUNANDDEL Pos.eqb].
    rewrite (deleteTimer_in_use i s2 (Base_Inv s2 (QB s2 HQ2)) Hi (Qcb s2 HQ2)).
    assert (HB2' : Base (cleared i s2)).
    { eapply Base_delete; [exact (QB s2 HQ2)|].
      apply (deleteTimer_in_use i s2 (Base_Inv s2 (QB s2 HQ2)) Hi (Qcb s2 HQ2)). }
    destruct (Hsuffix _ HB2') as (s3 & t3 & E3 & Hf3 & Hd3 & HI3).
    rewrite E3. exists s3, t1, t3. unfold slot_events.
    cbn [Z.eqb DEFCALL_RUNONLY DEFCALL_RUNANDDEL Pos.eqb]. auto 10.
Qed.

Lemma view_eq x y i :
  view x i = view y i ->
  prev_millis x !!! i = prev_millis y !!! i /\
  callbacks x !!! i = callbacks y !!! i /\
  delays x !!! i = delays y !!! i /\
  maxNumRuns x !!! i = maxNumRuns y !!! i /\
  numRuns x !!! i = numRuns y !!! i /\
  enabled x !!! i = enabled y !!! i /\
  toBeCalled x !!! i = toBeCalled y !!! i.
Proof. unfold view. intros H. injection H. auto 10. Qed.

(** A slot in use that no callback addresses and that [run()] does not delete
    ends the pass as the first loop left it. *)
Lemma run_slot_view env now s i s' tr :
  wf s -> (i < NSLOTS)%nat ->
  (forall f, body_all (call_avoids i) (env f)) ->
  callbacks s !!! i <> NULL ->
  toBeCalled (evaluate now s) !!! i <> DEFCALL_RUNANDDEL ->
  run env now s = Some (s', tr) ->
  view s' i = view (evaluate now s) i.
Proof.
  intros Hwf Hi Henv Hcb Hnd H. rewrite (run_split env now s i Hi) in H.
  rewrite <- (callbacks_evaluate now s) in Hcb.
  revert Hcb Hnd H. generalize (evaluate now s). intros s0 Hcb Hnd H.
  set (Q := fun x : SimpleTimer => view x i = view s0 i).
  assert (Qcb : forall x, Q x -> callbacks x !!! i <> NULL).
  { intros x Hx. apply view_eq in Hx. destruct Hx as (_ & E & _). rewrite E. exact Hcb. }
  assert (HcallQ : forall c x y r, call_avoids i c -> Q x ->
                     exec_call c x = Some (y, r) -> Q y).
  { intros c x y r Hc Hx E. unfold Q.
    rewrite (view_call c x y r i E Hc (or_introl (Qcb x Hx))). exact Hx. }
  assert (HdelQ : forall j x y, j <> i -> Q x ->
                    deleteTimer (Z.of_nat j) x = Some y -> Q y).
  { intros j x y Hj Hx E. unfold Q. rewrite (view_delete j x y i E Hj). exact Hx. }
  assert (Hbefore : (i < 0 \/ 0 + i <= i)%nat) by lia.
  assert (Hafter : (i < S i \/ S i + (NSLOTS - S i) <= i)%nat) by lia.
  destruct (act env (seq 0 i) s0) as [[s1 t1]|] eqn:E1; [|discriminate].
  destruct (act_elsewhere_keeps env (call_avoids i) Q i Henv HcallQ HdelQ
              0 i s0 s1 t1 Hbefore eq_refl E1) as (HQ1 & _ & _).
  destruct (act_slot env i s1) as [[s2 ev]|] eqn:E2; [|discriminate].
  assert (HQ2 : Q s2).
  { destruct (act_slot_cases env i s1 s2 ev E2)
      as [(_ & -> & _)|[(_ & _ & Hc)|(_ & Ht & _)]].
    - exact HQ1.
    - eapply (call_callback_keeps env (call_avoids i) Q); eauto.
    - exfalso. apply Hnd. apply view_eq in HQ1.
      destruct HQ1 as (_ & _ & _ & _ & _ & _ & E). rewrite <- E. exact Ht. }
  destruct (act env (seq (S i) (NSLOTS - S i)) s2) as [[s3 t3]|] eqn:E3; [|discriminate].
  destruct (act_elsewhere_keeps env (call_avoids i) Q i Henv HcallQ HdelQ
              _ _ s2 s3 t3 Hafter HQ2 E3) as (HQ3 & _ & _).
  inversion H; subst. exact HQ3.
Qed.

(** The first loop on a slot in use. *)
Lemma step_slot_in_use now v :
  sl_cb v <> NULL ->
  step_slot now v =
  if is_due now (sl_prev v) (sl_delay v) then
    let p := ulong_add (sl_prev v) (sl_delay v) in
    if sl_en v then
      if sl_max v =? RUN_FOREVER then
        mkSlot p (sl_cb v) (sl_delay v) (sl_max v) (sl_runs v) (sl_en v) DEFCALL_RUNONLY
      else if sl_runs v <? sl_max v then
        mkSlot p (sl_cb v) (sl_delay v) (sl_max v) (sl_runs v + 1) (sl_en v)
               (if sl_runs v + 1 >=? sl_max v then DEFCALL_RUNANDDEL else DEFCALL_RUNONLY)
      else
        mkSlot p (sl_cb v) (sl_delay v) (sl_max v) (sl_runs v) (sl_en v) DEFCALL_DONTRUN
    else
      mkSlot p (sl_cb v) (sl_delay v) (sl_max v) (sl_runs v) (sl_en v) DEFCALL_DONTRUN
  else
    mkSlot (sl_prev v) (sl_cb v) (sl_delay v) (sl_max v) (sl_runs v) (sl_en v) DEFCALL_DONTRUN.
Proof.
  intros H. unfold step_slot. apply Z.eqb_neq in H. rewrite H. reflexivity.
Qed.

(** The members of slot [i] after the first loop, from those before it. *)
Lemma evaluate_slot now s i :
  wf s -> (i < NSLOTS)%nat ->
  prev_millis (evaluate now s) !!! i = sl_prev (step_slot now (view s i)) /\
  numRuns (evaluate now s) !!! i = sl_runs (step_slot now (view s i)) /\
  toBeCalled (evaluate now s) !!! i = sl_tbc (step_slot now (view s i)).
Proof.
  intros Hwf Hi.
  rewrite <- view_prev, <- view_runs, <- view_tbc, view_evaluate by assumption.
  auto.
Qed.

Lemma enable_in_range i s :
  (i < NSLOTS)%nat -> enable (Z.of_nat i) s = Some (set_enabled i true s).
Proof.
  intros Hi. unfold enable. pose proof NSLOTS_MAX.
  destruct (Z.of_nat i >=? MAX_TIMERS) eqn:E1; [lia|].
  destruct (Z.of_nat i <? 0) eqn:E2; [lia|]. rewrite Nat2Z.id. reflexivity.
Qed.

Lemma view_set_enabled i b s :
  wf s -> (i < NSLOTS)%nat ->
  view (set_enabled i b s) i =
  mkSlot (prev_millis s !!! i) (callbacks s !!! i) (delays s !!! i)
         (maxNumRuns s !!! i) (numRuns s !!! i) b (toBeCalled s !!! i).
Proof.
  intros Hwf Hi. wf_split Hwf. unfold view. setters. lookups. reflexivity.
Qed.

Lemma Inv_set_enabled i b s : (i < NSLOTS)%nat -> Inv s -> Inv (set_enabled i b s).
Proof.
  intros Hi HI. eapply Inv_effect; [|exact HI].
  apply (eff_enable True (fun _ => True) (fun _ => True)); auto.
Qed.

(** * Decisions of the first loop and callbacks of the second *)

(** C1, the claim as stated fails: at tick 1000 the first loop decides a call
    for slots 0 and 1; the callback of slot 0 deletes slot 1, and the call
    decided for slot 1 is not made. *)
Lemma deleting_callback_cancels_decided_call :
  toBeCalled (evaluate 1000 two_due) !!! 0%nat = DEFCALL_RUNONLY /\
  toBeCalled (evaluate 1000 two_due) !!! 1%nat = DEFCALL_RUNONLY /\
  exists s', run deleter 1000 two_due = Some (s', [Fired 0 11]) /\
             fires 1 [Fired 0 11] = 0%nat.
Proof.
  split; [vm_compute; reflexivity|]. split; [vm_compute; reflexivity|].
  eexists. split; vm_compute; reflexivity.
Qed.

(** C1, amended.  All decisions are taken by the first loop, before any
    callback runs: a slot whose decision was [DEFCALL_DONTRUN] is neither
    called nor deleted in that pass whatever the callbacks do; a slot [i] for
    which a call (and deletion) was decided gets exactly that, with the
    callback it held, whatever the callbacks of the pass do to it (restart,
    enable, disable, toggle, new registrations) as long as none of them
    calls [deleteTimer(i)], which withdraws the decision. *)
Theorem decided_call_made_unless_deleted :
  (forall env now s i,
     Inv s -> (i < NSLOTS)%nat ->
     (forall f, body_all (fun c => call_in_bounds c /\ call_spares i c) (env f)) ->
     toBeCalled (evaluate now s) !!! i <> DEFCALL_DONTRUN ->
     callbacks s !!! i <> NULL /\
     exists s' t1 t3,
       run env now s =
         Some (s', t1 ++ slot_events (toBeCalled (evaluate now s) !!! i) i
                                     (callbacks s !!! i) ++ t3) /\
       fires i t1 = 0%nat /\ deletions i t1 = 0%nat /\
       fires i t3 = 0%nat /\ deletions i t3 = 0%nat) /\
  (forall env now s i s' tr,
     (i < NSLOTS)%nat ->
     toBeCalled (evaluate now s) !!! i = DEFCALL_DONTRUN ->
     run env now s = Some (s', tr) ->
     fires i tr = 0%nat /\ deletions i tr = 0%nat).
Proof.
  split.
  - intros env now s i HI Hi Henv Ha.
    destruct (run_armed_slot env now s i HI Hi Henv Ha)
      as (Hcb & s' & t1 & t3 & E & H1 & H2 & H3 & H4 & _).
    split; [exact Hcb|]. exists s', t1, t3. auto.
  - intros env now s i s' tr Hi Hz H. eapply run_idle_slot; eauto.
Qed.

Lemma meddler_spares_slot_1 f :
  body_all (fun c => call_in_bounds c /\ call_spares 1 c) (meddler f).
Proof.
  unfold meddler. destruct (f =? 11); cbn; [|exact I].
  repeat split; lia.
Qed.

Lemma decided_call_made_unless_deleted_witness :
  exists s' t1 t3,
    run meddler 1000 two_due = Some (s', t1 ++ [Fired 1 12] ++ t3) /\
    fires 1 t1 = 0%nat /\ fires 1 t3 = 0%nat.
Proof.
  destruct decided_call_made_unless_deleted as (Hmade & _).
  destruct (Hmade meddler 1000 two_due 1%nat)
    as (_ & s' & t1 & t3 & E & H1 & _ & H3 & _).
  - vm_compute. repeat split; discriminate.
  - vm_compute. lia.
  - exact meddler_spares_slot_1.
  - vm_compute. discriminate.
  - exists s', t1, t3. split; [|split; assumption].
    etransitivity; [exact E|]. f_equal.
Defined.

Lemma avoids_spares i c : call_avoids i c -> call_spares i c.
Proof. destruct c; cbn; auto. Qed.

Lemma fires_slot_events a i f :
  a <> DEFCALL_DONTRUN ->
  a = DEFCALL_DONTRUN \/ a = DEFCALL_RUNONLY \/ a = DEFCALL_RUNANDDEL ->
  fires i (slot_events a i f) = 1%nat.
Proof.
  intros Hne [H|[->| ->]]; [contradiction| |];
    unfold slot_events; cbn; rewrite Nat.eqb_refl; reflexivity.
Qed.

Lemma ULONG_MODULUS_pos : 0 < ULONG_MODULUS.
Proof. reflexivity. Qed.

Lemma to_ulong_small x : 0 <= x < ULONG_MODULUS -> to_ulong x = x.
Proof. intros H. unfold to_ulong. apply Z.mod_small. exact H. Qed.

Lemma ulong_sub_range a b : 0 <= ulong_sub a b < ULONG_MODULUS.
Proof. unfold ulong_sub, to_ulong. apply Z.mod_pos_bound. exact ULONG_MODULUS_pos. Qed.

(** Elapsed time against an advanced baseline, through an intermediate tick. *)
Lemma ulong_sub_advance now now' pm p :
  ulong_sub now' (ulong_add pm p) =
  to_ulong (ulong_sub now' now + ulong_sub now pm - p).
Proof.
  unfold ulong_sub, ulong_add, to_ulong.
  rewrite Zminus_mod_idemp_r.
  rewrite <- (Zminus_mod_idemp_l (_ + _) p).
  rewrite <- Zplus_mod. rewrite Zminus_mod_idemp_l.
  f_equal. ring.
Qed.

(** The decision of the first loop for a slot in use, enabled and due. *)
Lemma step_slot_due now v :
  sl_cb v <> NULL -> is_due now (sl_prev v) (sl_delay v) = true ->
  sl_prev (step_slot now v) = ulong_add (sl_prev v) (sl_delay v) /\
  (sl_en v = true ->
   (sl_max v = RUN_FOREVER \/ sl_runs v < sl_max v) ->
   sl_tbc (step_slot now v) <> DEFCALL_DONTRUN) /\
  (sl_en v = false -> sl_tbc (step_slot now v) = DEFCALL_DONTRUN).
Proof.
  intros Hcb Hdue. rewrite step_slot_in_use by exact Hcb. rewrite Hdue. cbv zeta.
  destruct (sl_en v) eqn:Een.
  - destruct (sl_max v =? RUN_FOREVER) eqn:Emx; cbn [sl_prev sl_tbc].
    + split; [reflexivity|]. split; [intros; discriminate|discriminate].
    + destruct (sl_runs v <? sl_max v) eqn:Elt; cbn [sl_prev sl_tbc].
      * split; [reflexivity|]. split; [|discriminate]. intros _ _.
        destruct (sl_runs v + 1 >=? sl_max v); discriminate.
      * split; [reflexivity|]. split; [|discriminate]. intros _ [H|H]; lia.
  - cbn [sl_prev sl_tbc]. split; [reflexivity|]. split; [discriminate|reflexivity].
Qed.

Lemma step_slot_not_due now v :
  is_due now (sl_prev v) (sl_delay v) = false ->
  sl_prev (step_slot now v) = sl_prev v /\
  sl_tbc (step_slot now v) = DEFCALL_DONTRUN.
Proof.
  intros Hdue. unfold step_slot. rewrite Hdue.
  destruct (sl_cb v =? NULL); cbn [sl_prev sl_tbc]; auto.
Qed.

(** The first loop changes neither presence, period nor enabling of a slot. *)
Lemma step_slot_static now v :
  sl_cb (step_slot now v) = sl_cb v /\
  sl_delay (step_slot now v) = sl_delay v /\
  sl_max (step_slot now v) = sl_max v /\
  sl_en (step_slot now v) = sl_en v.
Proof.
  unfold step_slot.
  repeat match goal with
         | |- context [if ?b then _ else _] => destruct b
         end; cbn; auto.
Qed.

(** A pass calls a slot at most once, whatever the callbacks do. *)
Lemma run_fires_le_1 env now s i s' tr :
  (i < NSLOTS)%nat -> run env now s = Some (s', tr) -> (fires i tr <= 1)%nat.
Proof.
  intros Hi H. rewrite (run_split env now s i Hi) in H.
  destruct (act env (seq 0 i) (evaluate now s)) as [[s1 t1]|] eqn:E1; [|discriminate].
  destruct (act_slot env i s1) as [[s2 ev]|] eqn:E2; [|discriminate].
  destruct (act env (seq (S i) (NSLOTS - S i)) s2) as [[s3 t3]|] eqn:E3; [|discriminate].
  inversion H; subst.
  destruct (act_trace_outside env i _ _ _ _ E1) as (H1 & _);
    [apply not_In_seq; lia|].
  destruct (act_trace_outside env i _ _ _ _ E3) as (H3 & _);
    [apply not_In_seq; lia|].
  rewrite !fires_app, H1, H3.
  destruct (act_slot_cases env i s1 s2 ev E2)
    as [(-> & _)|[(-> & _)|(-> & _)]]; cbn [fires]; rewrite ?Nat.eqb_refl; lia.
Qed.

Lemma body_all_and (P P' : api_call -> Prop) b :
  body_all P b -> body_all P' b -> body_all (fun c => P c /\ P' c) b.
Proof.
  induction b as [|c k IH]; cbn [body_all]; [auto|].
  intros [Hc Hk] [Hc' Hk']. split; [auto|]. intros r. apply IH; auto.
Qed.

(** * Disabled slots *)

(** C8. A slot in use that is disabled when [run()] is entered is not called
    in that pass, whatever the callbacks do.  The first loop still advances
    its baseline: with [elapsed = (now - baseline) mod 2^32] and the delay
    converted to [unsigned long], the baseline becomes
    [(baseline + delay) mod 2^32] if a full period has elapsed and stays as it
    is otherwise (and the slot ends the pass so, still disabled, if no callback
    addresses it).  Enabling a slot and polling before a full period has
    elapsed since its baseline does not call it; it is called if the period
    has elapsed (and it runs forever or has runs left, and no callback deletes
    it first). *)
Theorem disabled_slot_not_called env now s i :
  Inv s -> (i < NSLOTS)%nat ->
  (forall f, body_all call_in_bounds (env f)) ->
  callbacks s !!! i <> NULL ->
  let pm := prev_millis s !!! i in
  let d := delays s !!! i in
  let elapsed := (now - pm) mod 2 ^ 32 in
  let period := d mod 2 ^ 32 in
  let pm' := if period <=? elapsed then (pm + d) mod 2 ^ 32 else pm in
  (enabled s !!! i = false ->
   prev_millis (evaluate now s) !!! i = pm' /\
   exists s' tr,
     run env now s = Some (s', tr) /\ fires i tr = 0%nat /\
     ((forall f, body_all (call_avoids i) (env f)) ->
      enabled s' !!! i = false /\ prev_millis s' !!! i = pm')) /\
  (exists s1,
     enable (Z.of_nat i) s = Some s1 /\
     (elapsed < period ->
      exists s' tr, run env now s1 = Some (s', tr) /\ fires i tr = 0%nat) /\
     (period <= elapsed ->
      (maxNumRuns s !!! i = RUN_FOREVER \/ numRuns s !!! i < maxNumRuns s !!! i) ->
      (forall f, body_all (call_spares i) (env f)) ->
      exists s' tr, run env now s1 = Some (s', tr) /\ fires i tr = 1%nat)).
Proof.
  intros HI Hi Henv Hcb pm d elapsed period pm'. pose proof HI as [Hwf Hc].
  assert (Hdec : is_due now pm d = (period <=? elapsed)).
  { unfold is_due, ulong_sub, to_ulong. rewrite Z.geb_leb. reflexivity. }
  assert (Hadd : ulong_add pm d = (pm + d) mod 2 ^ 32) by reflexivity.
  split.
  - intros Hen.
    destruct (evaluate_slot now s i Hwf Hi) as (Epm & _ & Etbc).
    assert (Hstep : sl_prev (step_slot now (view s i)) = pm' /\
                    sl_tbc (step_slot now (view s i)) = DEFCALL_DONTRUN).
    { unfold pm'. rewrite <- Hdec, <- Hadd. destruct (is_due now pm d) eqn:Hdue.
      - destruct (step_slot_due now (view s i)) as (Hp & _ & Hz);
          [rewrite view_cb; exact Hcb | exact Hdue |].
        split; [exact Hp | apply Hz; rewrite view_en; exact Hen].
      - apply step_slot_not_due. exact Hdue. }
    destruct Hstep as [Hp Hz]. rewrite Hp in Epm. rewrite Hz in Etbc.
    split; [exact Epm|].
    destruct (run_defined env now s HI Henv) as (s' & tr & E & _).
    exists s', tr. split; [exact E|].
    split; [apply (run_idle_slot env now s i s' tr Hi Etbc E)|].
    intros Hav.
    assert (Hnd : toBeCalled (evaluate now s) !!! i <> DEFCALL_RUNANDDEL)
      by (rewrite Etbc; discriminate).
    pose proof (run_slot_view env now s i s' tr Hwf Hi Hav Hcb Hnd E) as Hv.
    apply view_eq in Hv. destruct Hv as (V1 & _ & _ & _ & _ & V6 & _).
    rewrite V1, V6, enabled_evaluate. auto.
  - exists (set_enabled i true s). split; [apply enable_in_range; exact Hi|].
    pose proof (Inv_set_enabled i true s Hi HI) as HI1.
    pose proof (view_set_enabled i true s Hwf Hi) as Hv1.
    destruct (evaluate_slot now (set_enabled i true s) i (proj1 HI1) Hi)
      as (_ & _ & Etbc).
    assert (Hfields : sl_cb (view (set_enabled i true s) i) = callbacks s !!! i /\
                      sl_prev (view (set_enabled i true s) i) = pm /\
                      sl_delay (view (set_enabled i true s) i) = d /\
                      sl_en (view (set_enabled i true s) i) = true /\
                      sl_max (view (set_enabled i true s) i) = maxNumRuns s !!! i /\
                      sl_runs (view (set_enabled i true s) i) = numRuns s !!! i).
    { rewrite Hv1. cbn. auto 10. }
    destruct Hfields as (F1 & F2 & F3 & F4 & F5 & F6).
    split.
    + intros Hearly.
      assert (Hdue : is_due now pm d = false) by (rewrite Hdec; lia).
      destruct (step_slot_not_due now (view (set_enabled i true s) i)) as (_ & Hz);
        [rewrite F2, F3; exact Hdue|].
      rewrite Hz in Etbc.
      destruct (run_defined env now _ HI1 Henv) as (s' & tr & E & _).
      exists s', tr. split; [exact E|].
      apply (run_idle_slot env now _ i s' tr Hi Etbc E).
    + intros Hlate Hleft Hsp.
      assert (Hdue : is_due now pm d = true) by (rewrite Hdec; lia).
      destruct (step_slot_due now (view (set_enabled i true s) i))
        as (_ & Harm & _);
        [rewrite F1; exact Hcb | rewrite F2, F3; exact Hdue |].
      rewrite F5, F6 in Harm.
      specialize (Harm F4 Hleft). rewrite <- Etbc in Harm.
      destruct (run_armed_slot env now _ i HI1 Hi
                  (fun f => body_all_and _ _ _ (Henv f) (Hsp f)) Harm)
        as (_ & s' & t1 & t3 & E & H1 & _ & H3 & _ & _).
      eexists _, _. split; [exact E|].
      rewrite !fires_app, H1, H3, fires_slot_events; [reflexivity|exact Harm|].
      apply toBeCalled_evaluate_range; [apply HI1|exact Hi].
Qed.

Lemma disabled_slot_not_called_witness :
  prev_millis (evaluate 150 disabled_timer) !!! 0%nat = 140 /\
  prev_millis (evaluate 139 disabled_timer) !!! 0%nat = 40 /\
  (exists s' tr, run passive 150 disabled_timer = Some (s', tr) /\
                 fires 0 tr = 0%nat /\ prev_millis s' !!! 0%nat = 140) /\
  (exists s1, enable 0 disabled_timer = Some s1 /\
              (exists s' tr, run passive 139 s1 = Some (s', tr) /\ fires 0 tr = 0%nat) /\
              (exists s' tr, run passive 150 s1 = Some (s', tr) /\ fires 0 tr = 1%nat)).
Proof.
  assert (HI : Inv disabled_timer) by (vm_compute; repeat split; discriminate).
  assert (Hi : (0 < NSLOTS)%nat) by (vm_compute; lia).
  assert (Hcb : callbacks disabled_timer !!! 0%nat <> NULL) by (vm_compute; discriminate).
  assert (Hen : enabled disabled_timer !!! 0%nat = false) by (vm_compute; reflexivity).
  destruct (disabled_slot_not_called passive 150 disabled_timer 0 HI Hi (fun f => I) Hcb)
    as (Hdis & s1 & E1 & _ & Hlate).
  destruct (disabled_slot_not_called passive 139 disabled_timer 0 HI Hi (fun f => I) Hcb)
    as (Hdis' & s1' & E1' & Hearly & _).
  destruct (Hdis Hen) as (Hpm & s' & tr & E & Hf & Hend).
  destruct (Hdis' Hen) as (Hpm' & _).
  destruct (Hend (fun f => I)) as (_ & Hpe).
  split; [etransitivity; [exact Hpm|vm_compute; reflexivity]|].
  split; [etransitivity; [exact Hpm'|vm_compute; reflexivity]|].
  split.
  - exists s', tr. split; [exact E|]. split; [exact Hf|].
    etransitivity; [exact Hpe|vm_compute; reflexivity].
  - exists s1. split; [exact E1|]. split.
    + rewrite E1 in E1'. injection E1' as <-. apply Hearly. vm_compute. reflexivity.
    + apply Hlate; [vm_compute; discriminate|left; vm_compute; reflexivity|intros f; exact I].
Defined.

(** * A negative run limit *)

Lemma run_stuck env now s i f n :
  (i < NSLOTS)%nat -> f <> NULL -> n < 0 ->
  (forall f', body_all (fun c => call_in_bounds c /\ call_spares i c) (env f')) ->
  stuck i f n s ->
  exists s' tr, run env now s = Some (s', tr) /\
                fires i tr = 0%nat /\ deletions i tr = 0%nat /\ stuck i f n s'.
Proof.
  intros Hi Hf Hn Henv (HI & Hcb & Hmx & Hnr).
  pose proof HI as [Hwf Hc].
  destruct (evaluate_slot now s i Hwf Hi) as (_ & Eruns & Etbc).
  assert (Hstep : sl_runs (step_slot now (view s i)) = 0 /\
                  sl_tbc (step_slot now (view s i)) = DEFCALL_DONTRUN).
  { rewrite step_slot_in_use by (rewrite view_cb, Hcb; exact Hf).
    rewrite view_max, view_runs, Hmx, Hnr.
    destruct (is_due _ _ _); cbv zeta; [|auto].
    destruct (sl_en (view s i)); [|auto].
    destruct (n =? RUN_FOREVER) eqn:E1; [unfold RUN_FOREVER in E1; lia|].
    destruct (0 <? n) eqn:E2; [lia|]. auto. }
  destruct Hstep as [Hr Hz]. rewrite Hr in Eruns. rewrite Hz in Etbc.
  assert (Hib : forall f', body_all call_in_bounds (env f')).
  { intros f'. eapply body_all_impl; [|apply Henv]. intros c [Hb _]. exact Hb. }
  destruct (run_defined env now s HI Hib) as (s' & tr & E & HI').
  destruct (run_idle_slot env now s i s' tr Hi Etbc E) as (Hfi & Hde).
  exists s', tr. split; [exact E|]. split; [exact Hfi|]. split; [exact Hde|].
  (* the second loop keeps the slot *)
  pose proof (Base_evaluate now s HI) as HB0.
  pose proof (callbacks_evaluate now s) as Hcbs.
  pose proof (maxNumRuns_evaluate now s) as Hmxs.
  rewrite run_eq in E.
  revert HB0 Hcbs Hmxs Eruns Etbc E. generalize (evaluate now s).
  intros s0 HB0 Hcbs Hmxs Eruns Etbc E.
  set (P := fun c => call_in_bounds c /\ call_spares i c) in *.
  set (Q := fun x : SimpleTimer => Base x /\ kept x i = kept s0 i).
  assert (Hcb0 : callbacks s0 !!! i <> NULL) by (rewrite Hcbs, Hcb; exact Hf).
  assert (Qcb : forall x, Q x -> callbacks x !!! i <> NULL).
  { intros x [_ Hk]. apply kept_eq in Hk. destruct Hk as (Ek & _).
    rewrite Ek. exact Hcb0. }
  assert (HQ' : Q s').
  { eapply (act_keeps env P Q (fun j => True)); [exact Henv| | | | |exact E].
    - intros c x y r [_ Hs] Hx Ec. split; [eapply Base_call; [apply Hx|exact Ec]|].
      rewrite (kept_call c x y r i Ec Hs (Qcb x Hx)). apply Hx.
    - intros j x0 x y _ Hx0 Htb Hx Ed.
      destruct (Nat.eq_dec j i) as [->|Hne].
      + exfalso. destruct Hx0 as [_ Hk]. apply kept_eq in Hk.
        destruct Hk as (_ & Ek & _). rewrite Ek, Etbc in Htb. discriminate.
      + split; [eapply Base_delete; [apply Hx|exact Ed]|].
        rewrite (kept_delete j x y i Ed Hne (Qcb x Hx)). apply Hx.
    - apply Forall_forall. auto.
    - split; [exact HB0|reflexivity]. }
  destruct HQ' as [_ Hk]. apply kept_eq in Hk.
  destruct Hk as (K1 & _ & _ & K4 & K5).
  split; [exact HI'|]. rewrite K1, K4, K5, Hcbs, Hmxs. auto.
Qed.

Lemma run_all_stuck env i f n :
  (i < NSLOTS)%nat -> f <> NULL -> n < 0 ->
  (forall f', body_all (fun c => call_in_bounds c /\ call_spares i c) (env f')) ->
  forall ticks s, stuck i f n s ->
  exists s' tr, run_all env ticks s = Some (s', tr) /\
                fires i tr = 0%nat /\ deletions i tr = 0%nat /\ stuck i f n s'.
Proof.
  intros Hi Hf Hn Henv ticks.
  induction ticks as [|t ticks IH]; intros s Hs; cbn [run_all].
  - exists s, []. auto.
  - destruct (run_stuck env t s i f n Hi Hf Hn Henv Hs)
      as (s1 & tr1 & E1 & Hf1 & Hd1 & Hs1).
    rewrite E1.
    destruct (IH s1 Hs1) as (s2 & tr2 & E2 & Hf2 & Hd2 & Hs2).
    rewrite E2. exists s2, (tr1 ++ tr2).
    rewrite fires_app, deletions_app, Hf1, Hf2, Hd1, Hd2. auto.
Qed.

(** C10. With a free slot, a callback and a negative run limit [n],
    [setTimer] succeeds; whatever polls follow and whatever the callbacks do
    short of calling [deleteTimer] on that slot, the slot's callback is never
    called and [run()] never deletes the slot: it stays in use, counted in
    [numTimers]. *)
Theorem negative_run_limit_never_fires t d f n s j :
  reachable s -> n < 0 -> f <> NULL ->
  (j < NSLOTS)%nat -> callbacks s !!! j = NULL ->
  exists s1 i,
    setTimer t d f n s = (s1, Z.of_nat i) /\ (i < NSLOTS)%nat /\
    forall env ticks,
      (forall f', body_all (fun c => call_in_bounds c /\ call_spares i c) (env f')) ->
      exists s' tr,
        run_all env ticks s1 = Some (s', tr) /\
        fires i tr = 0%nat /\ deletions i tr = 0%nat /\
        callbacks s' !!! i = f /\ 0 < numTimers s'.
Proof.
  intros Hr Hn Hf Hj Hz.
  pose proof (reachable_Inv s Hr) as HI.
  destruct (reachable_Clean s Hr) as [Hwf Hfc].
  destruct (setTimer_succeeds t d f n s j HI Hj Hz Hf) as (i & Hle & Hzi & _ & E).
  assert (Hi : (i < NSLOTS)%nat) by lia.
  exists (registered i t d f n s), i. split; [exact E|]. split; [exact Hi|].
  assert (Hs1 : stuck i f n (registered i t d f n s)).
  { split.
    - eapply Inv_call with (c := CallSetTimer t d f n); [exact HI|].
      cbn [exec_call]. rewrite E. reflexivity.
    - pose proof (view_registered i t d f n s Hwf Hi) as Hv.
      rewrite <- view_cb, <- view_max, <- view_runs, Hv. cbn.
      split; [reflexivity|]. split; [reflexivity|]. apply Hfc; assumption. }
  intros env ticks Henv.
  destruct (run_all_stuck env i f n Hi Hf Hn Henv ticks _ Hs1)
    as (s' & tr & Er & Hfi & Hde & (HI' & Hcb' & _)).
  exists s', tr. split; [exact Er|]. split; [exact Hfi|]. split; [exact Hde|].
  split; [exact Hcb'|].
  destruct HI' as [Hwf' [Hc' _]]. rewrite Hc'.
  assert ((0 < in_use_count (callbacks s'))%nat); [|lia].
  apply (in_use_count_pos _ i); [destruct Hwf' as (_ & L & _); lia|].
  rewrite Hcb'. exact Hf.
Qed.

Lemma negative_run_limit_never_fires_witness :
  exists s1, setTimer 0 100 21 (-3) fresh = (s1, 0) /\
    exists s' tr, run_all passive [100; 200; 300; 400; 500] s1 = Some (s', tr) /\
                  fires 0 tr = 0%nat /\ callbacks s' !!! 0%nat = 21.
Proof.
  destruct (negative_run_limit_never_fires 0 100 21 (-3) fresh 0 reachable_fresh)
    as (s1 & i & E & Hi & Hrun).
  - lia.
  - discriminate.
  - vm_compute. lia.
  - vm_compute. reflexivity.
  - assert (Hi0 : i = 0%nat).
    { assert (H : snd (setTimer 0 100 21 (-3) fresh) = 0) by (vm_compute; reflexivity).
      rewrite E in H. cbn [snd] in H. lia. }
    subst i. exists s1. split; [exact E|].
    destruct (Hrun passive [100; 200; 300; 400; 500] (fun f => I))
      as (s' & tr & Er & Hf & _ & Hcb & _).
    exists s', tr. auto.
Defined.

(** * Bounded timers *)

(** Without registrations a free slot stays free. *)
Lemma free_effect (D W : nat -> Prop) s s' i :
  effect False D W s s' -> callbacks s !!! i = NULL -> callbacks s' !!! i = NULL.
Proof.
  intros H Hz.
  destruct H as [|j t d f n Hr _ _ _ _|j _ Hj Hnz _|j t _ Hj|j b _ Hj];
    unfold cleared; setters; auto; [contradiction|].
  assert (j <> i) by congruence. lookups. exact Hz.
Qed.

Lemma free_call c s s' r i :
  call_no_register c -> exec_call c s = Some (s', r) ->
  callbacks s !!! i = NULL -> callbacks s' !!! i = NULL.
Proof.
  intros Hc E Hz. eapply free_effect; [|exact Hz].
  eapply effect_mono; [| | |eapply exec_call_effect; exact E].
  - intros H. apply H. exact Hc.
  - intros j H. exact H.
  - intros j H. exact H.
Qed.

Lemma free_delete j s s' i :
  deleteTimer j s = Some s' ->
  callbacks s !!! i = NULL -> callbacks s' !!! i = NULL.
Proof.
  intros E Hz. eapply free_effect; [|exact Hz]. eapply deleteTimer_effect; exact E.
Qed.

Section Quiet.

Variable env : Z -> callback_body.
Variable i : nat.
Hypothesis Hi : (i < NSLOTS)%nat.
Hypothesis env_quiet : forall f, body_all (call_quiet i) (env f).

Lemma env_in_bounds f : body_all call_in_bounds (env f).
Proof. eapply body_all_impl; [|apply env_quiet]. intros c H. apply H. Qed.

Lemma env_avoids f : body_all (call_avoids i) (env f).
Proof. eapply body_all_impl; [|apply env_quiet]. intros c H. apply H. Qed.

Lemma env_no_register f : body_all call_no_register (env f).
Proof. eapply body_all_impl; [|apply env_quiet]. intros c H. apply H. Qed.

Lemma env_spares f : body_all (fun c => call_in_bounds c /\ call_spares i c) (env f).
Proof.
  eapply body_all_impl; [|apply env_quiet].
  intros c (Hb & Ha & _). split; [exact Hb|apply avoids_spares; exact Ha].
Qed.

(** The second loop over any slots keeps a free slot free. *)
Lemma act_keeps_free idx s s' tr :
  callbacks s !!! i = NULL -> act env idx s = Some (s', tr) ->
  callbacks s' !!! i = NULL.
Proof.
  intros Hz E.
  eapply (act_keeps env call_no_register
            (fun x => callbacks x !!! i = NULL) (fun _ => True));
    [exact env_no_register| | | |exact Hz|exact E].
  - intros c x y r Hc Hx Ec. eapply free_call; eauto.
  - intros j x0 x y _ _ _ Hx Ed. eapply free_delete; eauto.
  - apply Forall_forall. auto.
Qed.

(** A pass in which the slot is deleted after its call leaves it free. *)
Lemma run_slot_deleted now s s' tr :
  Inv s -> toBeCalled (evaluate now s) !!! i = DEFCALL_RUNANDDEL ->
  run env now s = Some (s', tr) -> callbacks s' !!! i = NULL.
Proof.
  intros HI Ha H. rewrite (run_split env now s i Hi) in H.
  pose proof (Base_evaluate now s HI) as HB0.
  assert (Hcb0 : callbacks (evaluate now s) !!! i <> NULL).
  { apply HB0; [exact Hi|]. rewrite Ha. discriminate. }
  revert HB0 Hcb0 Ha H. generalize (evaluate now s). intros s0 HB0 Hcb0 Ha H.
  set (Q := fun x : SimpleTimer => Base x /\ view x i = view s0 i).
  assert (Qcb : forall x, Q x -> callbacks x !!! i <> NULL).
  { intros x [_ Hx]. apply view_eq in Hx. destruct Hx as (_ & E & _).
    rewrite E. exact Hcb0. }
  assert (HcallQ : forall c x y r, call_avoids i c -> Q x ->
                     exec_call c x = Some (y, r) -> Q y).
  { intros c x y r Hc Hx E. split; [eapply Base_call; [apply Hx|exact E]|].
    rewrite (view_call c x y r i E Hc (or_introl (Qcb x Hx))). apply Hx. }
  assert (HdelQ : forall j x y, j <> i -> Q x ->
                    deleteTimer (Z.of_nat j) x = Some y -> Q y).
  { intros j x y Hj Hx E. split; [eapply Base_delete; [apply Hx|exact E]|].
    rewrite (view_delete j x y i E Hj). apply Hx. }
  assert (Hbefore : (i < 0 \/ 0 + i <= i)%nat) by lia.
  destruct (act env (seq 0 i) s0) as [[s1 t1]|] eqn:E1; [|discriminate].
  destruct (act_elsewhere_keeps env (call_avoids i) Q i env_avoids HcallQ HdelQ
              0 i s0 s1 t1 Hbefore (conj HB0 eq_refl) E1) as (HQ1 & _ & _).
  destruct (act_slot env i s1) as [[s2 ev]|] eqn:E2; [|discriminate].
  destruct (act env (seq (S i) (NSLOTS - S i)) s2) as [[s3 t3]|] eqn:E3;
    [|discriminate].
  inversion H; subst s3 tr.
  eapply act_keeps_free; [|exact E3].
  assert (Ht1 : toBeCalled s1 !!! i = DEFCALL_RUNANDDEL).
  { destruct HQ1 as [_ Hv]. apply view_eq in Hv.
    destruct Hv as (_ & _ & _ & _ & _ & _ & E). rewrite E. exact Ha. }
  destruct (act_slot_cases env i s1 s2 ev E2)
    as [(_ & _ & _ & Hn)|[(_ & Ht & _)|(_ & _ & x & Hc & Hd)]].
  - contradiction.
  - rewrite Ht1 in Ht. discriminate.
  - pose proof (call_callback_keeps env (call_avoids i) Q env_avoids HcallQ
                  i s1 x HQ1 Hc) as HQx.
    rewrite (deleteTimer_in_use i x (Base_Inv x (proj1 HQx)) Hi (Qcb x HQx)) in Hd.
    inversion Hd; subst s2.
    rewrite <- view_cb, view_cleared; [reflexivity|apply HQx|exact Hi].
Qed.

Variables f n p : Z.
Hypothesis Hf : f <> NULL.
Hypothesis Hn : 0 < n.

Lemma run_dead now s :
  dead i s ->
  exists s' tr, run env now s = Some (s', tr) /\
                fires i tr = 0%nat /\ deletions i tr = 0%nat /\ dead i s'.
Proof.
  intros [HI Hz].
  destruct (run_defined env now s HI env_in_bounds) as (s' & tr & E & HI').
  assert (Ha : toBeCalled (evaluate now s) !!! i = DEFCALL_DONTRUN).
  { rewrite <- view_tbc, view_evaluate by (try apply HI; exact Hi).
    rewrite step_slot_free by (rewrite view_cb; exact Hz). reflexivity. }
  destruct (run_idle_slot env now s i s' tr Hi Ha E) as (H1 & H2).
  exists s', tr. split; [exact E|]. split; [exact H1|]. split; [exact H2|].
  split; [exact HI'|]. rewrite run_eq in E.
  eapply act_keeps_free; [|exact E]. rewrite callbacks_evaluate. exact Hz.
Qed.

Lemma run_all_dead ticks : forall s,
  dead i s ->
  exists s' tr, run_all env ticks s = Some (s', tr) /\
                fires i tr = 0%nat /\ deletions i tr = 0%nat /\ dead i s'.
Proof.
  induction ticks as [|t ticks IH]; intros s Hs; cbn [run_all].
  - exists s, []. auto.
  - destruct (run_dead t s Hs) as (s1 & tr1 & E1 & Hf1 & Hd1 & Hs1). rewrite E1.
    destruct (IH s1 Hs1) as (s2 & tr2 & E2 & Hf2 & Hd2 & Hs2). rewrite E2.
    exists s2, (tr1 ++ tr2).
    rewrite fires_app, deletions_app, Hf1, Hf2, Hd1, Hd2. auto.
Qed.

(** The first loop on the live timer. *)
Lemma step_live now r pm s :
  live i f n p r pm s ->
  step_slot now (view s i) =
  if is_due now pm p then
    mkSlot (ulong_add pm p) f p n (r + 1) true
           (if r + 1 >=? n then DEFCALL_RUNANDDEL else DEFCALL_RUNONLY)
  else mkSlot pm f p n r true DEFCALL_DONTRUN.
Proof.
  intros (_ & Hr & Hv). rewrite Hv. rewrite step_slot_in_use by exact Hf.
  cbn [sl_prev sl_cb sl_delay sl_max sl_runs sl_en].
  destruct (is_due now pm p); [|reflexivity]. cbv zeta.
  destruct (n =? RUN_FOREVER) eqn:E1; [unfold RUN_FOREVER in E1; lia|].
  destruct (r <? n) eqn:E2; [reflexivity|lia].
Qed.

(** One pass over the live timer: not due, due with runs left after this
    one, or due for its last run. *)
Lemma run_live now r pm s :
  live i f n p r pm s ->
  exists s' tr,
    run env now s = Some (s', tr) /\
    if is_due now pm p then
      if r + 1 >=? n then
        (exists t1 t3, tr = t1 ++ Fired i f :: AutoDeleted i :: t3 /\
                       fires i t1 = 0%nat /\ deletions i t1 = 0%nat /\
                       fires i t3 = 0%nat /\ deletions i t3 = 0%nat) /\
        dead i s'
      else
        fires i tr = 1%nat /\ deletions i tr = 0%nat /\
        live i f n p (r + 1) (ulong_add pm p) s'
    else
      fires i tr = 0%nat /\ deletions i tr = 0%nat /\ live i f n p r pm s'.
Proof.
  intros Hl. pose proof Hl as (HI & Hr & Hv). pose proof HI as [Hwf Hc].
  assert (Hcb : callbacks s !!! i = f) by (rewrite <- view_cb, Hv; reflexivity).
  assert (Hcbn : callbacks s !!! i <> NULL) by (rewrite Hcb; exact Hf).
  pose proof (view_evaluate now s i Hwf Hi) as Hev.
  rewrite (step_live now r pm s Hl) in Hev.
  destruct (is_due now pm p) eqn:Hdue.
  - assert (Ha : toBeCalled (evaluate now s) !!! i =
                 if r + 1 >=? n then DEFCALL_RUNANDDEL else DEFCALL_RUNONLY)
      by (rewrite <- view_tbc, Hev; reflexivity).
    assert (Hnz : toBeCalled (evaluate now s) !!! i <> DEFCALL_DONTRUN)
      by (rewrite Ha; destruct (r + 1 >=? n); discriminate).
    destruct (run_armed_slot env now s i HI Hi env_spares Hnz)
      as (_ & s' & t1 & t3 & E & H1 & H2 & H3 & H4 & HI').
    exists s'. eexists. split; [exact E|].
    rewrite Hcb. rewrite Ha in E |- *.
    destruct (r + 1 >=? n) eqn:Elast.
    + split.
      * exists t1, t3. unfold slot_events. cbn. auto 10.
      * split; [exact HI'|]. eapply run_slot_deleted; [exact HI| |exact E].
        exact Ha.
    + unfold slot_events. cbn [Z.eqb DEFCALL_RUNONLY Pos.eqb].
      rewrite !fires_app, !deletions_app, H1, H2, H3, H4.
      cbn [fires deletions]. rewrite Nat.eqb_refl.
      split; [reflexivity|]. split; [reflexivity|].
      split; [exact HI'|]. split; [lia|].
      assert (Hnd : toBeCalled (evaluate now s) !!! i <> DEFCALL_RUNANDDEL)
        by (rewrite Ha; discriminate).
      pose proof (run_slot_view env now s i s' _ Hwf Hi env_avoids Hcbn Hnd E) as V.
      rewrite V, Hev. f_equal.
      apply view_eq in V. destruct V as (_ & _ & _ & _ & _ & _ & V7).
      rewrite V7, Ha. reflexivity.
  - assert (Ha : toBeCalled (evaluate now s) !!! i = DEFCALL_DONTRUN)
      by (rewrite <- view_tbc, Hev; reflexivity).
    destruct (run_defined env now s HI env_in_bounds) as (s' & tr & E & HI').
    destruct (run_idle_slot env now s i s' tr Hi Ha E) as (H1 & H2).
    exists s', tr. split; [exact E|]. split; [exact H1|]. split; [exact H2|].
    split; [exact HI'|]. split; [exact Hr|].
    assert (Hnd : toBeCalled (evaluate now s) !!! i <> DEFCALL_RUNANDDEL)
      by (rewrite Ha; discriminate).
    pose proof (run_slot_view env now s i s' tr Hwf Hi env_avoids Hcbn Hnd E) as V.
    rewrite V, Hev. f_equal.
    apply view_eq in V. destruct V as (_ & _ & _ & _ & _ & _ & V7).
    rewrite V7, Ha. reflexivity.
Qed.

(** Any sequence of passes over the live timer. *)
Lemma run_all_live ticks : forall r pm s,
  live i f n p r pm s ->
  exists s' tr,
    run_all env ticks s = Some (s', tr) /\
    let k := Z.of_nat (due_count pm p ticks) in
    if k <? n - r then
      fires i tr = due_count pm p ticks /\ deletions i tr = 0%nat /\
      exists pm', live i f n p (r + k) pm' s'
    else
      (exists t1 t3, tr = t1 ++ Fired i f :: AutoDeleted i :: t3 /\
                     fires i t1 = Z.to_nat (n - r - 1) /\ deletions i t1 = 0%nat /\
                     fires i t3 = 0%nat /\ deletions i t3 = 0%nat) /\
      dead i s'.
Proof.
  induction ticks as [|t ticks IH]; intros r pm s Hl; cbn [run_all due_count].
  - exists s, []. split; [reflexivity|]. cbv zeta.
    pose proof Hl as (_ & Hr & _).
    destruct (Z.of_nat 0 <? n - r) eqn:E; [|lia].
    split; [reflexivity|]. split; [reflexivity|]. exists pm.
    replace (r + Z.of_nat 0) with r by lia. exact Hl.
  - pose proof Hl as (_ & Hr & _).
    destruct (run_live t r pm s Hl) as (s1 & tr1 & E1 & Hcase). rewrite E1.
    destruct (is_due t pm p) eqn:Hdue.
    + destruct (r + 1 >=? n) eqn:Elast.
      * destruct Hcase as [(t1 & t3 & -> & H1 & H2 & H3 & H4) Hd].
        destruct (run_all_dead ticks s1 Hd) as (s2 & tr2 & E2 & Hf2 & Hd2 & Hdead).
        rewrite E2. eexists _, _. split; [reflexivity|]. cbv zeta.
        destruct (Z.of_nat (S _) <? n - r) eqn:E; [lia|].
        split; [|exact Hdead].
        exists t1, (t3 ++ tr2). rewrite <- app_assoc. cbn [app].
        rewrite fires_app, deletions_app, H1, H2, H3, H4, Hf2, Hd2.
        split; [reflexivity|]. split; [lia|]. auto.
      * destruct Hcase as (H1 & H2 & Hl1).
        destruct (IH (r + 1) (ulong_add pm p) s1 Hl1) as (s2 & tr2 & E2 & Hrest).
        rewrite E2. eexists _, _. split; [reflexivity|]. cbv zeta in *.
        set (k := due_count (ulong_add pm p) p ticks) in *.
        destruct (Z.of_nat k <? n - (r + 1)) eqn:Ek.
        -- destruct Hrest as (Hf2 & Hd2 & pm' & Hl2).
           destruct (Z.of_nat (S k) <? n - r) eqn:E; [|lia].
           rewrite fires_app, deletions_app, H1, H2, Hf2, Hd2.
           split; [reflexivity|]. split; [reflexivity|]. exists pm'.
           replace (r + Z.of_nat (S k)) with (r + 1 + Z.of_nat k) by lia.
           exact Hl2.
        -- destruct Hrest as [(t1 & t3 & -> & G1 & G2 & G3 & G4) Hdead].
           destruct (Z.of_nat (S k) <? n - r) eqn:E; [lia|].
           split; [|exact Hdead].
           exists (tr1 ++ t1), t3. rewrite <- app_assoc.
           rewrite fires_app, deletions_app, H1, H2, G1, G2.
           split; [reflexivity|]. split; [lia|]. auto.
    + destruct Hcase as (H1 & H2 & Hl1).
      destruct (IH r pm s1 Hl1) as (s2 & tr2 & E2 & Hrest).
      rewrite E2. eexists _, _. split; [reflexivity|]. cbv zeta in *.
      destruct (Z.of_nat (due_count pm p ticks) <? n - r) eqn:Ek.
      * destruct Hrest as (Hf2 & Hd2 & pm' & Hl2).
        rewrite fires_app, deletions_app, H1, H2, Hf2, Hd2.
        split; [reflexivity|]. split; [reflexivity|]. exists pm'. exact Hl2.
      * destruct Hrest as [(t1 & t3 & -> & G1 & G2 & G3 & G4) Hdead].
        split; [|exact Hdead].
        exists (tr1 ++ t1), t3. rewrite <- app_assoc.
        rewrite fires_app, deletions_app, H1, H2, G1, G2. auto 10.
Qed.

End Quiet.

Lemma ulong_add_small a b : 0 <= a + b < ULONG_MODULUS -> ulong_add a b = a + b.
Proof. intros H. unfold ulong_add. apply to_ulong_small. exact H. Qed.

Lemma ascending_weaken from from' ticks :
  from' <= from -> ascending from ticks -> ascending from' ticks.
Proof. destruct ticks as [|t rest]; cbn [ascending]; [auto|]. intros H [H1 H2]. split; [lia|exact H2]. Qed.

Lemma late_count_bound bound ticks :
  late_count bound ticks <> 0%nat ->
  Forall (fun t => t < ULONG_MODULUS) ticks -> bound < ULONG_MODULUS.
Proof.
  induction ticks as [|t ticks IH]; cbn [late_count]; intros Hnz Hall; [lia|].
  inversion Hall; subst.
  destruct (bound <=? t) eqn:E; [lia|]. apply IH; [lia|assumption].
Qed.

(** Of polls at ascending ticks before the counter wraps, those made once
    [m] periods have passed since the baseline find the timer due, up to [m]
    times. *)
Lemma due_count_late p bound ticks : forall (m : nat) pm,
  0 <= p -> 0 <= pm -> pm + Z.of_nat m * p <= bound ->
  ascending pm ticks -> Forall (fun t => t < ULONG_MODULUS) ticks ->
  (Nat.min m (late_count bound ticks) <= due_count pm p ticks)%nat.
Proof.
  induction ticks as [|t ticks IH]; intros m pm Hp Hpm Hb Hasc Hall;
    cbn [due_count late_count].
  - lia.
  - destruct Hasc as [Hle Hasc]. inversion Hall as [|x l Ht Hrest]; subst.
    assert (Hsub : ulong_sub t pm = t - pm).
    { unfold ulong_sub. apply to_ulong_small. lia. }
    destruct m as [|m]; [lia|].
    assert (Hmp : 0 <= Z.of_nat m * p) by nia.
    destruct (is_due t pm p) eqn:Hdue.
    + (* due: the baseline advances, one run fewer is needed *)
      destruct (bound <=? t) eqn:Hlate.
      * assert (Hps : to_ulong p = p) by (apply to_ulong_small; lia).
        assert (Hadd : ulong_add pm p = pm + p) by (apply ulong_add_small; lia).
        rewrite Hadd.
        specialize (IH m (pm + p) Hp ltac:(lia) ltac:(lia)
                      (ascending_weaken t (pm + p) ticks ltac:(lia) Hasc) Hrest).
        lia.
      * destruct (Nat.eq_dec (late_count bound ticks) 0%nat) as [Hz|Hnz]; [lia|].
        (* some later poll is late, so the period is below the modulus *)
        pose proof (late_count_bound bound ticks Hnz Hrest) as Hbd.
        assert (Hps : to_ulong p = p) by (apply to_ulong_small; nia).
        assert (Hge : p <= t - pm) by (unfold is_due in Hdue; lia).
        assert (Hadd : ulong_add pm p = pm + p) by (apply ulong_add_small; lia).
        rewrite Hadd.
        specialize (IH m (pm + p) Hp ltac:(lia) ltac:(lia)
                      (ascending_weaken t (pm + p) ticks ltac:(lia) Hasc) Hrest).
        lia.
    + (* not due: the poll is early *)
      destruct (bound <=? t) eqn:Hlate.
      * exfalso. assert (Hps : to_ulong p = p) by (apply to_ulong_small; lia).
        unfold is_due in Hdue. lia.
      * specialize (IH (S m) pm Hp Hpm Hb
                      (ascending_weaken t pm ticks Hle Hasc) Hrest).
        lia.
Qed.

(** C2, the claim as stated fails: a single poll at tick 25, past [n * p = 20]
    ticks from registration, calls the timer once, not twice, and the slot
    is still in use. *)
Lemma single_late_poll_fires_once :
  2 * 10 < 25 /\
  exists s' tr, run_all passive [25] two_runs = Some (s', tr) /\
                fires 0 tr = 1%nat /\ callbacks s' !!! 0%nat <> NULL.
Proof.
  split; [lia|]. eexists _, _. split; [vm_compute; reflexivity|].
  split; [vm_compute; reflexivity|]. vm_compute. discriminate.
Qed.

(** C2, amended.  A timer registered with run limit [n > 0] is called once at
    each poll that finds it due, until it has been called [n] times: over any
    sequence of polls it is called [min n k] times, [k] the number of polls
    that find it due, so never more than [n] times.  Its [n]-th call is
    followed at once by its deletion and the slot is free from then on; before
    that the slot holds the timer with its run count.  In particular, of
    polls at ascending ticks before the counter wraps, [n] or more made
    [n * p] ticks or more after registration give exactly [n] calls.  The
    callbacks are assumed not to address the slot and not to register timers. *)
Theorem bounded_timer_calls t0 p f n s j :
  reachable s -> 0 < n -> f <> NULL ->
  (j < NSLOTS)%nat -> callbacks s !!! j = NULL ->
  exists s1 i,
    setTimer t0 p f n s = (s1, Z.of_nat i) /\ (i < NSLOTS)%nat /\
    forall env ticks,
      (forall f', body_all (call_quiet i) (env f')) ->
      exists s' tr,
        run_all env ticks s1 = Some (s', tr) /\
        let k := due_count t0 p ticks in
        fires i tr = Nat.min (Z.to_nat n) k /\
        ((k < Z.to_nat n)%nat ->
         deletions i tr = 0%nat /\ callbacks s' !!! i = f /\
         numRuns s' !!! i = Z.of_nat k) /\
        ((Z.to_nat n <= k)%nat ->
         (exists t1 t3, tr = t1 ++ Fired i f :: AutoDeleted i :: t3 /\
                        fires i t1 = (Z.to_nat n - 1)%nat /\ fires i t3 = 0%nat /\
                        deletions i t1 = 0%nat /\ deletions i t3 = 0%nat) /\
         callbacks s' !!! i = NULL) /\
        (0 <= p -> 0 <= t0 ->
         ascending t0 ticks -> Forall (fun t => t < ULONG_MODULUS) ticks ->
         (Z.to_nat n <= late_count (t0 + n * p) ticks)%nat ->
         fires i tr = Z.to_nat n /\ callbacks s' !!! i = NULL).
Proof.
  intros Hr Hn Hf Hj Hz.
  pose proof (reachable_Inv s Hr) as HI.
  destruct (reachable_Clean s Hr) as [Hwf Hfc].
  destruct (setTimer_succeeds t0 p f n s j HI Hj Hz Hf) as (i & Hle & Hzi & _ & E).
  assert (Hi : (i < NSLOTS)%nat) by lia.
  exists (registered i t0 p f n s), i. split; [exact E|]. split; [exact Hi|].
  assert (Hl : live i f n p 0 t0 (registered i t0 p f n s)).
  { split; [|split; [lia|]].
    - eapply Inv_call with (c := CallSetTimer t0 p f n); [exact HI|].
      cbn [exec_call]. rewrite E. reflexivity.
    - pose proof (view_registered i t0 p f n s Hwf Hi) as Hv.
      rewrite Hv. rewrite (Hfc i Hi Hzi). reflexivity. }
  intros env ticks Henv.
  destruct (run_all_live env i Hi Henv f n p Hf Hn ticks 0 t0 _ Hl)
    as (s' & tr & Er & Hcase).
  exists s', tr. split; [exact Er|]. cbv zeta in *.
  set (k := due_count t0 p ticks) in *.
  assert (Hmain :
    fires i tr = Nat.min (Z.to_nat n) k /\
    ((k < Z.to_nat n)%nat ->
     deletions i tr = 0%nat /\ callbacks s' !!! i = f /\
     numRuns s' !!! i = Z.of_nat k) /\
    ((Z.to_nat n <= k)%nat ->
     (exists t1 t3, tr = t1 ++ Fired i f :: AutoDeleted i :: t3 /\
                    fires i t1 = (Z.to_nat n - 1)%nat /\ fires i t3 = 0%nat /\
                    deletions i t1 = 0%nat /\ deletions i t3 = 0%nat) /\
     callbacks s' !!! i = NULL)).
  { destruct (Z.of_nat k <? n - 0) eqn:Ek.
    - destruct Hcase as (H1 & H2 & pm' & (_ & _ & Hv')).
      split; [lia|]. split; [|lia]. intros _.
      split; [exact H2|].
      rewrite <- view_cb, <- view_runs, Hv'. cbn. split; [reflexivity|lia].
    - destruct Hcase as [(t1 & t3 & -> & G1 & G2 & G3 & G4) [_ Hd]].
      split; [|split; [lia|]].
      + rewrite fires_app. cbn [fires]. rewrite Nat.eqb_refl, G1, G3. lia.
      + intros _. split; [|exact Hd].
        exists t1, t3. split; [reflexivity|]. split; [lia|]. auto. }
  destruct Hmain as (M1 & M2 & M3).
  split; [exact M1|]. split; [exact M2|]. split; [exact M3|].
  intros Hp Ht0 Hasc Hall Hlen.
  assert (Hk : (Z.to_nat n <= k)%nat).
  { pose proof (due_count_late p (t0 + n * p) ticks (Z.to_nat n) t0 Hp Ht0) as Hd.
    rewrite Z2Nat.id in Hd by lia. specialize (Hd ltac:(lia) Hasc Hall).
    unfold k. lia. }
  split; [lia|]. apply M3. exact Hk.
Qed.

Lemma bounded_timer_calls_witness :
  exists s1, setTimer 0 10 21 3 fresh = (s1, 0) /\
    exists s' tr, run_all passive [10; 20; 25; 30; 40] s1 = Some (s', tr) /\
                  fires 0 tr = 3%nat /\ callbacks s' !!! 0%nat = NULL.
Proof.
  destruct (bounded_timer_calls 0 10 21 3 fresh 0 reachable_fresh)
    as (s1 & i & E & Hi & Hrun).
  - lia.
  - discriminate.
  - vm_compute. lia.
  - vm_compute. reflexivity.
  - assert (Hi0 : i = 0%nat).
    { assert (H : snd (setTimer 0 10 21 3 fresh) = 0) by (vm_compute; reflexivity).
      rewrite E in H. cbn [snd] in H. lia. }
    subst i. exists s1. split; [exact E|].
    destruct (Hrun passive [10; 20; 25; 30; 40])
      as (s' & tr & Er & Hf & _ & Hfree & _).
    + intros f'. exact I.
    + exists s', tr. split; [exact Er|]. cbv zeta in *.
      split; [etransitivity; [exact Hf|vm_compute; reflexivity]|].
      apply Hfree. vm_compute. lia.
Defined.

(** * Further properties of the interface *)

Lemma free_count_in_use (l : list Z) :
  (free_count l + in_use_count l = length l)%nat.
Proof.
  induction l as [|a l IH]; cbn [free_count in_use_count length]; [reflexivity|].
  destruct (a =? NULL); lia.
Qed.

Lemma free_count_pos (l : list Z) :
  (0 < free_count l)%nat -> exists i, (i < length l)%nat /\ l !!! i = NULL.
Proof.
  induction l as [|a l IH]; cbn [free_count length]; intros H; [lia|].
  destruct (a =? NULL) eqn:E.
  - exists 0%nat. split; [lia|]. apply Z.eqb_eq in E. exact E.
  - destruct (IH ltac:(lia)) as (i & Hi & Hz). exists (S i). split; [lia|exact Hz].
Qed.

(** ** Rejected registrations *)

(** X1. On an object that satisfies the invariant, [setTimer] returns [-1]
    exactly when the callback is null or every slot is in use; whenever it
    returns [-1] the object is unchanged (a rejected registration consumes no
    slot), and otherwise the result is a valid index. *)
Theorem setTimer_rejection t d f n s :
  Inv s ->
  (snd (setTimer t d f n s) = -1 <->
   f = NULL \/ forall j, (j < NSLOTS)%nat -> callbacks s !!! j <> NULL) /\
  (snd (setTimer t d f n s) = -1 -> fst (setTimer t d f n s) = s) /\
  (snd (setTimer t d f n s) <> -1 -> 0 <= snd (setTimer t d f n s) < MAX_TIMERS).
Proof.
  intros HI. pose proof NSLOTS_MAX as HN.
  destruct (setTimer_spec t d f n s) as [E|(i & Hi & Hn & Hf & Hz & Hlow & E)];
    rewrite E; cbn [fst snd].
  - split; [|split; [reflexivity|congruence]].
    split; [intros _|reflexivity].
    destruct (Z.eq_dec f NULL) as [Hf|Hf]; [left; exact Hf|right].
    intros j Hj Hzj.
    destruct (setTimer_succeeds t d f n s j HI Hj Hzj Hf) as (k & _ & _ & _ & E').
    rewrite E in E'. inversion E'. lia.
  - split; [|split; [lia|lia]].
    split; [lia|]. intros [Hnull|Hall]; [contradiction|].
    exfalso. apply (Hall i Hi Hz).
Qed.

Lemma setTimer_rejection_witness :
  snd (setTimer 0 100 NULL 0 fresh) = -1 /\
  fst (setTimer 0 100 NULL 0 fresh) = fresh /\
  0 <= snd (setTimer 0 100 7 0 fresh) < MAX_TIMERS.
Proof.
  destruct (setTimer_rejection 0 100 NULL 0 fresh) as (H1 & H2 & _).
  { vm_compute. repeat split; discriminate. }
  destruct (setTimer_rejection 0 100 7 0 fresh) as (_ & _ & H3).
  { vm_compute. repeat split; discriminate. }
  assert (E : snd (setTimer 0 100 NULL 0 fresh) = -1)
    by (apply H1; left; reflexivity).
  split; [exact E|]. split; [apply H2; exact E|].
  apply H3. vm_compute. discriminate.
Defined.

(** ** Deleting twice *)

(** X2. [deleteTimer] is idempotent: deleting a timer that has just been
    deleted (or any index on which a deletion has been made) leaves the object
    exactly as the first deletion left it; [numTimers] is not decremented a
    second time. *)
Theorem deleteTimer_idempotent idx s s1 :
  wf s -> deleteTimer idx s = Some s1 -> deleteTimer idx s1 = Some s1.
Proof.
  intros Hwf H. unfold deleteTimer in H.
  destruct (idx >=? MAX_TIMERS) eqn:E1.
  { inversion H; subst. unfold deleteTimer. rewrite E1. reflexivity. }
  destruct (numTimers s =? 0) eqn:E2.
  { inversion H; subst. unfold deleteTimer. rewrite E1, E2. reflexivity. }
  destruct (idx <? 0) eqn:E3; [discriminate|].
  destruct (callbacks s !!! Z.to_nat idx =? NULL) eqn:E4; cbn [negb] in H;
    inversion H; subst.
  { unfold deleteTimer. rewrite E1, E2, E3, E4. reflexivity. }
  fold (cleared (Z.to_nat idx) s).
  assert (Hi : (Z.to_nat idx < NSLOTS)%nat) by (unfold NSLOTS; lia).
  assert (Hz : callbacks (cleared (Z.to_nat idx) s) !!! Z.to_nat idx = NULL)
    by (rewrite <- view_cb, view_cleared by assumption; reflexivity).
  unfold deleteTimer. rewrite E1, E3, Hz. cbn [negb Z.eqb NULL].
  destruct (numTimers (cleared (Z.to_nat idx) s) =? 0); reflexivity.
Qed.

Lemma deleteTimer_idempotent_witness :
  exists s1, deleteTimer 0 two_due = Some s1 /\ deleteTimer 0 s1 = Some s1 /\
             numTimers s1 = 1.
Proof.
  eexists. split; [vm_compute; reflexivity|]. split.
  - eapply (deleteTimer_idempotent 0 two_due).
    + vm_compute. repeat split.
    + vm_compute. reflexivity.
  - vm_compute. reflexivity.
Defined.

(** ** The enabled flag *)

Lemma SimpleTimer_eta s :
  mkSimpleTimer (prev_millis s) (callbacks s) (delays s) (maxNumRuns s)
                (numRuns s) (enabled s) (toBeCalled s) (numTimers s) = s.
Proof. destruct s. reflexivity. Qed.

Lemma set_enabled_twice i b s :
  wf s -> (i < NSLOTS)%nat -> b = enabled s !!! i ->
  set_enabled i b (set_enabled i (negb b) s) = s.
Proof.
  intros Hwf Hi Hb. wf_split Hwf. unfold set_enabled at 1. setters.
  rewrite list_insert_insert_eq.
  rewrite list_insert_id; [apply SimpleTimer_eta|].
  rewrite Hb. apply list_lookup_lookup_total_lt. lia.
Qed.

(** X3. For an index in range, [isEnabled] reads back what [enable],
    [disable] and [toggle] wrote: true after [enable], false after [disable],
    the negation of the previous answer after [toggle]; toggling twice gives
    back the very same object; and none of the three changes the answer for
    another index. *)
Theorem enabled_flag_read_back s idx :
  wf s -> 0 <= idx < MAX_TIMERS ->
  exists s1 s2 s3 b,
    isEnabled idx s = Some b /\
    enable idx s = Some s1 /\ isEnabled idx s1 = Some true /\
    disable idx s = Some s2 /\ isEnabled idx s2 = Some false /\
    toggle idx s = Some s3 /\ isEnabled idx s3 = Some (negb b) /\
    toggle idx s3 = Some s /\
    forall j, 0 <= j -> j <> idx ->
      isEnabled j s1 = isEnabled j s /\ isEnabled j s2 = isEnabled j s /\
      isEnabled j s3 = isEnabled j s.
Proof.
  intros Hwf Hidx. pose proof Hwf as Hwf'. wf_split Hwf'.
  assert (E1 : (idx >=? MAX_TIMERS) = false) by lia.
  assert (E2 : (idx <? 0) = false) by lia.
  assert (Hi : (Z.to_nat idx < NSLOTS)%nat) by (unfold NSLOTS; lia).
  set (i := Z.to_nat idx) in *.
  exists (set_enabled i true s), (set_enabled i false s),
         (set_enabled i (negb (enabled s !!! i)) s), (enabled s !!! i).
  unfold isEnabled, enable, disable, toggle. rewrite E1, E2. fold i. setters.
  lookups.
  repeat (split; [reflexivity|]).
  split.
  - f_equal. rewrite negb_involutive.
    apply set_enabled_twice; [exact Hwf|exact Hi|reflexivity].
  - intros j Hj0 Hj.
    destruct (j >=? MAX_TIMERS); [auto|].
    assert (E3 : (j <? 0) = false) by lia. rewrite E3.
    assert (Hne : i <> Z.to_nat j) by (unfold i; lia).
    lookups. auto.
Qed.

Lemma enabled_flag_read_back_witness :
  exists s3, toggle 3 fresh = Some s3 /\ isEnabled 3 s3 = Some true /\
             toggle 3 s3 = Some fresh.
Proof.
  destruct (enabled_flag_read_back fresh 3)
    as (s1 & s2 & s3 & b & Hb & _ & _ & _ & _ & Ht & Hr & Hback & _).
  - vm_compute. repeat split.
  - unfold MAX_TIMERS. lia.
  - exists s3. split; [exact Ht|]. split; [|exact Hback].
    rewrite Hr. assert (Hb' : isEnabled 3 fresh = Some false) by (vm_compute; reflexivity).
    rewrite Hb' in Hb. inversion Hb. reflexivity.
Defined.

(** ** Counting *)

(** X4. On an object that satisfies the invariant, [getNumAvailableTimers]
    is the number of free slots; it lies between 0 and [MAX_TIMERS] and adds
    up with [getNumTimers] to [MAX_TIMERS]; and a registration with a
    callback succeeds exactly when it is positive. *)
Theorem available_timers_are_free_slots s :
  Inv s ->
  getNumAvailableTimers s = Z.of_nat (free_count (callbacks s)) /\
  0 <= getNumAvailableTimers s <= MAX_TIMERS /\
  getNumTimers s + getNumAvailableTimers s = MAX_TIMERS /\
  forall t d f n, f <> NULL ->
    (0 < getNumAvailableTimers s <-> 0 <= snd (setTimer t d f n s)).
Proof.
  intros HI. pose proof HI as [Hwf [Hc Hle]]. wf_split Hwf.
  pose proof (free_count_in_use (callbacks s)) as Hsum.
  pose proof NSLOTS_MAX as HN.
  unfold getNumAvailableTimers, getNumTimers.
  assert (Hav : MAX_TIMERS - numTimers s = Z.of_nat (free_count (callbacks s))) by lia.
  split; [exact Hav|]. split; [lia|]. split; [lia|].
  intros t d f n Hf. split.
  - intros Hpos. destruct (free_count_pos (callbacks s)) as (j & Hj & Hz); [lia|].
    destruct (setTimer_succeeds t d f n s j HI ltac:(lia) Hz Hf) as (k & _ & _ & _ & E).
    rewrite E. cbn [snd]. lia.
  - intros Hok.
    destruct (setTimer t d f n s) as [s' idx] eqn:E. cbn [snd] in Hok.
    destruct (setTimer_success _ _ _ _ _ _ _ E Hok) as (k & _ & _ & _ & Hn & _).
    lia.
Qed.

Lemma available_timers_are_free_slots_witness :
  getNumAvailableTimers two_due = 8 /\
  0 <= snd (setTimer 0 100 7 0 two_due).
Proof.
  destruct (available_timers_are_free_slots two_due) as (H1 & _ & _ & H4).
  { vm_compute. repeat split; discriminate. }
  split; [rewrite H1; vm_compute; reflexivity|].
  apply (H4 0 100 7 0); [discriminate|]. rewrite H1. vm_compute. reflexivity.
Defined.

(** ** A poll with nothing due *)

Lemma act_all_idle env idx : forall s,
  (forall j, In j idx -> toBeCalled s !!! j = DEFCALL_DONTRUN) ->
  act env idx s = Some (s, []).
Proof.
  induction idx as [|i idx IH]; intros s H; cbn [act]; [reflexivity|].
  rewrite act_slot_idle by (apply H; left; reflexivity).
  rewrite IH by (intros j Hj; apply H; right; exact Hj). reflexivity.
Qed.

(** X5. A poll at a tick at which no timer is due (in particular a poll of an
    object without timers) calls no callback, whatever the callbacks are, and
    changes nothing but the deferred-call marks, which it clears. *)
Theorem poll_with_nothing_due env now s :
  wf s ->
  (forall j, (j < NSLOTS)%nat ->
     callbacks s !!! j = NULL \/
     is_due now (prev_millis s !!! j) (delays s !!! j) = false) ->
  exists s',
    run env now s = Some (s', []) /\
    callbacks s' = callbacks s /\ delays s' = delays s /\
    maxNumRuns s' = maxNumRuns s /\ enabled s' = enabled s /\
    numTimers s' = numTimers s /\
    forall j, (j < NSLOTS)%nat ->
      prev_millis s' !!! j = prev_millis s !!! j /\
      numRuns s' !!! j = numRuns s !!! j /\
      toBeCalled s' !!! j = DEFCALL_DONTRUN.
Proof.
  intros Hwf Hidle.
  assert (Hslots : forall j, (j < NSLOTS)%nat ->
            prev_millis (evaluate now s) !!! j = prev_millis s !!! j /\
            numRuns (evaluate now s) !!! j = numRuns s !!! j /\
            toBeCalled (evaluate now s) !!! j = DEFCALL_DONTRUN).
  { intros j Hj. destruct (evaluate_slot now s j Hwf Hj) as (E1 & E2 & E3).
    rewrite E1, E2, E3.
    destruct (Hidle j Hj) as [Hz|Hnd].
    - rewrite step_slot_free by (rewrite view_cb; exact Hz). auto.
    - unfold step_slot. rewrite view_prev, view_delay, Hnd.
      destruct (sl_cb (view s j) =? NULL); auto. }
  exists (evaluate now s). split.
  - rewrite run_eq. apply act_all_idle. intros j Hj. apply in_seq in Hj.
    apply Hslots. lia.
  - rewrite callbacks_evaluate, delays_evaluate, maxNumRuns_evaluate,
            enabled_evaluate, numTimers_evaluate. auto 10.
Qed.

Lemma poll_with_nothing_due_witness :
  exists s', run deleter 499 two_due = Some (s', []) /\
             callbacks s' = callbacks two_due.
Proof.
  destruct (poll_with_nothing_due deleter 499 two_due)
    as (s' & E & Hcb & _).
  - vm_compute. repeat split.
  - intros j Hj. do 2 (destruct j as [|j]; [right; vm_compute; reflexivity|]).
    do 8 (destruct j as [|j]; [left; vm_compute; reflexivity|]).
    exfalso. unfold NSLOTS, MAX_TIMERS in Hj. cbn in Hj. lia.
  - exists s'. split; assumption.
Defined.

(** ** Cancelling a timer *)

(** X6. [deleteTimer] on a slot in use frees that slot and no other,
    decrements [numTimers] (one more timer is available), and cancels the
    timer: over any later sequence of polls the slot is never called (the
    callbacks are assumed not to address the slot and not to register). *)
Theorem deleteTimer_cancels s i :
  Inv s -> (i < NSLOTS)%nat -> callbacks s !!! i <> NULL ->
  exists s1,
    deleteTimer (Z.of_nat i) s = Some s1 /\
    callbacks s1 !!! i = NULL /\
    numTimers s1 = numTimers s - 1 /\
    getNumAvailableTimers s1 = getNumAvailableTimers s + 1 /\
    (forall j, j <> i -> view s1 j = view s j) /\
    forall env ticks,
      (forall f, body_all (call_quiet i) (env f)) ->
      exists s' tr,
        run_all env ticks s1 = Some (s', tr) /\
        fires i tr = 0%nat /\ callbacks s' !!! i = NULL.
Proof.
  intros HI Hi Hcb. pose proof HI as [Hwf _].
  pose proof (deleteTimer_in_use i s HI Hi Hcb) as E.
  exists (cleared i s). split; [exact E|].
  assert (Hz : callbacks (cleared i s) !!! i = NULL)
    by (rewrite <- view_cb, view_cleared by assumption; reflexivity).
  split; [exact Hz|]. split; [apply numTimers_cleared|].
  split; [unfold getNumAvailableTimers; rewrite numTimers_cleared; lia|].
  split; [intros j Hj; apply view_cleared_other; congruence|].
  intros env ticks Henv.
  assert (Hd : dead i (cleared i s)).
  { split; [eapply Inv_delete; [exact HI|exact E]|exact Hz]. }
  destruct (run_all_dead env i Hi Henv ticks _ Hd) as (s' & tr & Er & Hf & _ & [_ Hz']).
  exists s', tr. auto.
Qed.

Lemma deleteTimer_cancels_witness :
  exists s1, deleteTimer 0 late_poll = Some s1 /\
    exists s' tr, run_all passive [100; 200; 300] s1 = Some (s', tr) /\
                  fires 0 tr = 0%nat.
Proof.
  destruct (deleteTimer_cancels late_poll 0) as (s1 & E & _ & _ & _ & _ & Hrun).
  - vm_compute. repeat split; discriminate.
  - vm_compute. lia.
  - vm_compute. discriminate.
  - exists s1. split; [exact E|].
    destruct (Hrun passive [100; 200; 300] (fun f => I)) as (s' & tr & Er & Hf & _).
    exists s', tr. auto.
Defined.

(** ** Restarting a timer *)

Lemma restartTimer_in_range t i s :
  (i < NSLOTS)%nat ->
  restartTimer t (Z.of_nat i) s = Some (set_prev_millis i t s).
Proof.
  intros Hi. unfold restartTimer. pose proof NSLOTS_MAX.
  destruct (Z.of_nat i >=? MAX_TIMERS) eqn:E1; [lia|].
  destruct (Z.of_nat i <? 0) eqn:E2; [lia|]. rewrite Nat2Z.id. reflexivity.
Qed.

Lemma view_set_prev_millis i t s :
  wf s -> (i < NSLOTS)%nat ->
  view (set_prev_millis i t s) i =
  mkSlot t (callbacks s !!! i) (delays s !!! i) (maxNumRuns s !!! i)
         (numRuns s !!! i) (enabled s !!! i) (toBeCalled s !!! i).
Proof.
  intros Hwf Hi. wf_split Hwf. unfold view. setters. lookups. reflexivity.
Qed.

Lemma Inv_set_prev_millis i t s :
  (i < NSLOTS)%nat -> Inv s -> Inv (set_prev_millis i t s).
Proof.
  intros Hi HI. eapply Inv_effect; [|exact HI].
  apply (eff_restart True (fun _ => True) (fun _ => True)); auto.
Qed.

(** X7. [restartTimer] on a slot in use sets its baseline to the current tick
    and changes nothing else: the array of baselines differs in that one
    element only, and the callbacks, delays, run counts, run limits, enabled
    flags, deferred-call marks and [numTimers] are as before.  The next poll
    does not call the timer while less than its delay has elapsed since the
    restart, and calls it once the delay has elapsed (if it is enabled, has
    runs left and no callback deletes it). *)
Theorem restartTimer_postpones t s i :
  Inv s -> (i < NSLOTS)%nat -> callbacks s !!! i <> NULL ->
  0 <= delays s !!! i < ULONG_MODULUS ->
  exists s1,
    restartTimer t (Z.of_nat i) s = Some s1 /\
    prev_millis s1 !!! i = t /\
    callbacks s1 = callbacks s /\ delays s1 = delays s /\
    maxNumRuns s1 = maxNumRuns s /\ numRuns s1 = numRuns s /\
    enabled s1 = enabled s /\ numTimers s1 = numTimers s /\
    toBeCalled s1 = toBeCalled s /\
    prev_millis s1 = <[i := t]> (prev_millis s) /\
    (forall j, j <> i -> prev_millis s1 !!! j = prev_millis s !!! j) /\
    forall env now,
      (forall f, body_all call_in_bounds (env f)) ->
      (ulong_sub now t < delays s !!! i ->
       exists s' tr, run env now s1 = Some (s', tr) /\ fires i tr = 0%nat) /\
      (delays s !!! i <= ulong_sub now t ->
       enabled s !!! i = true ->
       (maxNumRuns s !!! i = RUN_FOREVER \/ numRuns s !!! i < maxNumRuns s !!! i) ->
       (forall f, body_all (call_spares i) (env f)) ->
       exists s' tr, run env now s1 = Some (s', tr) /\ fires i tr = 1%nat).
Proof.
  intros HI Hi Hcb Hd. pose proof HI as [Hwf _].
  exists (set_prev_millis i t s).
  split; [apply restartTimer_in_range; exact Hi|].
  pose proof (view_set_prev_millis i t s Hwf Hi) as Hv.
  split; [rewrite <- view_prev, Hv; reflexivity|].
  repeat (split; [reflexivity|]).
  split; [intros j Hj; unfold set_prev_millis; setters; lookups; reflexivity|].
  intros env now Henv.
  pose proof (Inv_set_prev_millis i t s Hi HI) as HI1.
  destruct (evaluate_slot now (set_prev_millis i t s) i (proj1 HI1) Hi)
    as (_ & _ & Etbc).
  assert (Hfields : sl_cb (view (set_prev_millis i t s) i) = callbacks s !!! i /\
                    sl_prev (view (set_prev_millis i t s) i) = t /\
                    sl_delay (view (set_prev_millis i t s) i) = delays s !!! i /\
                    sl_en (view (set_prev_millis i t s) i) = enabled s !!! i /\
                    sl_max (view (set_prev_millis i t s) i) = maxNumRuns s !!! i /\
                    sl_runs (view (set_prev_millis i t s) i) = numRuns s !!! i).
  { rewrite Hv. cbn. auto 10. }
  destruct Hfields as (F1 & F2 & F3 & F4 & F5 & F6).
  assert (Hdue : is_due now t (delays s !!! i) = (delays s !!! i <=? ulong_sub now t)).
  { unfold is_due. rewrite to_ulong_small by exact Hd. lia. }
  split.
  - intros Hearly.
    destruct (step_slot_not_due now (view (set_prev_millis i t s) i)) as (_ & Hz);
      [rewrite F2, F3, Hdue; lia|].
    rewrite Hz in Etbc.
    destruct (run_defined env now _ HI1 Henv) as (s' & tr & E & _).
    exists s', tr. split; [exact E|].
    apply (run_idle_slot env now _ i s' tr Hi Etbc E).
  - intros Hlate Hen Hleft Hsp.
    destruct (step_slot_due now (view (set_prev_millis i t s) i))
      as (_ & Harm & _);
      [rewrite F1; exact Hcb | rewrite F2, F3, Hdue; lia |].
    rewrite F4, F5, F6 in Harm.
    specialize (Harm Hen Hleft). rewrite <- Etbc in Harm.
    destruct (run_armed_slot env now _ i HI1 Hi
                (fun f => body_all_and _ _ _ (Henv f) (Hsp f)) Harm)
      as (_ & s' & t1 & t3 & E & H1 & _ & H3 & _ & _).
    eexists _, _. split; [exact E|].
    rewrite !fires_app, H1, H3, fires_slot_events; [reflexivity|exact Harm|].
    apply toBeCalled_evaluate_range; [apply HI1|exact Hi].
Qed.

Lemma restartTimer_postpones_witness :
  exists s1, restartTimer 90 0 late_poll = Some s1 /\
    (exists s' tr, run passive 150 s1 = Some (s', tr) /\ fires 0 tr = 0%nat) /\
    (exists s' tr, run passive 190 s1 = Some (s', tr) /\ fires 0 tr = 1%nat).
Proof.
  destruct (restartTimer_postpones 90 late_poll 0)
    as (s1 & E & _ & _ & _ & _ & _ & _ & _ & _ & _ & _ & Hrun).
  - vm_compute. repeat split; discriminate.
  - vm_compute. lia.
  - vm_compute. discriminate.
  - vm_compute. split; [discriminate|reflexivity].
  - exists s1. split; [exact E|]. split.
    + destruct (Hrun passive 150 (fun f => I)) as (Hearly & _).
      apply Hearly. vm_compute. reflexivity.
    + destruct (Hrun passive 190 (fun f => I)) as (_ & Hlate).
      apply Hlate.
      * vm_compute. discriminate.
      * vm_compute. reflexivity.
      * left. vm_compute. reflexivity.
      * intros f. exact I.
Defined.

(** ** Timers that run forever *)

Lemma ulong_add_to_ulong x d : ulong_add (to_ulong x) d = to_ulong (x + d).
Proof. unfold ulong_add, to_ulong. apply Zplus_mod_idemp_l. Qed.

Section Perpetual.

Variable env : Z -> callback_body.
Variable i : nat.
Hypothesis Hi : (i < NSLOTS)%nat.
Hypothesis env_ok : forall f, body_all (fun c => call_in_bounds c /\ call_avoids i c) (env f).
Variables f p : Z.
Hypothesis Hf : f <> NULL.

Lemma perpetual_env_spares f' :
body_all (fun c => call_in_bounds c /\ call_spares i c) (env f').
Proof.
eapply body_all_impl; [|apply env_ok].
intros c [Hb Ha]. split; [exact Hb|apply avoids_spares; exact Ha].
Qed.

Lemma perpetual_env_avoids f' : body_all (call_avoids i) (env f').
Proof. eapply body_all_impl; [|apply env_ok]. intros c [_ Ha]. exact Ha. Qed.

Lemma perpetual_env_in_bounds f' : body_all call_in_bounds (env f').
Proof. eapply body_all_impl; [|apply env_ok]. intros c [Hb _]. exact Hb. Qed.

(** One pass over a timer that runs forever. *)
Lemma run_perpetual now pm s :
perpetual i f p pm s ->
exists s' tr,
  run env now s = Some (s', tr) /\ deletions i tr = 0%nat /\
  if is_due now pm p then
    fires i tr = 1%nat /\ perpetual i f p (ulong_add pm p) s'
  else
    fires i tr = 0%nat /\ perpetual i f p pm s'.
Proof.
intros [HI Hv]. pose proof HI as [Hwf Hc].
assert (Hcb : callbacks s !!! i = f) by (rewrite <- view_cb, Hv; reflexivity).
assert (Hcbn : callbacks s !!! i <> NULL) by (rewrite Hcb; exact Hf).
pose proof (view_evaluate now s i Hwf Hi) as Hev.
rewrite Hv in Hev. rewrite step_slot_in_use in Hev by exact Hf.
cbn [sl_prev sl_cb sl_delay sl_max sl_runs sl_en] in Hev.
assert (Hfinal : forall s' tr a pm',
          view (evaluate now s) i =
            mkSlot pm' f p RUN_FOREVER (numRuns s !!! i) true a ->
          a <> DEFCALL_RUNANDDEL ->
          run env now s = Some (s', tr) -> Inv s' ->
          perpetual i f p pm' s').
{ intros s' tr a pm' Hev' Ha E HI'. split; [exact HI'|].
  assert (Hnd : toBeCalled (evaluate now s) !!! i <> DEFCALL_RUNANDDEL)
    by (rewrite <- view_tbc, Hev'; exact Ha).
  pose proof (run_slot_view env now s i s' tr Hwf Hi perpetual_env_avoids
                Hcbn Hnd E) as V.
  pose proof V as V'. apply view_eq in V'.
  destruct V' as (_ & _ & _ & _ & V5 & _ & V7).
  rewrite V, Hev'. f_equal.
  - rewrite V5, <- (view_runs (evaluate now s) i), Hev'. reflexivity.
  - rewrite V7, <- (view_tbc (evaluate now s) i), Hev'. reflexivity. }
destruct (is_due now pm p) eqn:Hdue; cbv zeta in Hev;
  cbn [Z.eqb RUN_FOREVER] in Hev.
- assert (Ha : toBeCalled (evaluate now s) !!! i = DEFCALL_RUNONLY)
    by (rewrite <- view_tbc, Hev; reflexivity).
  assert (Hnz : toBeCalled (evaluate now s) !!! i <> DEFCALL_DONTRUN)
    by (rewrite Ha; discriminate).
  destruct (run_armed_slot env now s i HI Hi perpetual_env_spares Hnz)
    as (_ & s' & t1 & t3 & E & H1 & H2 & H3 & H4 & HI').
  eexists _, _. split; [exact E|].
  rewrite Ha. unfold slot_events. cbn [Z.eqb DEFCALL_RUNONLY Pos.eqb].
  rewrite !fires_app, !deletions_app, H1, H2, H3, H4.
  cbn [fires deletions]. rewrite Nat.eqb_refl.
  split; [reflexivity|]. split; [reflexivity|].
  eapply Hfinal; [exact Hev|discriminate|exact E|exact HI'].
- assert (Ha : toBeCalled (evaluate now s) !!! i = DEFCALL_DONTRUN)
    by (rewrite <- view_tbc, Hev; reflexivity).
  destruct (run_defined env now s HI perpetual_env_in_bounds) as (s' & tr & E & HI').
  destruct (run_idle_slot env now s i s' tr Hi Ha E) as (H1 & H2).
  exists s', tr. split; [exact E|]. split; [exact H2|]. split; [exact H1|].
  eapply Hfinal; [exact Hev|discriminate|exact E|exact HI'].
Qed.

(** Any sequence of passes over a timer that runs forever. *)
Lemma run_all_perpetual ticks : forall x s,
perpetual i f p (to_ulong x) s ->
exists s' tr,
  run_all env ticks s = Some (s', tr) /\
  fires i tr = due_count (to_ulong x) p ticks /\ deletions i tr = 0%nat /\
  perpetual i f p
    (to_ulong (x + Z.of_nat (due_count (to_ulong x) p ticks) * p)) s'.
Proof.
induction ticks as [|t ticks IH]; intros x s Hs; cbn [run_all due_count].
- exists s, []. split; [reflexivity|]. split; [reflexivity|].
  split; [reflexivity|]. replace (x + Z.of_nat 0 * p) with x by lia. exact Hs.
- destruct (run_perpetual t (to_ulong x) s Hs) as (s1 & tr1 & E1 & Hd1 & Hcase).
  rewrite E1. destruct (is_due t (to_ulong x) p) eqn:Hdue.
  + destruct Hcase as [Hf1 Hs1]. rewrite ulong_add_to_ulong in Hs1 |- *.
    destruct (IH (x + p) s1 Hs1) as (s2 & tr2 & E2 & Hf2 & Hd2 & Hs2).
    rewrite E2. eexists _, _. split; [reflexivity|].
    rewrite fires_app, deletions_app, Hf1, Hf2, Hd1, Hd2.
    split; [reflexivity|]. split; [reflexivity|].
    replace (x + Z.of_nat (S (due_count (to_ulong (x + p)) p ticks)) * p)
      with (x + p + Z.of_nat (due_count (to_ulong (x + p)) p ticks) * p) by lia.
    exact Hs2.
  + destruct Hcase as [Hf1 Hs1].
    destruct (IH x s1 Hs1) as (s2 & tr2 & E2 & Hf2 & Hd2 & Hs2).
    rewrite E2. eexists _, _. split; [reflexivity|].
    rewrite fires_app, deletions_app, Hf1, Hf2, Hd1, Hd2. auto.
Qed.

End Perpetual.

(** X8. A timer registered with [setInterval] is called once at each poll
    that finds it due and at no other, for ever: over any sequence of polls it
    is called [k] times, [k] the number of polls that find it due, [run()]
    never deletes it, and it stays in use and enabled.  Its baseline is then
    the registration tick plus exactly [k] delays (modulo the counter): late
    polls cause no drift.  The callbacks are assumed not to address the slot. *)
Theorem setInterval_runs_forever t0 p f s j :
  Inv s -> f <> NULL -> 0 <= t0 < ULONG_MODULUS ->
  (j < NSLOTS)%nat -> callbacks s !!! j = NULL ->
  exists s1 i,
    setInterval t0 p f s = (s1, Z.of_nat i) /\ (i < NSLOTS)%nat /\
    forall env ticks,
      (forall f', body_all (fun c => call_in_bounds c /\ call_avoids i c) (env f')) ->
      exists s' tr,
        run_all env ticks s1 = Some (s', tr) /\
        let k := due_count t0 p ticks in
        fires i tr = k /\ deletions i tr = 0%nat /\
        callbacks s' !!! i = f /\ enabled s' !!! i = true /\
        delays s' !!! i = p /\
        prev_millis s' !!! i = to_ulong (t0 + Z.of_nat k * p).
Proof.
  intros HI Hf Ht0 Hj Hz. pose proof HI as [Hwf _].
  unfold setInterval.
  destruct (setTimer_succeeds t0 p f RUN_FOREVER s j HI Hj Hz Hf)
    as (i & Hle & Hzi & _ & E).
  assert (Hi : (i < NSLOTS)%nat) by lia.
  exists (registered i t0 p f RUN_FOREVER s), i.
  split; [exact E|]. split; [exact Hi|].
  assert (Hs1 : perpetual i f p (to_ulong t0) (registered i t0 p f RUN_FOREVER s)).
  { split.
    - eapply Inv_call with (c := CallSetTimer t0 p f RUN_FOREVER); [exact HI|].
      cbn [exec_call]. rewrite E. reflexivity.
    - rewrite to_ulong_small by exact Ht0.
      pose proof (view_registered i t0 p f RUN_FOREVER s Hwf Hi) as Hv.
      rewrite Hv. reflexivity. }
  intros env ticks Henv.
  destruct (run_all_perpetual env i Hi Henv f p Hf ticks t0 _ Hs1)
    as (s' & tr & Er & Hfi & Hde & [_ Hv']).
  rewrite (to_ulong_small t0 Ht0) in Hfi, Hv'.
  exists s', tr. split; [exact Er|]. cbv zeta.
  split; [exact Hfi|]. split; [exact Hde|].
  rewrite <- view_cb, <- view_en, <- view_delay, <- view_prev, Hv'. cbn. auto.
Qed.

Lemma setInterval_runs_forever_witness :
  exists s1, setInterval 0 100 21 fresh = (s1, 0) /\
    exists s' tr, run_all passive [50; 130; 350; 360; 365] s1 = Some (s', tr) /\
                  fires 0 tr = 3%nat /\ prev_millis s' !!! 0%nat = 300.
Proof.
  destruct (setInterval_runs_forever 0 100 21 fresh 0) as (s1 & i & E & Hi & Hrun).
  - vm_compute. repeat split; discriminate.
  - discriminate.
  - vm_compute. split; [discriminate|reflexivity].
  - vm_compute. lia.
  - vm_compute. reflexivity.
  - assert (Hi0 : i = 0%nat).
    { assert (H : snd (setInterval 0 100 21 fresh) = 0) by (vm_compute; reflexivity).
      rewrite E in H. cbn [snd] in H. lia. }
    subst i. exists s1. split; [exact E|].
    destruct (Hrun passive [50; 130; 350; 360; 365] (fun f => I))
      as (s' & tr & Er & Hf & _ & _ & _ & _ & Hpm).
    exists s', tr. split; [exact Er|]. cbv zeta in *.
    split; [etransitivity; [exact Hf|vm_compute; reflexivity]|].
    etransitivity; [exact Hpm|vm_compute; reflexivity].
Defined.

(** ** One-shot timers *)

(** Polls made before a full delay has elapsed since the baseline do not find
    the timer due. *)
Lemma due_count_early pm p ticks :
  0 <= p < ULONG_MODULUS ->
  Forall (fun t => ulong_sub t pm < p) ticks ->
  due_count pm p ticks = 0%nat.
Proof.
  intros Hp. induction ticks as [|t ticks IH]; intros Hall; cbn [due_count];
    [reflexivity|].
  inversion Hall; subst.
  assert (Hnd : is_due t pm p = false).
  { unfold is_due. rewrite to_ulong_small by exact Hp. lia. }
  rewrite Hnd. apply IH. assumption.
Qed.

(** X9. A timer registered with [setTimeout] is called exactly once, at the
    first poll that finds it due, and [run()] deletes it right after that
    call, the slot being free from then on; polls made while less than the
    delay has elapsed since registration do not call it.  The callbacks are
    assumed not to address the slot and not to register timers. *)
Theorem setTimeout_fires_once t0 p f s j :
  reachable s -> f <> NULL ->
  (j < NSLOTS)%nat -> callbacks s !!! j = NULL ->
  exists s1 i,
    setTimeout t0 p f s = (s1, Z.of_nat i) /\ (i < NSLOTS)%nat /\
    forall env ticks,
      (forall f', body_all (call_quiet i) (env f')) ->
      exists s' tr,
        run_all env ticks s1 = Some (s', tr) /\
        (due_count t0 p ticks = 0%nat ->
         fires i tr = 0%nat /\ deletions i tr = 0%nat /\ callbacks s' !!! i = f) /\
        (due_count t0 p ticks <> 0%nat ->
         (exists t1 t3, tr = t1 ++ Fired i f :: AutoDeleted i :: t3 /\
                        fires i t1 = 0%nat /\ fires i t3 = 0%nat) /\
         fires i tr = 1%nat /\ callbacks s' !!! i = NULL) /\
        (0 <= p < ULONG_MODULUS ->
         Forall (fun t => ulong_sub t t0 < p) ticks -> fires i tr = 0%nat).
Proof.
  intros Hr Hf Hj Hz.
  pose proof (reachable_Inv s Hr) as HI.
  destruct (reachable_Clean s Hr) as [Hwf Hfc].
  unfold setTimeout.
  destruct (setTimer_succeeds t0 p f RUN_ONCE s j HI Hj Hz Hf)
    as (i & Hle & Hzi & _ & E).
  assert (Hi : (i < NSLOTS)%nat) by lia.
  exists (registered i t0 p f RUN_ONCE s), i.
  split; [exact E|]. split; [exact Hi|].
  assert (Hl : live i f RUN_ONCE p 0 t0 (registered i t0 p f RUN_ONCE s)).
  { split; [|split; [unfold RUN_ONCE; lia|]].
    - eapply Inv_call with (c := CallSetTimer t0 p f RUN_ONCE); [exact HI|].
      cbn [exec_call]. rewrite E. reflexivity.
    - pose proof (view_registered i t0 p f RUN_ONCE s Hwf Hi) as Hv.
      rewrite Hv. rewrite (Hfc i Hi Hzi). reflexivity. }
  intros env ticks Henv.
  destruct (run_all_live env i Hi Henv f RUN_ONCE p Hf ltac:(reflexivity)
              ticks 0 t0 _ Hl) as (s' & tr & Er & Hcase).
  exists s', tr. split; [exact Er|]. cbv zeta in Hcase.
  assert (Hmain :
    (due_count t0 p ticks = 0%nat ->
     fires i tr = 0%nat /\ deletions i tr = 0%nat /\ callbacks s' !!! i = f) /\
    (due_count t0 p ticks <> 0%nat ->
     (exists t1 t3, tr = t1 ++ Fired i f :: AutoDeleted i :: t3 /\
                    fires i t1 = 0%nat /\ fires i t3 = 0%nat) /\
     fires i tr = 1%nat /\ callbacks s' !!! i = NULL)).
  { unfold RUN_ONCE in Hcase.
    destruct (Z.of_nat (due_count t0 p ticks) <? 1 - 0) eqn:Ek.
    - destruct Hcase as (H1 & H2 & pm' & (_ & _ & Hv')).
      split; [|lia]. intros Hk. split; [lia|]. split; [exact H2|].
      rewrite <- view_cb, Hv'. reflexivity.
    - destruct Hcase as [(t1 & t3 & -> & G1 & G2 & G3 & G4) [_ Hd]].
      split; [lia|]. intros _. cbn in G1.
      split; [exists t1, t3; auto|]. split; [|exact Hd].
      rewrite fires_app. cbn [fires]. rewrite Nat.eqb_refl, G1, G3. reflexivity. }
  destruct Hmain as [M0 M1]. split; [exact M0|]. split; [exact M1|].
  intros Hp Hall. apply M0. apply due_count_early; assumption.
Qed.

Lemma setTimeout_fires_once_witness :
  exists s1, setTimeout 0 5000 22 fresh = (s1, 0) /\
    exists s' tr, run_all passive [4999; 5000; 9000; 12000] s1 = Some (s', tr) /\
                  fires 0 tr = 1%nat /\ callbacks s' !!! 0%nat = NULL.
Proof.
  destruct (setTimeout_fires_once 0 5000 22 fresh 0 reachable_fresh)
    as (s1 & i & E & Hi & Hrun).
  - discriminate.
  - vm_compute. lia.
  - vm_compute. reflexivity.
  - assert (Hi0 : i = 0%nat).
    { assert (H : snd (setTimeout 0 5000 22 fresh) = 0) by (vm_compute; reflexivity).
      rewrite E in H. cbn [snd] in H. lia. }
    subst i. exists s1. split; [exact E|].
    destruct (Hrun passive [4999; 5000; 9000; 12000] (fun f => I))
      as (s' & tr & Er & _ & Hfired & _).
    exists s', tr. split; [exact Er|]. apply Hfired. vm_compute. discriminate.
Defined.

(** ** Callbacks that delete their own timer *)

(** Without registrations the callback of a slot stays or goes. *)
Lemma callbacks_effect_no_register (D W : nat -> Prop) x x' j :
  effect False D W x x' ->
  callbacks x' !!! j = callbacks x !!! j \/ callbacks x' !!! j = NULL.
Proof.
  intros H.
  destruct H as [|k t d f n Hr _ _ _ _|k _ Hk _ _|k t _ Hk|k b _ Hk];
    unfold cleared; setters; auto; [contradiction|].
  destruct (Nat.eq_dec k j) as [->|Hne]; [|left; lookups; reflexivity].
  destruct (Nat.lt_ge_cases j (length (callbacks x))) as [Hlt|Hge].
  - right. lookups. reflexivity.
  - left. rewrite list_insert_ge by lia. reflexivity.
Qed.

Lemma callbacks_call_no_register c x x' r j :
  call_no_register c -> exec_call c x = Some (x', r) ->
  callbacks x' !!! j = callbacks x !!! j \/ callbacks x' !!! j = NULL.
Proof.
  intros Hc E. eapply callbacks_effect_no_register.
  eapply effect_mono; [| | |eapply exec_call_effect; exact E].
  - intros H. apply H. exact Hc.
  - intros k H. exact H.
  - intros k H. exact H.
Qed.

Lemma callbacks_delete_no_register idx x x' j :
  deleteTimer idx x = Some x' ->
  callbacks x' !!! j = callbacks x !!! j \/ callbacks x' !!! j = NULL.
Proof.
  intros E. eapply callbacks_effect_no_register. eapply deleteTimer_effect; exact E.
Qed.

(** The second loop, when only the callbacks it can meet are constrained. *)
Section ActLocal.

Variable env : Z -> callback_body.
Variable P : api_call -> Prop.
Variable Q : SimpleTimer -> Prop.
Variable R : nat -> Prop.

Hypothesis env_local :
forall x j, Q x -> R j -> callbacks x !!! j <> NULL ->
  body_all P (env (callbacks x !!! j)).
Hypothesis call_Q :
forall c s s' r, P c -> Q s -> exec_call c s = Some (s', r) -> Q s'.
Hypothesis del_Q :
forall j s0 s s', R j -> Q s0 -> toBeCalled s0 !!! j = DEFCALL_RUNANDDEL ->
  Q s -> deleteTimer (Z.of_nat j) s = Some s' -> Q s'.
Hypothesis P_bounds : forall c, P c -> call_in_bounds c.
Hypothesis Q_armed : forall s, Q s -> armed_ok s.
Hypothesis R_bound : forall j, R j -> (j < NSLOTS)%nat.

Lemma act_slot_local j s :
R j -> Q s -> exists s' ev, act_slot env j s = Some (s', ev) /\ Q s'.
Proof.
intros HR HQ. unfold act_slot.
destruct (toBeCalled s !!! j =? DEFCALL_DONTRUN) eqn:E0; [eauto|].
assert (Hcb : callbacks s !!! j <> NULL).
{ apply (Q_armed s HQ j (R_bound j HR)). apply Z.eqb_neq. exact E0. }
pose proof (env_local s j HQ HR Hcb) as Hb.
destruct (exec_body_defined P P_bounds _ Hb s) as (s1 & Ec).
pose proof (exec_body_keeps P Q call_Q _ Hb s s1 HQ Ec) as HQ1.
assert (Hcall : call_callback env j s = Some s1).
{ unfold call_callback. apply Z.eqb_neq in Hcb. rewrite Hcb. exact Ec. }
rewrite Hcall.
destruct (toBeCalled s !!! j =? DEFCALL_RUNONLY); [eauto|].
destruct (toBeCalled s !!! j =? DEFCALL_RUNANDDEL) eqn:E2; [|eauto].
destruct (exec_call_defined (CallDeleteTimer (Z.of_nat j)) s1) as (s2 & r & Ed);
  [cbn; lia|].
cbn [exec_call void] in Ed.
destruct (deleteTimer (Z.of_nat j) s1) as [s3|] eqn:Ed'; [|discriminate].
eexists _, _. split; [reflexivity|].
eapply del_Q; [exact HR|exact HQ| |exact HQ1|exact Ed'].
apply Z.eqb_eq. exact E2.
Qed.

Lemma act_local idx : forall s,
Forall R idx -> Q s -> exists s' tr, act env idx s = Some (s', tr) /\ Q s'.
Proof.
induction idx as [|j idx IH]; intros s HR HQ; cbn [act]; [eauto|].
inversion HR; subst.
destruct (act_slot_local j s) as (s1 & ev & Es & HQ1); auto. rewrite Es.
destruct (IH s1) as (s2 & tr & Ea & HQ2); auto. rewrite Ea. eauto.
Qed.

End ActLocal.

Lemma vacant_call i c x y r :
  call_tame c -> vacant i x -> exec_call c x = Some (y, r) -> vacant i y.
Proof.
  intros [_ Hn] [HB Hz] E. split; [eapply Base_call; eauto|].
  eapply free_call; eauto.
Qed.

Lemma vacant_delete i j x y :
  vacant i x -> deleteTimer j x = Some y -> vacant i y.
Proof.
  intros [HB Hz] E. split; [eapply Base_delete; eauto|eapply free_delete; eauto].
Qed.

(** A free slot is never called and stays free, as long as no callback
    registers (deleting it again does no harm). *)
Lemma act_vacant env i idx s :
  (forall f, body_all call_tame (env f)) ->
  Forall (fun j => (j < NSLOTS)%nat) idx -> vacant i s ->
  exists s' tr, act env idx s = Some (s', tr) /\ vacant i s'.
Proof.
  intros Henv Hidx Hs.
  apply (act_defined env call_tame (vacant i) (fun j => (j < NSLOTS)%nat)); auto.
  - intros c x y r Hc Hx E. eapply vacant_call; eauto.
  - intros j x0 x y _ _ _ Hx E. eapply vacant_delete; eauto.
  - intros c [Hb _]. exact Hb.
  - intros x [HB _]. apply HB.
Qed.

Lemma Forall_seq_lt a n :
  (a + n <= NSLOTS)%nat -> Forall (fun j => (j < NSLOTS)%nat) (seq a n).
Proof. intros H. apply Forall_forall. intros j Hj. apply elem_of_seq in Hj. lia. Qed.

Lemma run_vacant env i now s :
  (i < NSLOTS)%nat -> (forall f, body_all call_tame (env f)) ->
  Inv s -> callbacks s !!! i = NULL ->
  exists s' tr, run env now s = Some (s', tr) /\ fires i tr = 0%nat /\
                Inv s' /\ callbacks s' !!! i = NULL.
Proof.
  intros Hi Henv HI Hz.
  assert (Hv : vacant i (evaluate now s)).
  { split; [apply Base_evaluate; exact HI|]. rewrite callbacks_evaluate. exact Hz. }
  assert (Hall : (0 + NSLOTS <= NSLOTS)%nat) by lia.
  destruct (act_vacant env i (seq 0 NSLOTS) _ Henv (Forall_seq_lt 0 NSLOTS Hall) Hv)
    as (s' & tr & E & [HB Hz']).
  rewrite <- run_eq in E.
  exists s', tr. split; [exact E|].
  assert (Ha : toBeCalled (evaluate now s) !!! i = DEFCALL_DONTRUN).
  { rewrite <- view_tbc, view_evaluate by (try apply HI; exact Hi).
    rewrite step_slot_free by (rewrite view_cb; exact Hz). reflexivity. }
  split; [apply (run_idle_slot env now s i s' tr Hi Ha E)|].
  split; [apply Base_Inv; exact HB|exact Hz'].
Qed.

Lemma run_all_vacant env i ticks :
  (i < NSLOTS)%nat -> (forall f, body_all call_tame (env f)) ->
  forall s, Inv s -> callbacks s !!! i = NULL ->
  exists s' tr, run_all env ticks s = Some (s', tr) /\ fires i tr = 0%nat /\
                Inv s' /\ callbacks s' !!! i = NULL.
Proof.
  intros Hi Henv. induction ticks as [|t ticks IH]; intros s HI Hz; cbn [run_all].
  - exists s, []. auto.
  - destruct (run_vacant env i t s Hi Henv HI Hz) as (s1 & tr1 & E1 & Hf1 & HI1 & Hz1).
    rewrite E1.
    destruct (IH s1 HI1 Hz1) as (s2 & tr2 & E2 & Hf2 & HI2 & Hz2).
    rewrite E2. exists s2, (tr1 ++ tr2). rewrite fires_app, Hf1, Hf2. auto.
Qed.

(** X10. A callback may delete its own timer.  Let slot [i] be due for a
    call, its callback begin with [deleteTimer(i)], no callback register, and
    no other callback delete slot [i].  Then the pass has defined behaviour
    and calls slot [i] exactly once; the slot is free afterwards and the
    invariant holds ([numTimers] is decremented once, also when [run()]
    deletes the slot again after the call); any other slot that no callback
    addresses is left as the first loop left it; and in all later polls slot
    [i] is never called. *)
Theorem self_deletion_safe env now s i k :
  Inv s -> (i < NSLOTS)%nat ->
  toBeCalled (evaluate now s) !!! i <> DEFCALL_DONTRUN ->
  env (callbacks s !!! i) = Invoke (CallDeleteTimer (Z.of_nat i)) k ->
  (forall f, body_all call_tame (env f)) ->
  (forall f, f <> callbacks s !!! i -> body_all (call_spares i) (env f)) ->
  (forall j, (j < i)%nat -> callbacks s !!! j <> callbacks s !!! i) ->
  exists s' t1 t3,
    run env now s =
      Some (s', t1 ++ slot_events (toBeCalled (evaluate now s) !!! i) i
                                  (callbacks s !!! i) ++ t3) /\
    fires i t1 = 0%nat /\ fires i t3 = 0%nat /\
    Inv s' /\ callbacks s' !!! i = NULL /\
    (forall j, j <> i -> (j < NSLOTS)%nat ->
       (forall f, body_all (call_avoids j) (env f)) ->
       callbacks s !!! j <> NULL ->
       toBeCalled (evaluate now s) !!! j <> DEFCALL_RUNANDDEL ->
       view s' j = view (evaluate now s) j) /\
    (forall ticks, exists s'' tr,
       run_all env ticks s' = Some (s'', tr) /\
       fires i tr = 0%nat /\ callbacks s'' !!! i = NULL).
Proof.
  intros HI Hi Ha Hself Henv Hothers Hbefore.
  set (fi := callbacks s !!! i) in *.
  pose proof (Base_evaluate now s HI) as HB0.
  assert (Hcb0 : callbacks (evaluate now s) !!! i <> NULL) by (apply HB0; assumption).
  assert (Hfi : fi <> NULL) by (unfold fi; rewrite <- (callbacks_evaluate now s); exact Hcb0).
  pose proof (toBeCalled_evaluate_range now s i (proj1 HI) Hi) as Hrange.
  pose proof (callbacks_evaluate now s) as Hcbs.
  assert (Hwhole : exists s' t1 t3,
    act env (seq 0 i) (evaluate now s) = Some (fst t1, snd t1) /\
    run env now s =
      Some (s', snd t1 ++ slot_events (toBeCalled (evaluate now s) !!! i) i fi ++ t3) /\
    fires i (snd t1) = 0%nat /\ fires i t3 = 0%nat /\
    Inv s' /\ callbacks s' !!! i = NULL).
  { rewrite (run_split env now s i Hi).
    revert HB0 Hcb0 Ha Hrange Hcbs. generalize (evaluate now s).
    intros s0 HB0 Hcb0 Ha Hrange Hcbs.
    set (P := fun c => call_in_bounds c /\ call_spares i c /\ call_no_register c).
    set (Q := fun x : SimpleTimer =>
                Base x /\ kept x i = kept s0 i /\
                forall j, (j < i)%nat -> callbacks x !!! j <> fi).
    assert (Qcb : forall x, Q x -> callbacks x !!! i = fi).
    { intros x (_ & Hk & _). apply kept_eq in Hk. destruct Hk as (E & _).
      rewrite E, Hcbs. reflexivity. }
    assert (Hstay : forall x y, Q x ->
              (forall j, callbacks y !!! j = callbacks x !!! j \/
                         callbacks y !!! j = NULL) ->
              forall j, (j < i)%nat -> callbacks y !!! j <> fi).
    { intros x y (_ & _ & Hx) Hor j Hj.
      destruct (Hor j) as [E|E]; rewrite E; [apply Hx; exact Hj|].
      intros H. apply Hfi. symmetry. exact H. }
    assert (HcallQ : forall c x y r, P c -> Q x -> exec_call c x = Some (y, r) -> Q y).
    { intros c x y r (_ & Hs & Hn) Hx E. split; [eapply Base_call; [apply Hx|exact E]|].
      split.
      - rewrite (kept_call c x y r i E Hs); [apply Hx|]. rewrite (Qcb x Hx). exact Hfi.
      - apply (Hstay x y Hx). intros j. eapply callbacks_call_no_register; eauto. }
    assert (HdelQ : forall j x0 x y, (j < i)%nat -> Q x0 ->
              toBeCalled x0 !!! j = DEFCALL_RUNANDDEL -> Q x ->
              deleteTimer (Z.of_nat j) x = Some y -> Q y).
    { intros j x0 x y Hj _ _ Hx E. split; [eapply Base_delete; [apply Hx|exact E]|].
      split.
      - rewrite (kept_delete j x y i E); [apply Hx|lia|].
        rewrite (Qcb x Hx). exact Hfi.
      - apply (Hstay x y Hx). intros j'. eapply callbacks_delete_no_register; eauto. }
    assert (Hlocal : forall x j, Q x -> (j < i)%nat -> callbacks x !!! j <> NULL ->
              body_all P (env (callbacks x !!! j))).
    { intros x j (_ & _ & Hx) Hj _. specialize (Hx j Hj).
      pose proof (Henv (callbacks x !!! j)) as H1.
      pose proof (Hothers (callbacks x !!! j) Hx) as H2.
      pose proof (body_all_and _ _ _ H1 H2) as H3.
      eapply body_all_impl; [|exact H3]. intros c [[Hb Hn] Hs]. repeat split; assumption. }
    destruct (act_local env P Q (fun j => (j < i)%nat) Hlocal HcallQ HdelQ)
      with (idx := seq 0 i) (s := s0) as (s1 & t1 & E1 & HQ1).
    { intros c Hc. apply Hc. }
    { intros x Hx. apply Hx. }
    { intros j Hj. lia. }
    { apply Forall_forall. intros j Hj. apply elem_of_seq in Hj. lia. }
    { split; [exact HB0|]. split; [reflexivity|].
      intros j Hj. rewrite Hcbs. apply Hbefore. exact Hj. }
    rewrite E1.
    destruct (act_trace_outside env i _ _ _ _ E1) as (Hf1 & _);
      [apply not_In_seq; lia|].
    (* the iteration for slot [i]: the callback deletes its own timer *)
    pose proof (Qcb s1 HQ1) as Hc1.
    assert (Ht1 : toBeCalled s1 !!! i = toBeCalled s0 !!! i).
    { destruct HQ1 as (_ & Hk & _). apply kept_eq in Hk. apply Hk. }
    assert (HI1 : Inv s1) by (apply Base_Inv; apply HQ1).
    assert (Hcb1 : callbacks s1 !!! i <> NULL) by (rewrite Hc1; exact Hfi).
    pose proof (deleteTimer_in_use i s1 HI1 Hi Hcb1) as Hdel.
    assert (Hv1 : vacant i (cleared i s1)).
    { split; [eapply Base_delete; [apply HQ1|exact Hdel]|].
      rewrite <- view_cb, view_cleared; [reflexivity|apply HI1|exact Hi]. }
    pose proof (Henv fi) as Hbody. rewrite Hself in Hbody.
    cbn [body_all] in Hbody. destruct Hbody as [_ Hk].
    destruct (exec_body_defined call_tame (fun c H => proj1 H) _ (Hk 0) (cleared i s1))
      as (s2 & Ek).
    assert (Hv2 : vacant i s2).
    { eapply (exec_body_keeps call_tame (vacant i)); [|apply (Hk 0)|exact Hv1|exact Ek].
      intros c x y r Hc Hx E. eapply vacant_call; eauto. }
    assert (Hcall : call_callback env i s1 = Some s2).
    { unfold call_callback. rewrite Hc1. apply Z.eqb_neq in Hfi. rewrite Hfi.
      rewrite Hself. cbn [exec_body exec_call void]. rewrite Hdel. exact Ek. }
    assert (Hslot : act_slot env i s1 =
                    Some (s2, slot_events (toBeCalled s0 !!! i) i fi)).
    { unfold act_slot, slot_events. rewrite Ht1, Hcall, Hc1.
      destruct Hrange as [Hr|[Hr|Hr]]; [contradiction| |]; rewrite Hr.
      - reflexivity.
      - cbn [Z.eqb DEFCALL_DONTRUN DEFCALL_RUNONLY DEFCALL_RUNANDDEL Pos.eqb].
        rewrite (deleteTimer_free i s2 (proj2 Hv2)). reflexivity. }
    rewrite Hslot.
    assert (Hrest : (S i + (NSLOTS - S i) <= NSLOTS)%nat) by lia.
    destruct (act_vacant env i (seq (S i) (NSLOTS - S i)) s2 Henv
                (Forall_seq_lt _ _ Hrest) Hv2) as (s3 & t3 & E3 & [HB3 Hz3]).
    rewrite E3.
    destruct (act_trace_outside env i _ _ _ _ E3) as (Hf3 & _);
      [apply not_In_seq; lia|].
    exists s3, (s1, t1), t3. cbn [fst snd].
    split; [reflexivity|]. split; [reflexivity|].
    split; [exact Hf1|]. split; [exact Hf3|].
    split; [apply Base_Inv; exact HB3|exact Hz3]. }
  destruct Hwhole as (s' & t1 & t3 & _ & E & Hf1 & Hf3 & HI' & Hz').
  exists s', (snd t1), t3.
  split; [exact E|]. split; [exact Hf1|]. split; [exact Hf3|].
  split; [exact HI'|]. split; [exact Hz'|]. split.
  - intros j Hj HjN Hav Hcbj Hnd.
    apply (run_slot_view env now s j s' _ (proj1 HI) HjN Hav Hcbj Hnd E).
  - intros ticks.
    destruct (run_all_vacant env i ticks Hi Henv s' HI' Hz')
      as (s'' & tr & Er & Hfr & _ & Hzr).
    exists s'', tr. auto.
Qed.

Lemma self_deleter_tame f : body_all call_tame (self_deleter f).
Proof.
  unfold self_deleter. destruct (f =? 11); cbn; [|exact I].
  split; [split; [unfold call_in_bounds; lia|exact I]|intros _; exact I].
Qed.

Lemma self_deletion_safe_witness :
  exists s' tr, run self_deleter 1000 two_due = Some (s', tr) /\
                fires 0 tr = 1%nat /\ callbacks s' !!! 0%nat = NULL /\
                numTimers s' = 1.
Proof.
  destruct (self_deletion_safe self_deleter 1000 two_due 0 (fun _ => Return))
    as (s' & t1 & t3 & E & H1 & H3 & HI' & Hz & _).
  - vm_compute. repeat split; discriminate.
  - vm_compute. lia.
  - vm_compute. discriminate.
  - vm_compute. reflexivity.
  - exact self_deleter_tame.
  - intros f Hf. unfold self_deleter.
    destruct (f =? 11) eqn:E; [|exact I].
    exfalso. apply Hf. apply Z.eqb_eq in E. rewrite E. vm_compute. reflexivity.
  - intros j Hj. lia.
  - eexists _, _. split; [exact E|].
    split.
    + rewrite !fires_app, H1, H3. vm_compute. reflexivity.
    + split; [exact Hz|].
      assert (E' : exists x, run self_deleter 1000 two_due = Some x /\
                             numTimers (fst x) = 1)
        by (eexists; split; vm_compute; reflexivity).
      destruct E' as (x & Ex & Hn). rewrite E in Ex. inversion Ex; subst.
      exact Hn.
Defined.

(** * The sketch *)

Lemma calls_app g tr1 tr2 : calls g (tr1 ++ tr2) = (calls g tr1 + calls g tr2)%nat.
Proof.
  induction tr1 as [|[j f|j] tr1 IH]; cbn [calls app]; [reflexivity| |exact IH].
  rewrite IH. lia.
Qed.

Lemma calls_slot_events a f g :
  calls g (slot_events a 0 f) = if f =? g then fires 0 (slot_events a 0 f) else 0%nat.
Proof.
  unfold slot_events.
  destruct (a =? DEFCALL_RUNONLY); [|destruct (a =? DEFCALL_RUNANDDEL)];
    cbn [calls fires Nat.eqb]; destruct (f =? g); reflexivity.
Qed.

Lemma play_app tr1 tr2 : forall w, play (tr1 ++ tr2) w = play tr2 (play tr1 w).
Proof.
  induction tr1 as [|[j f|j] tr1 IH]; intros w; cbn [play app]; [reflexivity| |];
    apply IH.
Qed.

Lemma written_app pin l1 l2 : written pin (l1 ++ l2) = written pin l1 ++ written pin l2.
Proof.
  induction l1 as [|[p m|p v] l1 IH]; cbn [written app]; [reflexivity|exact IH|].
  destruct (p =? pin); [cbn [app]; rewrite IH|]; auto.
Qed.

Lemma to_uint8_lnot v : to_uint8 (lnot v) = lnot v.
Proof. unfold lnot. destruct (v =? 0); reflexivity. Qed.

Lemma iter_lnot_LOW n : Nat.iter n lnot LOW = if Nat.even n then LOW else HIGH.
Proof.
  induction n as [|n IH]; [reflexivity|].
  rewrite Nat.iter_succ, IH, Nat.even_succ, <- Nat.negb_even.
  destruct (Nat.even n); reflexivity.
Qed.

Lemma iter_lnot_succ n v : Nat.iter (S n) lnot v = Nat.iter n lnot (lnot v).
Proof. apply Nat.iter_succ_r. Qed.

(** What a sequence of calls does to the globals. *)
Lemma play_counts tr : forall w,
  state_red (play tr w) = Nat.iter (calls fn_toggle_red tr) lnot (state_red w) /\
  state_green (play tr w) = Nat.iter (calls fn_toggle_green tr) lnot (state_green w) /\
  exists l, wiring (play tr w) = wiring w ++ l /\
    written led_red l = blink (calls fn_toggle_red tr) (state_red w) /\
    written led_green l = blink (calls fn_toggle_green tr) (state_green w) /\
    written led_yellow l = repeat HIGH (calls fn_turn_on tr).
Proof.
  induction tr as [|[j g|j] tr IH]; intros w; cbn [play].
  - split; [reflexivity|]. split; [reflexivity|]. exists [].
    rewrite app_nil_r. repeat split.
  - destruct (IH (call_function g w)) as (Hr & Hg & l & Hl & Wr & Wg & Wy).
    rewrite Hr, Hg, Hl. clear Hr Hg Hl. cbn [calls].
    unfold call_function in *.
    destruct (g =? fn_toggle_red) eqn:E1.
    { apply Z.eqb_eq in E1. subst g.
      change (fn_toggle_red =? fn_toggle_green) with false.
      change (fn_toggle_red =? fn_turn_on) with false.
      change (fn_toggle_red =? fn_toggle_red) with true.
      cbn [Nat.add]. rewrite iter_lnot_succ.
      unfold toggle_red, digitalWrite in *. cbn [state_red state_green wiring] in *.
      rewrite to_uint8_lnot in *.
      split; [reflexivity|]. split; [reflexivity|].
      eexists. rewrite <- app_assoc. split; [reflexivity|].
      rewrite !written_app, Wr, Wg, Wy. repeat split. }
    destruct (g =? fn_turn_on) eqn:E2.
    { apply Z.eqb_eq in E2. subst g.
      change (fn_turn_on =? fn_toggle_green) with false.
      change (fn_turn_on =? fn_toggle_red) with false.
      cbn [Nat.add].
      unfold turn_on, digitalWrite in *. cbn [state_red state_green wiring] in *.
      split; [reflexivity|]. split; [reflexivity|].
      eexists. rewrite <- app_assoc. split; [reflexivity|].
      rewrite !written_app, Wr, Wg, Wy. repeat split. }
    destruct (g =? fn_toggle_green) eqn:E3.
    { apply Z.eqb_eq in E3. subst g. cbn [Nat.add]. rewrite iter_lnot_succ.
      unfold toggle_green, digitalWrite in *. cbn [state_red state_green wiring] in *.
      rewrite to_uint8_lnot in *.
      split; [reflexivity|]. split; [reflexivity|].
      eexists. rewrite <- app_assoc. split; [reflexivity|].
      rewrite !written_app, Wr, Wg, Wy. repeat split. }
    cbn [Nat.add]. split; [reflexivity|]. split; [reflexivity|].
    exists l. repeat split; assumption.
  - apply IH.
Qed.

(** A pass over an object that uses slot 0 only, with callbacks that make
    no call on the timer: the whole trace. *)
Lemma run_solo now s :
  Inv s -> solo s ->
  exists s',
    run passive now s =
      Some (s', slot_events (toBeCalled (evaluate now s) !!! 0%nat) 0
                            (callbacks s !!! 0%nat)) /\
    Inv s' /\ solo s' /\
    (callbacks s' !!! 0%nat = callbacks s !!! 0%nat \/ callbacks s' !!! 0%nat = NULL) /\
    (callbacks s !!! 0%nat = NULL ->
     toBeCalled (evaluate now s) !!! 0%nat = DEFCALL_DONTRUN).
Proof.
  intros HI Hsolo.
  assert (H0 : (0 < NSLOTS)%nat) by (vm_compute; lia).
  rewrite (run_split passive now s 0 H0).
  pose proof (Base_evaluate now s HI) as HB.
  pose proof (toBeCalled_evaluate_range now s 0 (proj1 HI) H0) as Hrange.
  pose proof (callbacks_evaluate now s) as Hcbs.
  assert (Hidle : forall j, (0 < j < NSLOTS)%nat ->
            toBeCalled (evaluate now s) !!! j = DEFCALL_DONTRUN).
  { intros j Hj. rewrite <- view_tbc, view_evaluate by (try apply HI; lia).
    rewrite step_slot_free by (rewrite view_cb; apply Hsolo; exact Hj). reflexivity. }
  revert HB Hrange Hcbs Hidle. generalize (evaluate now s).
  intros x HB Hrange Hcbs Hidle.
  assert (Hcb0 : callbacks x !!! 0%nat = callbacks s !!! 0%nat) by (rewrite Hcbs; reflexivity).
  assert (Hsx : solo x) by (intros j Hj; rewrite Hcbs; apply Hsolo; exact Hj).
  assert (Hin : forall j, In j (seq 1 (NSLOTS - 1)) -> (0 < j < NSLOTS)%nat).
  { intros j Hj. apply in_seq in Hj. lia. }
  change (seq 0 0) with (@nil nat). cbn [act app].
  destruct Hrange as [Hr|[Hr|Hr]].
  - exists x. rewrite (act_slot_idle passive 0 x Hr).
    rewrite act_all_idle by (intros j Hj; apply Hidle, Hin, Hj).
    rewrite Hr. split; [reflexivity|]. split; [apply Base_Inv; exact HB|].
    split; [exact Hsx|]. split; [left; exact Hcb0|]. intros _. reflexivity.
  - assert (Hnz : callbacks x !!! 0%nat <> NULL) by (apply HB; [exact H0|rewrite Hr; discriminate]).
    assert (Hcall : call_callback passive 0 x = Some x).
    { unfold call_callback. apply Z.eqb_neq in Hnz. rewrite Hnz. reflexivity. }
    exists x. unfold act_slot. rewrite Hr, Hcall.
    cbn [Z.eqb DEFCALL_DONTRUN DEFCALL_RUNONLY DEFCALL_RUNANDDEL Pos.eqb].
    rewrite act_all_idle by (intros j Hj; apply Hidle, Hin, Hj).
    rewrite Hcb0. split; [reflexivity|]. split; [apply Base_Inv; exact HB|].
    split; [exact Hsx|]. split; [left; reflexivity|].
    intros Hz. exfalso. apply Hnz. rewrite Hcb0. exact Hz.
  - assert (Hnz : callbacks x !!! 0%nat <> NULL) by (apply HB; [exact H0|rewrite Hr; discriminate]).
    assert (Hcall : call_callback passive 0 x = Some x).
    { unfold call_callback. apply Z.eqb_neq in Hnz. rewrite Hnz. reflexivity. }
    pose proof (deleteTimer_in_use 0 x (Base_Inv x HB) H0 Hnz) as Hdel.
    exists (cleared 0 x). unfold act_slot. rewrite Hr, Hcall.
    cbn [Z.eqb DEFCALL_DONTRUN DEFCALL_RUNONLY DEFCALL_RUNANDDEL Pos.eqb].
    rewrite Hdel.
    rewrite act_all_idle.
    + rewrite Hcb0. split; [reflexivity|].
      split; [eapply Inv_delete; [apply Base_Inv; exact HB|exact Hdel]|].
      split.
      * intros j Hj. rewrite <- view_cb, view_cleared_other by lia.
        rewrite view_cb. apply Hsx. exact Hj.
      * split.
        -- right. rewrite <- view_cb, view_cleared; [reflexivity|apply HB|exact H0].
        -- intros Hz. exfalso. apply Hnz. rewrite Hcb0. exact Hz.
    + intros j Hj. apply Hin in Hj.
      rewrite <- view_tbc, view_cleared_other by lia. rewrite view_tbc.
      apply Hidle. exact Hj.
Qed.

(** Over any number of passes, the calls such an object makes are those of
    slot 0, through the callback registered there. *)
Lemma run_all_solo f ticks : forall s,
  Inv s -> solo s ->
  callbacks s !!! 0%nat = f \/ callbacks s !!! 0%nat = NULL ->
  exists s' tr, run_all passive ticks s = Some (s', tr) /\
    forall g, calls g tr = if f =? g then fires 0 tr else 0%nat.
Proof.
  induction ticks as [|t ticks IH]; intros s HI Hs Hc; cbn [run_all].
  - exists s, []. split; [reflexivity|]. intros g. destruct (f =? g); reflexivity.
  - destruct (run_solo t s HI Hs) as (s1 & E1 & HI1 & Hs1 & Hc1 & Hz1).
    rewrite E1.
    assert (Hc' : callbacks s1 !!! 0%nat = f \/ callbacks s1 !!! 0%nat = NULL).
    { destruct Hc1 as [Hc1|Hc1]; [rewrite Hc1; exact Hc|right; exact Hc1]. }
    destruct (IH s1 HI1 Hs1 Hc') as (s2 & tr2 & E2 & Hg2).
    rewrite E2. eexists _, _. split; [reflexivity|]. intros g.
    rewrite calls_app, fires_app, Hg2.
    destruct Hc as [Hc|Hc].
    + rewrite Hc, calls_slot_events. destruct (f =? g); reflexivity.
    + rewrite (Hz1 Hc). unfold slot_events.
      cbn [Z.eqb DEFCALL_DONTRUN DEFCALL_RUNONLY DEFCALL_RUNANDDEL calls fires].
      destruct (f =? g); reflexivity.
Qed.

Lemma run_all_cons env t ts s :
  run_all env (t :: ts) s =
  match run env t s with
  | Some (s1, tr1) =>
      match run_all env ts s1 with
      | Some (s2, tr2) => Some (s2, tr1 ++ tr2)
      | None => None
      end
  | None => None
  end.
Proof. reflexivity. Qed.

Lemma run_all_cons_inv env t ts s a tr :
  run_all env (t :: ts) s = Some (a, tr) ->
  exists x e f, run env t s = Some (x, e) /\ run_all env ts x = Some (a, f) /\
                tr = e ++ f.
Proof.
  rewrite run_all_cons. generalize (run env t s). intros [[x e]|]; [|discriminate].
  destruct (run_all env ts x) as [[y f]|] eqn:E; [|discriminate].
  intros H. injection H as <- <-. exists x, e, f. rewrite E. repeat split; reflexivity.
Qed.

Lemma loop_step c1 c2 c3 st x1 e1 x2 e2 x3 e3 :
  run passive c1 (timer1 st) = Some (x1, e1) ->
  run passive c2 (timer2 st) = Some (x2, e2) ->
  run passive c3 (timer3 st) = Some (x3, e3) ->
  loop (c1, c2, c3) st =
  Some (mkSketch (play e3 (play e2 (play e1 (globals st)))) x1 x2 x3).
Proof.
  intros Q1 Q2 Q3. unfold loop, run_timer. rewrite Q1, Q2, Q3. reflexivity.
Qed.

(** The three timers are polled in turn but do not interact: after any number
    of calls of [loop()] each is where its own polls take it, and the calls
    made are those of the three traces. *)
Lemma loops_runs cs : forall st a1 tr1 a2 tr2 a3 tr3,
  run_all passive (map tick1 cs) (timer1 st) = Some (a1, tr1) ->
  run_all passive (map tick2 cs) (timer2 st) = Some (a2, tr2) ->
  run_all passive (map tick3 cs) (timer3 st) = Some (a3, tr3) ->
  exists tr,
    loops cs st = Some (mkSketch (play tr (globals st)) a1 a2 a3) /\
    forall g, calls g tr = (calls g tr1 + calls g tr2 + calls g tr3)%nat.
Proof.
  induction cs as [|[[c1 c2] c3] cs IH]; intros st a1 tr1 a2 tr2 a3 tr3 R1 R2 R3.
  - cbn [map run_all] in R1, R2, R3.
    inversion R1; inversion R2; inversion R3; subst. exists [].
    destruct st; cbn [loops play globals timer1 timer2 timer3]. split; reflexivity.
  - rewrite map_cons in R1, R2, R3.
    apply run_all_cons_inv in R1. destruct R1 as (x1 & e1 & f1 & Q1 & S1 & ->).
    apply run_all_cons_inv in R2. destruct R2 as (x2 & e2 & f2 & Q2 & S2 & ->).
    apply run_all_cons_inv in R3. destruct R3 as (x3 & e3 & f3 & Q3 & S3 & ->).
    destruct (IH (mkSketch (play e3 (play e2 (play e1 (globals st)))) x1 x2 x3)
                 a1 f1 a2 f2 a3 f3 S1 S2 S3) as (tr & E & Hc).
    exists (e1 ++ e2 ++ e3 ++ tr). cbn [loops].
    rewrite (loop_step c1 c2 c3 st x1 e1 x2 e2 x3 e3 Q1 Q2 Q3), E. cbn [globals].
    rewrite !play_app. split; [reflexivity|].
    intros g. rewrite !calls_app, Hc. lia.
Qed.

(** The first registration on a new object takes slot 0. *)
Lemma setTimer_first b t d f n :
  f <> NULL ->
  exists s, setTimer t d f n (SimpleTimer_new blank b) = (s, 0) /\
            Inv s /\ solo s /\ view s 0 = mkSlot t f d n 0 true 0.
Proof.
  intros Hf.
  assert (H0 : (0 < NSLOTS)%nat) by (vm_compute; lia).
  pose proof (Inv_new blank b wf_blank) as HI.
  assert (Hv : forall j, (j < NSLOTS)%nat ->
            view (SimpleTimer_new blank b) j = mkSlot b 0 0 0 0 false 0).
  { intros j Hj. rewrite view_new by (exact wf_blank || exact Hj).
    unfold blank. cbn [delays maxNumRuns toBeCalled].
    rewrite !lookup_total_replicate_2 by exact Hj. reflexivity. }
  destruct (setTimer_succeeds t d f n (SimpleTimer_new blank b) 0 HI H0)
    as (i & Hi & _ & _ & E); [rewrite <- view_cb, Hv by exact H0; reflexivity|exact Hf|].
  assert (i = 0%nat) by lia. subst i.
  exists (registered 0 t d f n (SimpleTimer_new blank b)).
  split; [exact E|]. split; [|split].
  - apply (Inv_call (CallSetTimer t d f n) (SimpleTimer_new blank b) _ 0 HI).
    cbn [exec_call]. rewrite E. reflexivity.
  - intros j Hj. rewrite <- view_cb, view_registered_other by lia.
    rewrite Hv by lia. reflexivity.
  - rewrite view_registered by (apply HI || exact H0).
    rewrite <- view_runs, <- view_tbc, Hv by exact H0. reflexivity.
Qed.

(** The number of calls a timer with a run limit gets. *)
Lemma run_all_live_count env i f n p ticks r pm s :
  (i < NSLOTS)%nat -> (forall f', body_all (call_quiet i) (env f')) ->
  f <> NULL -> 0 < n -> live i f n p r pm s ->
  exists s' tr, run_all env ticks s = Some (s', tr) /\
    fires i tr = Nat.min (Z.to_nat (n - r)) (due_count pm p ticks).
Proof.
  intros Hi Henv Hf Hn Hs.
  destruct (run_all_live env i Hi Henv f n p Hf Hn ticks r pm s Hs)
    as (s' & tr & E & Hcase).
  exists s', tr. split; [exact E|]. cbv zeta in Hcase.
  destruct Hs as (_ & Hr & _).
  destruct (Z.of_nat (due_count pm p ticks) <? n - r) eqn:Hk.
  - destruct Hcase as (Hfi & _). rewrite Hfi. lia.
  - destruct Hcase as ((t1 & t3 & -> & H1 & _ & H3 & _) & _).
    rewrite fires_app. cbn [fires]. rewrite Nat.eqb_refl, H1, H3. lia.
Qed.

Lemma passive_quiet i f : body_all (call_quiet i) (passive f).
Proof. exact I. Qed.

Lemma passive_avoids i f :
  body_all (fun c => call_in_bounds c /\ call_avoids i c) (passive f).
Proof. exact I. Qed.

(** X11. The sketch.  Whatever the clock readings of the constructors, of
    [setup()] (the first within [unsigned long], as [millis()] gives it) and
    of any number of calls of [loop()], the program has defined behaviour, and
    the pins see this: the three pin modes are set first; the red LED is
    written once for each poll of [timer1] that finds its interval of 1000
    due, the values alternating from [HIGH]; the yellow LED is written with
    [HIGH], once if some poll of [timer2] finds the 5000 elapsed and never
    again; the green LED is written like the red one, but five times at most.
    [state_red] and [state_green] hold the parity of the writes. *)
Theorem sketch_blinks b1 b2 b3 c1 c2 c3 cs :
  0 <= c1 < ULONG_MODULUS ->
  exists st,
    loops cs (setup c1 c2 c3 (power_on b1 b2 b3)) = Some st /\
    let reds := due_count c1 1000 (map tick1 cs) in
    let yellows := Nat.min 1 (due_count c2 5000 (map tick2 cs)) in
    let greens := Nat.min 5 (due_count c3 1000 (map tick3 cs)) in
    firstn 3 (wiring (globals st)) =
      [PinMode led_red OUTPUT; PinMode led_yellow OUTPUT; PinMode led_green OUTPUT] /\
    written led_red (wiring (globals st)) = blink reds LOW /\
    written led_yellow (wiring (globals st)) = repeat HIGH yellows /\
    written led_green (wiring (globals st)) = blink greens LOW /\
    state_red (globals st) = (if Nat.even reds then LOW else HIGH) /\
    state_green (globals st) = (if Nat.even greens then LOW else HIGH).
Proof.
  intros Hc1.
  assert (H0 : (0 < NSLOTS)%nat) by (vm_compute; lia).
  assert (Hf1 : fn_toggle_red <> NULL) by discriminate.
  assert (Hf2 : fn_turn_on <> NULL) by discriminate.
  assert (Hf3 : fn_toggle_green <> NULL) by discriminate.
  unfold setup, power_on. cbn [globals timer1 timer2 timer3].
  unfold setInterval, setTimeout.
  destruct (setTimer_first b1 c1 1000 fn_toggle_red RUN_FOREVER Hf1)
    as (s1 & -> & HI1 & So1 & V1).
  destruct (setTimer_first b2 c2 5000 fn_turn_on RUN_ONCE Hf2)
    as (s2 & -> & HI2 & So2 & V2).
  destruct (setTimer_first b3 c3 1000 fn_toggle_green 5 Hf3)
    as (s3 & -> & HI3 & So3 & V3).
  cbn [fst].
  (* timer1 *)
  assert (P1 : perpetual 0 fn_toggle_red 1000 (to_ulong c1) s1).
  { split; [exact HI1|]. rewrite (to_ulong_small c1 Hc1), V1.
    rewrite <- view_runs, <- view_tbc, V1. reflexivity. }
  destruct (run_all_perpetual passive 0 H0 (passive_avoids 0) fn_toggle_red 1000 Hf1
              (map tick1 cs) c1 s1 P1) as (a1 & tr1 & R1 & F1 & _).
  rewrite (to_ulong_small c1 Hc1) in F1.
  destruct (run_all_solo fn_toggle_red (map tick1 cs) s1 HI1 So1) as (a1' & tr1' & R1' & C1).
  { left. rewrite <- view_cb, V1. reflexivity. }
  rewrite R1 in R1'. inversion R1'; subst a1' tr1'. clear R1'.
  (* timer2 *)
  assert (L2 : live 0 fn_turn_on RUN_ONCE 5000 0 c2 s2).
  { split; [exact HI2|]. split; [unfold RUN_ONCE; lia|].
    rewrite V2, <- view_tbc, V2. reflexivity. }
  destruct (run_all_live_count passive 0 fn_turn_on RUN_ONCE 5000 (map tick2 cs) 0 c2 s2
              H0 (passive_quiet 0) Hf2 ltac:(unfold RUN_ONCE; lia) L2)
    as (a2 & tr2 & R2 & F2).
  destruct (run_all_solo fn_turn_on (map tick2 cs) s2 HI2 So2) as (a2' & tr2' & R2' & C2).
  { left. rewrite <- view_cb, V2. reflexivity. }
  rewrite R2 in R2'. inversion R2'; subst a2' tr2'. clear R2'.
  (* timer3 *)
  assert (L3 : live 0 fn_toggle_green 5 1000 0 c3 s3).
  { split; [exact HI3|]. split; [lia|].
    rewrite V3, <- view_tbc, V3. reflexivity. }
  destruct (run_all_live_count passive 0 fn_toggle_green 5 1000 (map tick3 cs) 0 c3 s3
              H0 (passive_quiet 0) Hf3 ltac:(lia) L3)
    as (a3 & tr3 & R3 & F3).
  destruct (run_all_solo fn_toggle_green (map tick3 cs) s3 HI3 So3) as (a3' & tr3' & R3' & C3).
  { left. rewrite <- view_cb, V3. reflexivity. }
  rewrite R3 in R3'. inversion R3'; subst a3' tr3'. clear R3'.
  change (Z.to_nat (RUN_ONCE - 0)) with 1%nat in F2.
  change (Z.to_nat (5 - 0)) with 5%nat in F3.
  (* the three together *)
  set (w0 := pinMode led_green OUTPUT
               (pinMode led_yellow OUTPUT (pinMode led_red OUTPUT (mkWorld LOW LOW [])))).
  destruct (loops_runs cs (mkSketch w0 s1 s2 s3) a1 tr1 a2 tr2 a3 tr3 R1 R2 R3)
    as (tr & E & Hcalls).
  exists (mkSketch (play tr w0) a1 a2 a3). split; [exact E|].
  cbn [globals]. cbv zeta.
  assert (Nr : calls fn_toggle_red tr = due_count c1 1000 (map tick1 cs)).
  { rewrite Hcalls, C1, C2, C3, F1. cbn [Z.eqb Pos.eqb fn_toggle_red fn_turn_on fn_toggle_green]. lia. }
  assert (Ny : calls fn_turn_on tr = Nat.min 1 (due_count c2 5000 (map tick2 cs))).
  { rewrite Hcalls, C1, C2, C3, F2. cbn [Z.eqb Pos.eqb fn_toggle_red fn_turn_on fn_toggle_green]. lia. }
  assert (Ng : calls fn_toggle_green tr = Nat.min 5 (due_count c3 1000 (map tick3 cs))).
  { rewrite Hcalls, C1, C2, C3, F3. cbn [Z.eqb Pos.eqb fn_toggle_red fn_turn_on fn_toggle_green]. lia. }
  destruct (play_counts tr w0) as (Sr & Sg & l & Hl & Wr & Wg & Wy).
  rewrite Sr, Sg, Hl, Nr, Ng. rewrite Nr in Wr. rewrite Ng in Wg. rewrite Ny in Wy.
  rewrite !written_app, Wr, Wg, Wy.
  change (state_red w0) with LOW. change (state_green w0) with LOW.
  rewrite !iter_lnot_LOW.
  repeat split; reflexivity.
Qed.

Lemma sketch_blinks_witness :
  0 <= 20 < ULONG_MODULUS /\
  exists st,
    loops [(1000, 1000, 1000); (1020, 1021, 1022); (5030, 5031, 5032)]
          (setup 20 21 22 (power_on 0 0 0)) = Some st /\
    written led_red (wiring (globals st)) = [HIGH; LOW] /\
    written led_yellow (wiring (globals st)) = [HIGH] /\
    written led_green (wiring (globals st)) = [HIGH; LOW].
Proof.
  assert (H : 0 <= 20 < ULONG_MODULUS) by (split; [lia|reflexivity]).
  split; [exact H|].
  destruct (sketch_blinks 0 0 0 20 21 22
              [(1000, 1000, 1000); (1020, 1021, 1022); (5030, 5031, 5032)] H)
    as (st & E & _ & Hr & Hy & Hg & _).
  exists st. split; [exact E|]. rewrite Hr, Hy, Hg.
  vm_compute. repeat split.
Defined.

(** * The deferred-call marks between passes *)

Lemma lookup_total_ext {A} `{Inhabited A} (l1 l2 : list A) (n : nat) :
  length l1 = n -> length l2 = n ->
  (forall j, (j < n)%nat -> l1 !!! j = l2 !!! j) -> l1 = l2.
Proof.
  intros H1 H2 Hall. apply list_eq. intros j.
  destruct (Nat.lt_ge_cases j n) as [Hlt|Hge].
  - rewrite !list_lookup_lookup_total_lt by lia. rewrite (Hall j Hlt). reflexivity.
  - rewrite !lookup_ge_None_2 by lia. reflexivity.
Qed.

(** Two objects with the same slots and the same count are the same. *)
Lemma state_ext x y :
  wf x -> wf y -> numTimers x = numTimers y ->
  (forall j, (j < NSLOTS)%nat -> view x j = view y j) -> x = y.
Proof.
  intros Hx Hy Hn Hv. wf_split Hx. wf_split Hy.
  rewrite <- (SimpleTimer_eta x), <- (SimpleTimer_eta y), Hn.
  f_equal; apply (lookup_total_ext _ _ NSLOTS); try assumption;
    intros j Hj; apply (view_eq x y j (Hv j Hj)).
Qed.

Lemma step_slot_marks now v a :
  step_slot now (mkSlot (sl_prev v) (sl_cb v) (sl_delay v) (sl_max v)
                        (sl_runs v) (sl_en v) a) = step_slot now v.
Proof. reflexivity. Qed.

Lemma evaluate_marks now s marks :
  wf s -> length marks = NSLOTS ->
  evaluate now (with_toBeCalled marks s) = evaluate now s.
Proof.
  intros Hwf Hlen.
  assert (Hwf' : wf (with_toBeCalled marks s)).
  { wf_split Hwf. unfold wf, with_toBeCalled. setters. auto 10. }
  apply state_ext.
  - apply wf_evaluate. exact Hwf'.
  - apply wf_evaluate. exact Hwf.
  - rewrite !numTimers_evaluate. reflexivity.
  - intros j Hj. rewrite !view_evaluate by assumption.
    rewrite <- (step_slot_marks now (view s j) (marks !!! j)). reflexivity.
Qed.

(** X12. The deferred-call marks carry nothing from one pass to the next:
    [run()] writes [toBeCalled[i]] for every slot before it reads any, so a
    pass does the same whatever the array held before, which the
    constructor leaves uninitialised. *)
Theorem run_ignores_stale_marks env now s marks :
  wf s -> length marks = NSLOTS ->
  run env now (with_toBeCalled marks s) = run env now s.
Proof.
  intros Hwf Hlen. rewrite !run_eq, (evaluate_marks now s marks Hwf Hlen).
  reflexivity.
Qed.

Lemma run_ignores_stale_marks_witness :
  run deleter 1000 (with_toBeCalled (replicate NSLOTS DEFCALL_RUNANDDEL) two_due) =
  run deleter 1000 two_due.
Proof.
  apply (run_ignores_stale_marks deleter 1000 two_due
           (replicate NSLOTS DEFCALL_RUNANDDEL)).
  - vm_compute. repeat split.
  - vm_compute. reflexivity.
Defined.

(** * No catch-up bursts *)

Lemma ulong_sub_same now : ulong_sub now now = 0.
Proof. unfold ulong_sub, to_ulong. rewrite Z.sub_diag. reflexivity. Qed.

(** Polls repeated at one tick find the timer due once for each full period
    elapsed, and no more. *)
Lemma due_count_same_tick now p :
  0 < p < ULONG_MODULUS ->
  forall (n : nat) pm,
    due_count pm p (repeat now n) = Nat.min n (Z.to_nat (ulong_sub now pm / p)).
Proof.
  intros Hp. induction n as [|n IH]; intros pm; cbn [repeat due_count]; [reflexivity|].
  pose proof (ulong_sub_range now pm) as He.
  assert (Hps : to_ulong p = p) by (apply to_ulong_small; lia).
  destruct (is_due now pm p) eqn:Hdue; unfold is_due in Hdue; rewrite Hps in Hdue;
    rewrite IH.
  - assert (He' : ulong_sub now (ulong_add pm p) = ulong_sub now pm - p).
    { rewrite (ulong_sub_advance now now pm p), ulong_sub_same.
      apply to_ulong_small. lia. }
    rewrite He'.
    assert (Hq : 1 <= ulong_sub now pm / p) by (apply Z.div_le_lower_bound; lia).
    assert (Hd : (ulong_sub now pm - p) / p = ulong_sub now pm / p - 1).
    { replace (ulong_sub now pm - p) with (ulong_sub now pm + (-1) * p) by ring.
      rewrite Z.div_add by lia. lia. }
    rewrite Hd. lia.
  - rewrite Z.div_small by lia. lia.
Qed.

(** C3. A slot in use, enabled, of period [p > 0], polled when [k * p] ticks
    or more ([k > 1]) have elapsed since its baseline [pm], the elapsed time
    being [(now - pm) mod 2^32].  The first loop advances the baseline by
    exactly one period, to [(pm + p) mod 2^32]; against that baseline the slot
    is due again at every later poll [now'] (so at the very next one) for
    which the elapsed time has not wrapped.  The pass calls the slot at most
    once, whatever the callbacks do; if no callback addresses the slot it
    calls it exactly once when it runs forever or has runs left, and unless
    that was its last run the slot ends the pass in use, enabled, with the
    advanced baseline and its period.  The slot stays due only until the
    baseline has caught up: after [j] advances it is due at tick [now] if
    and only if yet another period fits in the elapsed time.  So of [n]
    polls made at tick [now], the first [elapsed / p] call a slot that runs
    forever and the others do not, and the baseline ends [elapsed / p]
    periods on; a slot with a run limit is called as often, up to the runs
    it has left. *)
Theorem one_call_per_pass now s i p k :
  Inv s -> (i < NSLOTS)%nat ->
  callbacks s !!! i <> NULL -> enabled s !!! i = true ->
  delays s !!! i = p -> 0 < p -> 1 < k ->
  let pm := prev_millis s !!! i in
  let elapsed := (now - pm) mod 2 ^ 32 in
  k * p <= elapsed ->
  let pm' := (pm + p) mod 2 ^ 32 in
  let m := Z.to_nat (elapsed / p) in
  prev_millis (evaluate now s) !!! i = pm' /\
  (forall now',
     (now' - now) mod 2 ^ 32 + elapsed < 2 ^ 32 -> is_due now' pm' p = true) /\
  (forall env s' tr, run env now s = Some (s', tr) -> (fires i tr <= 1)%nat) /\
  (forall env,
     (forall f, body_all (fun c => call_in_bounds c /\ call_avoids i c) (env f)) ->
     exists s' tr,
       run env now s = Some (s', tr) /\
       ((maxNumRuns s !!! i = RUN_FOREVER \/ numRuns s !!! i < maxNumRuns s !!! i) ->
        fires i tr = 1%nat) /\
       (toBeCalled (evaluate now s) !!! i <> DEFCALL_RUNANDDEL ->
        callbacks s' !!! i = callbacks s !!! i /\ enabled s' !!! i = true /\
        delays s' !!! i = p /\ prev_millis s' !!! i = pm')) /\
  (forall j : nat,
     Z.of_nat j * p <= elapsed ->
     (is_due now ((pm + Z.of_nat j * p) mod 2 ^ 32) p = true <->
      (Z.of_nat j + 1) * p <= elapsed)) /\
  (forall env (n : nat),
     (forall f, body_all (call_quiet i) (env f)) ->
     (maxNumRuns s !!! i = RUN_FOREVER -> 0 <= pm < 2 ^ 32 ->
      exists s' tr,
        run_all env (repeat now n) s = Some (s', tr) /\
        fires i tr = Nat.min n m /\
        callbacks s' !!! i = callbacks s !!! i /\ enabled s' !!! i = true /\
        prev_millis s' !!! i = (pm + Z.of_nat (Nat.min n m) * p) mod 2 ^ 32) /\
     (0 <= numRuns s !!! i < maxNumRuns s !!! i ->
      exists s' tr,
        run_all env (repeat now n) s = Some (s', tr) /\
        fires i tr =
          Nat.min (Nat.min n m) (Z.to_nat (maxNumRuns s !!! i - numRuns s !!! i)))).
Proof.
  intros HI Hi Hcb Hen Hdl Hp Hk pm elapsed Hel pm' m.
  change (2 ^ 32) with ULONG_MODULUS in *.
  assert (Hesub : ulong_sub now pm = elapsed) by reflexivity.
  assert (Hpm' : ulong_add pm p = pm') by reflexivity.
  pose proof (ulong_sub_range now pm) as Hrange. rewrite Hesub in Hrange.
  assert (Hkp : 2 * p <= k * p) by nia.
  assert (Hpsmall : to_ulong p = p) by (apply to_ulong_small; lia).
  assert (Hdue : is_due now pm p = true).
  { unfold is_due. rewrite Hpsmall, Hesub. lia. }
  pose proof HI as [Hwf Hc].
  destruct (evaluate_slot now s i Hwf Hi) as (Epm & _ & Etbc).
  destruct (step_slot_due now (view s i)) as (Hprev & Harm & _).
  { rewrite view_cb. exact Hcb. }
  { rewrite view_prev, view_delay, Hdl. exact Hdue. }
  rewrite view_prev, view_delay, Hdl in Hprev. fold pm in Hprev. rewrite Hpm' in Hprev.
  rewrite view_en, view_max, view_runs in Harm.
  assert (Epm' : prev_millis (evaluate now s) !!! i = pm') by congruence.
  split; [exact Epm'|]. split.
  { intros now' Hnw. unfold is_due. rewrite <- Hpm', (ulong_sub_advance now now').
    pose proof (ulong_sub_range now' now) as Hr'.
    change ((now' - now) mod ULONG_MODULUS) with (ulong_sub now' now) in Hnw.
    rewrite Hesub. rewrite to_ulong_small by lia. rewrite Hpsmall. lia. }
  split.
  { intros env s' tr E. apply (run_fires_le_1 env now s i s' tr Hi E). }
  split.
  { intros env Henv.
    assert (Hsp : forall f, body_all (fun c => call_in_bounds c /\ call_spares i c) (env f)).
    { intros f. eapply body_all_impl; [|apply Henv].
      intros c [Hb Ha]. split; [exact Hb|apply avoids_spares; exact Ha]. }
    assert (Hav : forall f, body_all (call_avoids i) (env f)).
    { intros f. eapply body_all_impl; [|apply Henv]. intros c [_ Ha]. exact Ha. }
    assert (Hib : forall f, body_all call_in_bounds (env f)).
    { intros f. eapply body_all_impl; [|apply Henv]. intros c [Hb _]. exact Hb. }
    assert (Hfinal : forall s' tr, run env now s = Some (s', tr) ->
              toBeCalled (evaluate now s) !!! i <> DEFCALL_RUNANDDEL ->
              callbacks s' !!! i = callbacks s !!! i /\ enabled s' !!! i = true /\
              delays s' !!! i = p /\ prev_millis s' !!! i = pm').
    { intros s' tr E Hnd.
      pose proof (run_slot_view env now s i s' tr Hwf Hi Hav Hcb Hnd E) as Hv.
      apply view_eq in Hv. destruct Hv as (V1 & V2 & V3 & _ & _ & V6 & _).
      rewrite V1, V2, V3, V6, callbacks_evaluate, enabled_evaluate, delays_evaluate.
      auto. }
    destruct (Z.eq_dec (toBeCalled (evaluate now s) !!! i) DEFCALL_DONTRUN) as [Hz|Hnz].
    - destruct (run_defined env now s HI Hib) as (s' & tr & E & _).
      exists s', tr. split; [exact E|]. split.
      + intros Hleft. exfalso. rewrite Etbc in Hz. exact (Harm Hen Hleft Hz).
      + apply (Hfinal s' tr E).
    - destruct (run_armed_slot env now s i HI Hi Hsp Hnz)
        as (_ & s' & t1 & t3 & E & H1 & _ & H3 & _ & _).
      eexists _, _. split; [exact E|]. split.
      + intros _. rewrite !fires_app, H1, H3, fires_slot_events; [reflexivity|exact Hnz|].
        apply toBeCalled_evaluate_range; assumption.
      + apply (Hfinal _ _ E). }
  split.
  { intros j Hj.
    assert (Hsub : ulong_sub now ((pm + Z.of_nat j * p) mod ULONG_MODULUS) =
                   elapsed - Z.of_nat j * p).
    { unfold ulong_sub, to_ulong. rewrite Zminus_mod_idemp_r.
      replace (now - (pm + Z.of_nat j * p)) with (now - pm - Z.of_nat j * p) by ring.
      rewrite <- Zminus_mod_idemp_l. fold elapsed.
      apply Z.mod_small. lia. }
    unfold is_due. rewrite Hsub, Hpsmall, Z.geb_le.
    replace ((Z.of_nat j + 1) * p) with (Z.of_nat j * p + p) by ring. lia. }
  intros env n Henv.
  assert (Hcount : forall b, b = pm ->
            due_count b p (repeat now n) = Nat.min n m).
  { intros b ->. rewrite (due_count_same_tick now p) by lia.
    rewrite Hesub. reflexivity. }
  split.
  - intros Hmax Hpm.
    assert (Hpms : to_ulong pm = pm) by (apply to_ulong_small; exact Hpm).
    assert (P0 : perpetual i (callbacks s !!! i) p (to_ulong pm) s).
    { split; [exact HI|]. rewrite Hpms. unfold view, pm.
      rewrite Hdl, Hen, Hmax. reflexivity. }
    assert (Henv' : forall f, body_all (fun c => call_in_bounds c /\ call_avoids i c) (env f)).
    { intros f. eapply body_all_impl; [|apply Henv].
      intros c (Hb & Ha & _). split; assumption. }
    destruct (run_all_perpetual env i Hi Henv' (callbacks s !!! i) p Hcb
                (repeat now n) pm s P0) as (s' & tr & E & Hf & _ & (_ & Hv')).
    rewrite Hpms, (Hcount pm eq_refl) in Hf, Hv'.
    exists s', tr. split; [exact E|]. split; [exact Hf|].
    pose proof (f_equal sl_cb Hv') as V1. pose proof (f_equal sl_en Hv') as V2.
    pose proof (f_equal sl_prev Hv') as V3.
    rewrite view_cb in V1. rewrite view_en in V2. rewrite view_prev in V3.
    cbn [sl_cb sl_en sl_prev] in V1, V2, V3. auto.
  - intros Hruns.
    assert (L0 : live i (callbacks s !!! i) (maxNumRuns s !!! i) p (numRuns s !!! i) pm s).
    { split; [exact HI|]. split; [exact Hruns|]. unfold view, pm.
      rewrite Hdl, Hen. reflexivity. }
    destruct (run_all_live_count env i (callbacks s !!! i) (maxNumRuns s !!! i) p
                (repeat now n) (numRuns s !!! i) pm s Hi Henv Hcb ltac:(lia) L0)
      as (s' & tr & E & Hf).
    rewrite (Hcount pm eq_refl) in Hf.
    exists s', tr. split; [exact E|]. rewrite Hf. apply Nat.min_comm.
Qed.

Lemma one_call_per_pass_witness :
  prev_millis (evaluate 390 overdue_timer) !!! 0%nat = 140 /\
  is_due 391 140 100 = true /\
  is_due 390 340 100 = false /\
  (exists s' tr, run passive 390 overdue_timer = Some (s', tr) /\ fires 0 tr = 1%nat) /\
  (exists s' tr, run_all passive (repeat 390 5) overdue_timer = Some (s', tr) /\
                 fires 0 tr = 3%nat /\ prev_millis s' !!! 0%nat = 340).
Proof.
  destruct (one_call_per_pass 390 overdue_timer 0 100 3)
    as (H1 & H2 & _ & H4 & H5 & H6).
  - vm_compute. repeat split; discriminate.
  - vm_compute. lia.
  - vm_compute. discriminate.
  - vm_compute. reflexivity.
  - vm_compute. reflexivity.
  - lia.
  - lia.
  - vm_compute. discriminate.
  - split; [etransitivity; [exact H1|vm_compute; reflexivity]|].
    split.
    { etransitivity; [|apply (H2 391); vm_compute; reflexivity].
      vm_compute. reflexivity. }
    split.
    { destruct (is_due 390 340 100) eqn:Hd; [|reflexivity].
      exfalso. apply (H5 3%nat) in Hd; [vm_compute in Hd; apply Hd; reflexivity|].
      vm_compute. discriminate. }
    split.
    { destruct (H4 passive (fun f => I)) as (s' & tr & E & Hone & _).
      exists s', tr. split; [exact E|]. apply Hone. left. vm_compute. reflexivity. }
    destruct (H6 passive 5%nat (fun f => I)) as (Hforever & _).
    destruct Hforever as (s' & tr & E & Hf & _ & _ & Hb).
    { vm_compute. reflexivity. }
    { vm_compute. split; [discriminate|reflexivity]. }
    exists s', tr. split; [exact E|].
    split; [etransitivity; [exact Hf|vm_compute; reflexivity]|].
    etransitivity; [exact Hb|vm_compute; reflexivity].
Defined.

(** * The invariant within the index range *)

(** X13. Construction establishes that [numTimers] is the number of slots in
    use and is at most [MAX_TIMERS]; every call of the interface whose index
    is not negative has a defined result, in which this holds again; so has
    every [run()] whose callbacks make only such calls.  (Whenever a call or
    a [run()] has a defined result at all, the invariant holds in it.) *)
Theorem invariant_kept_within_bounds :
  (forall mem t, wf mem -> Inv (SimpleTimer_new mem t)) /\
  (forall c s, Inv s -> call_in_bounds c ->
     exists s' r, exec_call c s = Some (s', r) /\ Inv s') /\
  (forall env t s, Inv s -> (forall f, body_all call_in_bounds (env f)) ->
     exists s' tr, run env t s = Some (s', tr) /\ Inv s') /\
  (forall c s s' r, Inv s -> exec_call c s = Some (s', r) -> Inv s') /\
  (forall env t s s' tr, Inv s -> run env t s = Some (s', tr) -> Inv s').
Proof.
  split; [exact Inv_new|]. split; [|split; [|split]].
  - intros c s HI Hc. destruct (exec_call_defined c s Hc) as (s' & r & E).
    exists s', r. split; [exact E|]. eapply Inv_call; eauto.
  - intros env t s HI Henv. apply run_defined; assumption.
  - intros c s s' r HI H. eapply Inv_call; eauto.
  - intros env t s s' tr HI H. eapply Inv_run; eauto.
Qed.

Lemma invariant_kept_within_bounds_witness :
  Inv fresh /\
  (exists s' r, exec_call (CallDeleteTimer 0) (fst (setTimer 0 1000 1 0 fresh)) = Some (s', r) /\
                Inv s' /\ numTimers s' = 0) /\
  (exists s' tr, run passive 1000 (fst (setTimer 0 1000 1 1 fresh)) = Some (s', tr) /\
                 Inv s').
Proof.
  destruct invariant_kept_within_bounds as (Hnew & Hcall & Hrun & _ & _).
  assert (H0 : Inv fresh) by (apply Hnew; vm_compute; repeat split).
  split; [exact H0|]. split.
  - destruct (Hcall (CallDeleteTimer 0) (fst (setTimer 0 1000 1 0 fresh)))
      as (s' & r & E & HI').
    + vm_compute. repeat split; discriminate.
    + vm_compute. discriminate.
    + exists s', r. split; [exact E|]. split; [exact HI'|].
      assert (E' : exists x, exec_call (CallDeleteTimer 0) (fst (setTimer 0 1000 1 0 fresh))
                             = Some x /\ numTimers (fst x) = 0)
        by (eexists; split; vm_compute; reflexivity).
      destruct E' as (x & Ex & Hn). rewrite E in Ex. inversion Ex; subst. exact Hn.
  - apply (Hrun passive 1000 (fst (setTimer 0 1000 1 1 fresh))).
    + vm_compute. repeat split; discriminate.
    + intros f. exact I.
Defined.
